(** * ChronosRep: a shallow embedding of the reputation pipeline

    The development follows the Python sources under [src/chronosrep]:
    - [modules/irv_pe.py]  evidence fusion over the three-label frame,
    - [modules/bsm.py]     the CUSUM behaviour monitor,
    - [modules/vadm.py]    the jump-diffusion reputation dynamics,
    - [modules/ite.py]     the interaction and community engine,
    - [modules/vcgen.py]   the credential synthesiser,
    - [model.py]           the agent and model step.

    Conventions of the embedding.
    - A Python [float] is an exact rational ([Q], compared with [==]):
      rounding is idealised away, so a sum that the code keeps at 1.0 up to
      rounding is here 1 exactly.  Where rounding decides a statement, the
      code is embedded once more on binary64 numbers ([IrvPeBinary64]).
    - The rationals have no nan and no infinity.  Where numpy would
      produce nan (the square root of a negative [dt] or [delta_t]), a
      theorem about the value assumes the argument non-negative.
    - Exceptions.  The division [eta / h] of [process], which the
      interpreter refuses for [h = 0], is modelled as a raised
      [ZeroDivisionError].  The isolation-rate reporter divides by the
      class attribute [N]; it is embedded for [N] other than 0 (the class
      sets 1000, and one agent is created per unit of [N]).  [math.log2]
      raises [ValueError] on 0.0, which [_belief_entropy] can only hand
      over when a positive mass underflows in the quotient [m / denom];
      the rationals do not underflow, and a theorem that states that
      [process] returns assumes the masses out of that range.
    - A Python [int] is a [Z]; a [dict] is a [gmap]; a [set] of actor ids is
      a [gset Z]; a [frozenset] over the three-label frame is its
      characteristic triple of booleans.
    - Library functions that are not rational ([math.log2], [numpy.sqrt])
      and the pseudo-random generators are operations of an interface
      (a type class); every theorem holds for all their implementations. *)

From Stdlib Require Import QArith Qminmax Qabs Qround Lqa ZArith List.
From Stdlib Require Floats.PrimFloat.
From stdpp Require Import base decidable countable gmap strings pretty list.

Open Scope Q_scope.

(** ** Python numerics *)

(** [sum(xs)] over floats. *)
Definition sumQ (l : list Q) : Q := fold_left Qplus l 0.

(** [np.clip(x, lo, hi)]. *)
Definition np_clip (x lo hi : Q) : Q := Qmin (Qmax x lo) hi.

(** Comparisons of floats as booleans. *)
Definition Qltb (x y : Q) : bool := negb (Qle_bool y x).
Definition Qgtb (x y : Q) : bool := Qltb y x.
Definition Qgeb (x y : Q) : bool := Qle_bool y x.

(** The transcendental helpers the sources import from [math] and [numpy]:
    [math.log2] on positive arguments and [numpy.sqrt] on non-negative
    ones (outside them the first raises [ValueError] and the second
    returns nan, neither of which a rational can stand for). *)
Class PyMath := {
  math_log2 : Q → Q;
  np_sqrt : Q → Q
}.

(** A rational instance for evaluating the code on concrete inputs: the
    square root is exact on squares of rationals, the logarithm on powers
    of two (both round down elsewhere). *)
Definition sqrt_exact (q : Q) : Q :=
  let r := Qred q in
  inject_Z (Z.sqrt (Qnum r)) / inject_Z (Z.sqrt (Zpos (Qden r))).

Definition log2_exact (q : Q) : Q :=
  let r := Qred q in
  inject_Z (Z.log2 (Qnum r)) - inject_Z (Z.log2 (Zpos (Qden r))).

Definition PyMath_exact : PyMath :=
  {| math_log2 := log2_exact; np_sqrt := sqrt_exact |}.

(** [arr.mean()] and [arr.std()] of numpy (population standard deviation). *)
Definition np_mean (l : list Q) : Q := sumQ l / inject_Z (Z.of_nat (length l)).

Definition np_std `{PyMath} (l : list Q) : Q :=
  let mu := np_mean l in
  np_sqrt (np_mean (map (λ x, (x - mu) * (x - mu)) l)).

(** [deque(maxlen=n).append(x)]: the oldest element leaves on overflow. *)
Definition deque_append {A} (maxlen : nat) (d : list A) (x : A) : list A :=
  let d' := d ++ [x] in
  if (maxlen <? length d')%nat then tail d' else d'.

(** Exceptions the modelled code can raise. *)
Inductive exn := ZeroDivisionError.

Inductive PyResult (A : Type) :=
| Ok (a : A)
| Raise (e : exn).
Arguments Ok {A} a.
Arguments Raise {A} e.

Definition py_bind {A B} (m : PyResult A) (k : A → PyResult B) : PyResult B :=
  match m with Ok a => k a | Raise e => Raise e end.

Fixpoint py_mapM {A B} (f : A → PyResult B) (l : list A) : PyResult (list B) :=
  match l with
  | [] => Ok []
  | x :: l' => py_bind (f x) (λ y, py_bind (py_mapM f l') (λ ys, Ok (y :: ys)))
  end.

(** ** modules/irv_pe.py *)

Module IrvPe.

Inductive label := trusted | untrusted | unknown.

Global Instance label_eq_dec : EqDecision label.
Proof. solve_decision. Defined.

(** A hypothesis: a [frozenset] of labels. *)
Record hyp := Hyp { has_trusted : bool; has_untrusted : bool; has_unknown : bool }.

Global Instance hyp_eq_dec : EqDecision hyp.
Proof. solve_decision. Defined.

Global Instance hyp_countable : Countable hyp.
Proof.
  refine (inj_countable'
            (λ h, (has_trusted h, has_untrusted h, has_unknown h))
            (λ t, match t with (a, b, c) => Hyp a b c end) _).
  by intros [].
Defined.

Definition _FRAME : hyp := Hyp true true true.
Definition _S_TR : hyp := Hyp true false false.
Definition _S_UN : hyp := Hyp false true false.
Definition _S_UK : hyp := Hyp false false true.
Definition _S_TR_UN : hyp := Hyp true true false.
Definition _S_TR_UK : hyp := Hyp true false true.
Definition _S_UN_UK : hyp := Hyp false true true.
Definition _EMPTY : hyp := Hyp false false false.

(** [A & B], [len(A)], [A <= B], [e in A], [bool(A)] and iteration. *)
Definition hyp_inter (A B : hyp) : hyp :=
  Hyp (has_trusted A && has_trusted B)
      (has_untrusted A && has_untrusted B)
      (has_unknown A && has_unknown B).

Definition hyp_len (A : hyp) : Z :=
  Z.b2z (has_trusted A) + Z.b2z (has_untrusted A) + Z.b2z (has_unknown A).

Definition hyp_subseteq (A B : hyp) : bool :=
  implb (has_trusted A) (has_trusted B)
  && implb (has_untrusted A) (has_untrusted B)
  && implb (has_unknown A) (has_unknown B).

Definition hyp_mem (e : label) (A : hyp) : bool :=
  match e with
  | trusted => has_trusted A
  | untrusted => has_untrusted A
  | unknown => has_unknown A
  end.

Definition hyp_nonempty (A : hyp) : bool :=
  has_trusted A || has_untrusted A || has_unknown A.

Definition hyp_elements (A : hyp) : list label :=
  filter (λ e, hyp_mem e A = true) [trusted; untrusted; unknown].

(** [_powerset(_FRAME)]: the seven non-empty hypotheses, by cardinality.
    (The order inside one cardinality follows Python's set iteration and is
    not fixed by the source; exact sums do not depend on it.) *)
Definition _SUBSETS : list hyp :=
  [_S_TR; _S_UN; _S_UK; _S_TR_UN; _S_TR_UK; _S_UN_UK; _FRAME].

(** A mass assignment: [dict] from hypothesis to float. *)
Abbreviation BBA := (gmap hyp Q).

(** [m.get(A, 0.0)] *)
Definition bba_get (m : BBA) (A : hyp) : Q := default 0 (m !! A).

(** [sum(m.values())] *)
Definition bba_sum (m : BBA) : Q := sumQ ((map_to_list m).*2).

Definition _VC_TYPE_WEIGHT : gmap string Q :=
  list_to_map [("KYC", 1.00); ("DID_DOC", 0.85); ("BEHAVIORAL", 0.90);
               ("DELEGATED", 0.70); ("GOVERNANCE", 0.75)]%string.

Definition _TIER_DISCOUNT : gmap string Q :=
  list_to_map [("ROOT_CA", 1.00); ("INTERMEDIATE_CA", 0.90);
               ("LEAF_ISSUER", 0.75)]%string.

Definition _CHAIN_DEPTH_PENALTY : Q := 0.05.

Definition _belief_entropy `{PyMath} (bba : BBA) : Q :=
  fold_left
    (λ h '(A, m),
       if Qle_bool m 0 then h
       else
         let card := hyp_len A in
         let denom := (Z.shiftl 1 card - 1)%Z in
         if (denom <=? 0)%Z then h
         else h - m * math_log2 (m / inject_Z denom))
    (map_to_list bba) 0.

(** The uncapped sum of [_conflict_coeff]'s double loop. *)
Definition conflict_mass (m1 m2 : BBA) : Q :=
  fold_left
    (λ K A,
       fold_left
         (λ K B,
            if decide (hyp_inter A B = _EMPTY)
            then K + bba_get m1 A * bba_get m2 B
            else K)
         _SUBSETS K)
    _SUBSETS 0.

Definition _conflict_coeff (m1 m2 : BBA) : Q :=
  Qmin (conflict_mass m1 m2) 1.

(** The generator expression summed for one target hypothesis [A]. *)
Definition combined_mass (m1 m2 : BBA) (A : hyp) : Q :=
  sumQ
    (flat_map
       (λ B, flat_map
               (λ C, if decide (hyp_inter B C = A)
                     then [bba_get m1 B * bba_get m2 C] else [])
               _SUBSETS)
       _SUBSETS).

Definition _chronosrep_combine (m1 m2 : BBA) : BBA :=
  let K := _conflict_coeff m1 m2 in
  if Qgeb K 1 then {[ _FRAME := 1 ]}
  else
    let norm := 1 - K in
    fold_left
      (λ (fused : BBA) A,
         let mass := combined_mass m1 m2 A in
         if Qgtb mass 0 then <[ A := mass / norm ]> fused else fused)
      _SUBSETS ∅.

Definition _condition_bba (bba : BBA) (condition_set : hyp) : BBA :=
  if negb (hyp_nonempty condition_set) then bba
  else
    let conditioned : BBA :=
      fold_left
        (λ (conditioned : BBA) A,
           let intersection := hyp_inter A condition_set in
           if negb (hyp_nonempty intersection) then conditioned
           else <[ intersection :=
                     bba_get conditioned intersection + bba_get bba A ]>
                  conditioned)
        _SUBSETS ∅ in
    let total := bba_sum conditioned in
    if Qeq_bool total 0.0 then {[ _FRAME := 1.0 ]}
    else (λ v, v / total) <$> conditioned.

Definition _downweight_bba (bba : BBA) (w : Q) : BBA :=
  let vacuous := 1 - w in
  map_imap
    (λ A m, Some (m * w + (if decide (A = _FRAME) then vacuous else 0)))
    bba.

Global Instance label_countable : Countable label.
Proof.
  refine (inj_countable'
            (λ e, match e with trusted => 0%nat | untrusted => 1%nat | unknown => 2%nat end)
            (λ n, match n with 0%nat => trusted | 1%nat => untrusted | _ => unknown end) _).
  by intros [].
Defined.

Definition _pignistic_transform (bba : BBA) : gmap label Q :=
  let betp0 : gmap label Q :=
    list_to_map [(trusted, 0); (untrusted, 0); (unknown, 0)] in
  fold_left
    (λ (betp : gmap label Q) '(A, m),
       let card := hyp_len A in
       if (card =? 0)%Z then betp
       else
         let share := m / inject_Z card in
         fold_left
           (λ (betp : gmap label Q) elem,
              <[ elem := default 0 (betp !! elem) + share ]> betp)
           (hyp_elements A) betp)
    (map_to_list bba) betp0.

Definition _belief (bba : BBA) (h : hyp) : Q :=
  sumQ (flat_map
          (λ '(A, m), if hyp_nonempty A && hyp_subseteq A h then [m] else [])
          (map_to_list bba)).

Definition _plausibility (bba : BBA) (h : hyp) : Q :=
  sumQ (flat_map
          (λ '(A, m), if hyp_nonempty (hyp_inter A h) then [m] else [])
          (map_to_list bba)).

(** The fields of [VCRecord] (declared in [modules/vcgen.py]). *)
Inductive attr_value :=
| AStr (s : string)
| AInt (n : Z)
| AFloat (x : Q).

Record VCRecord := {
  vc_id : string;
  vc_type : string;
  issuer_tier : string;
  issuer_trust : Q;
  subject_id : Z;
  revoked : bool;
  attributes : list (string * attr_value);
  bba : BBA;
  issuance_ts : Z;
  chain_depth : Z
}.

Definition _effective_weight (vc : VCRecord) : Q :=
  let type_w := default 0.7 (_VC_TYPE_WEIGHT !! vc_type vc) in
  let tier_d := default 0.7 (_TIER_DISCOUNT !! issuer_tier vc) in
  let depth_p := Qmax 0 (1 - inject_Z (chain_depth vc) * _CHAIN_DEPTH_PENALTY) in
  issuer_trust vc * type_w * tier_d * depth_p.

Record IRV_PE := { eta : Q; revocation_penalty : Q }.

(** [IRV_PE()] with the default arguments. *)
Definition IRV_PE_default : IRV_PE := {| eta := 2.5; revocation_penalty := 0.10 |}.

(** Lines 140-142 of [process]: the credentials that are fused. *)
Definition working_set (credentials : list VCRecord) : list VCRecord :=
  let active := filter (λ vc, revoked vc = false) credentials in
  match active with
  | [] => credentials
  | _ => active
  end.

(** The body of the loop over [active]: one credential's discounted BBA.
    [self.eta / h] is the one division whose divisor is not guarded. *)
Definition weighted_bba `{PyMath} (self : IRV_PE) (vc : VCRecord) : PyResult BBA :=
  let bba0 := bba vc in
  let h := _belief_entropy bba0 in
  let w := _effective_weight vc in
  let w := if revoked vc then w * (1 - revocation_penalty self) else w in
  py_bind
    (if Qgtb h (eta self)
     then (if Qeq_bool h 0 then Raise ZeroDivisionError
           else Ok (w * (eta self / h)))
     else Ok w)
    (λ w,
       let w := Qmax 0.01 (Qmin w 1) in
       Ok (if Qltb w 1 then _downweight_bba bba0 w else bba0)).

Definition np_zeros5 : list Q := [0; 0; 0; 0; 0].

Definition process `{PyMath} (self : IRV_PE) (agent_id : Z)
    (credentials : list VCRecord) : PyResult (list Q) :=
  let active := working_set credentials in
  py_bind (py_mapM (weighted_bba self) active)
    (λ bbas,
       match bbas with
       | [] => Ok np_zeros5
       | b0 :: rest =>
           let fused := fold_left _chronosrep_combine rest b0 in
           let betp := _pignistic_transform fused in
           let bel_tr := _belief fused _S_TR in
           let bel_un := _belief fused _S_UN in
           let bel_uk := _belief fused _S_UK in
           let pl_tr := _plausibility fused _S_TR in
           let betp_tr := default 0 (betp !! trusted) in
           Ok ((λ x, np_clip x 0 1) <$> [bel_tr; bel_un; bel_uk; pl_tr; betp_tr])
       end).

(** Lines 144-177 of [process]: what is done with the working set once it
    is chosen (the loop over [active], the fold of the fusion and the five
    components). *)
Definition process_active `{PyMath} (self : IRV_PE) (active : list VCRecord)
    : PyResult (list Q) :=
  py_bind (py_mapM (weighted_bba self) active)
    (λ bbas,
       match bbas with
       | [] => Ok np_zeros5
       | b0 :: rest =>
           let fused := fold_left _chronosrep_combine rest b0 in
           let betp := _pignistic_transform fused in
           let bel_tr := _belief fused _S_TR in
           let bel_un := _belief fused _S_UN in
           let bel_uk := _belief fused _S_UK in
           let pl_tr := _plausibility fused _S_TR in
           let betp_tr := default 0 (betp !! trusted) in
           Ok ((λ x, np_clip x 0 1) <$> [bel_tr; bel_un; bel_uk; pl_tr; betp_tr])
       end).

End IrvPe.


(** ** irv_pe.py in binary64

    The two fusion functions of [irv_pe.py] once more, on binary64 numbers
    (the kernel's primitive floats, which compute as IEEE 754 prescribes):
    what the rational model idealises away.  A [dict] is here an
    association list in insertion order, since the order of the additions
    matters for rounding. *)
Module IrvPeBinary64.
Import IrvPe PrimFloat.

Abbreviation BBA := (list (hyp * float)).

(** [m.get(A, 0.0)] *)
Definition bba_get (m : BBA) (A : hyp) : float :=
  match find (λ kv, bool_decide (kv.1 = A)) m with
  | Some kv => kv.2
  | None => 0%float
  end.

(** [sum(xs)], one addition after the other from zero. *)
Definition py_sum (l : list float) : float := fold_left add l 0%float.

(** [sum(m.values())] *)
Definition bba_sum (m : BBA) : float := py_sum m.*2.

Definition _conflict_coeff (m1 m2 : BBA) : float :=
  let K :=
    fold_left
      (λ K A,
         fold_left
           (λ K B,
              if decide (hyp_inter A B = _EMPTY)
              then (K + bba_get m1 A * bba_get m2 B)%float
              else K)
           _SUBSETS K)
      _SUBSETS 0%float in
  if (1 <? K)%float then 1%float else K.

Definition _chronosrep_combine (m1 m2 : BBA) : BBA :=
  let K := _conflict_coeff m1 m2 in
  if (1 <=? K)%float then [(_FRAME, 1%float)]
  else
    let norm := (1 - K)%float in
    fold_left
      (λ (fused : BBA) A,
         let mass :=
           py_sum
             (flat_map
                (λ B, flat_map
                        (λ C, if decide (hyp_inter B C = A)
                              then [(bba_get m1 B * bba_get m2 C)%float]
                              else [])
                        _SUBSETS)
                _SUBSETS) in
         if (0 <? mass)%float then fused ++ [(A, (mass / norm)%float)]
         else fused)
      _SUBSETS [].

End IrvPeBinary64.

(** ** modules/bsm.py *)

Module Bsm.

Definition _CUSUM_H : Q := 4.0.
Definition _CUSUM_K : Q := 0.5.
Definition _ZSCORE_WIN : nat := 30.
Definition _ENTROPY_EPS : Q := 1 # 1000000000.

Record _StreamState := {
  window : list Q;
  cusum_pos : Q;
  cusum_neg : Q;
  alarm_count : Z;
  last_entropy : Q;
  t : Z
}.

(** [_StreamState()] with the dataclass defaults. *)
Definition _StreamState_new : _StreamState :=
  {| window := []; cusum_pos := 0.0; cusum_neg := 0.0; alarm_count := 0;
     last_entropy := 0.0; t := 0 |}.

Definition _shannon_entropy `{PyMath} (probs : list Q) : Q :=
  let p := filter (λ x, Qgtb x _ENTROPY_EPS = true) probs in
  - sumQ (map (λ x, x * math_log2 x) p).

Definition _outcome_distribution (window : list Q) : list Q :=
  if (length window =? 0)%nat then [0.5; 0.5]
  else
    let p1 := np_mean window in
    let p0 := 1.0 - p1 in
    [p0; p1].

Definition _zscore_normalize `{PyMath} (value : Q) (window : list Q) : Q :=
  if (length window <? 2)%nat then 0.0
  else
    let mu := np_mean window in
    let sigma := np_std window in
    if Qltb sigma _ENTROPY_EPS then 0.0
    else (value - mu) / sigma.

Definition _cusum_update (z s_pos s_neg k : Q) : Q * Q * bool :=
  let s_pos := Qmax 0.0 (s_pos + z - k) in
  let s_neg := Qmax 0.0 (s_neg - z - k) in
  let alarm := Qgtb s_pos _CUSUM_H || Qgtb s_neg _CUSUM_H in
  if alarm then (0.0, 0.0, alarm) else (s_pos, s_neg, alarm).

Record BSM := {
  _h : Q;
  _k : Q;
  _states : gmap Z _StreamState
}.

(** [BSM(cusum_h, cusum_k)] and [BSM()]. *)
Definition BSM_new (cusum_h cusum_k : Q) : BSM :=
  {| _h := cusum_h; _k := cusum_k; _states := ∅ |}.

Definition BSM_default : BSM := BSM_new _CUSUM_H _CUSUM_K.

(** [_ensure]: the stream state of an actor, created on first use. *)
Definition _ensure (self : BSM) (agent_id : Z) : _StreamState :=
  default _StreamState_new (_states self !! agent_id).

(** One pass of the loop of [monitor] over an outcome: the state after it
    and the alarm steps collected so far. *)
Definition observe `{PyMath} (k : Q) (acc : _StreamState * list Z) (outcome : Z)
    : _StreamState * list Z :=
  let '(s, alarms) := acc in
  let w := deque_append _ZSCORE_WIN (window s) (inject_Z outcome) in
  let z := _zscore_normalize (inject_Z outcome) w in
  let '(pos, neg, alarm) := _cusum_update z (cusum_pos s) (cusum_neg s) k in
  let count := if alarm then (alarm_count s + 1)%Z else alarm_count s in
  let alarms := if alarm then alarms ++ [t s] else alarms in
  ({| window := w; cusum_pos := pos; cusum_neg := neg; alarm_count := count;
      last_entropy := last_entropy s; t := (t s + 1)%Z |}, alarms).

Record diagnostics := {
  d_agent_id : Z;
  d_mean_outcome : Q;
  d_entropy : Q;
  d_anomaly_score : Q;
  d_alarm_steps : list Z;
  d_cusum_pos : Q;
  d_cusum_neg : Q;
  d_t : Z
}.

Definition monitor `{PyMath} (self : BSM) (agent_id : Z) (behavior_stream : list Z)
    : diagnostics * BSM :=
  let s := _ensure self agent_id in
  let '(s, alarms) := fold_left (observe (_k self)) behavior_stream (s, []) in
  let dist := _outcome_distribution (window s) in
  let h := _shannon_entropy dist in
  let s := {| window := window s; cusum_pos := cusum_pos s;
              cusum_neg := cusum_neg s; alarm_count := alarm_count s;
              last_entropy := h; t := t s |} in
  let mean_outcome :=
    if (0 <? length (window s))%nat then np_mean (window s) else 0.5 in
  let anomaly_score := inject_Z (alarm_count s) / inject_Z (Z.max (t s) 1) in
  ({| d_agent_id := agent_id; d_mean_outcome := mean_outcome; d_entropy := h;
      d_anomaly_score := anomaly_score; d_alarm_steps := alarms;
      d_cusum_pos := cusum_pos s; d_cusum_neg := cusum_neg s; d_t := t s |},
   {| _h := _h self; _k := _k self;
      _states := <[ agent_id := s ]> (_states self) |}).

Definition anomaly_score (self : BSM) (agent_id : Z) : Q :=
  match _states self !! agent_id with
  | None => 0.0
  | Some s =>
      if (t s =? 0)%Z then 0.0
      else inject_Z (alarm_count s) / inject_Z (t s)
  end.

(** A BSM after a sequence of [monitor] calls, each an actor and a stream. *)
Definition run_monitors `{PyMath} (self : BSM) (calls : list (Z * list Z)) : BSM :=
  fold_left (λ b '(agent_id, stream), (monitor b agent_id stream).2) calls self.

End Bsm.

(** ** modules/vadm.py *)

(** The part of [numpy.random.Generator] the sources use.  [normal loc scale]
    and [standard_normal] return the draw and the advanced generator. *)
Class NpGenerator (G : Type) := {
  default_rng : Z → G;
  standard_normal : G → Q * G;
  normal : Q → Q → G → Q * G
}.

(** A generator that replays a tape of standard-normal draws (0 once the
    tape is used up); [normal loc scale] is [loc + scale * z]. *)
Definition tape_generator : NpGenerator (list Q) :=
  {| default_rng := λ _, [];
     standard_normal := λ g, (hd 0 g, tl g);
     normal := λ loc scale g, (loc + scale * hd 0 g, tl g) |}.

Module Vadm.

Definition _GAMMA_THRESHOLD : Q := 3.0.
Definition _X_LO : Q := 0.0.
Definition _X_HI : Q := 1.0.

Record _AgentState := {
  x : Q;
  theta : Q;
  history : list Q;
  t : Z
}.

Definition _noise_floor `{PyMath} (sigma theta : Q) : Q :=
  sigma / Qmax (np_sqrt (2.0 * theta)) (1 # 100000000).

Definition _gamma_ratio `{PyMath} (epsilon sigma theta : Q) : Q :=
  let nf := _noise_floor sigma theta in
  if Qgtb nf 0 then Qabs epsilon / nf else 0.0.

(** Lines 41-44 of [_euler_maruyama]: the jump and the generator after it. *)
Definition jump_term `{NpGenerator G} (x mu jump_scale gamma : Q) (rng : G)
    : Q * G :=
  if Qgtb gamma _GAMMA_THRESHOLD then
    let direction := if Qgtb x mu then - (1.0) else 1.0 in
    let '(n, rng) := normal 0.0 jump_scale rng in
    (direction * Qabs n, rng)
  else (0.0, rng).

Definition _euler_maruyama `{PyMath} `{NpGenerator G}
    (x mu theta sigma dt : Q) (rng : G) (jump_scale gamma : Q) : Q * G :=
  let drift := theta * (mu - x) * dt in
  let '(z, rng) := standard_normal rng in
  let diffusion := sigma * z * np_sqrt dt in
  let '(jump, rng) := jump_term x mu jump_scale gamma rng in
  (np_clip (x + drift + diffusion + jump) _X_LO _X_HI, rng).

Definition _update_theta (theta epsilon alpha dt : Q) : Q :=
  let grad := epsilon - theta * dt in
  np_clip (theta + alpha * grad) (1 # 10000) 10.0.

Record VADM {G : Type} := {
  _dt : Q;
  _theta_0 : Q;
  _sigma : Q;
  _jump_scale : Q;
  _alpha : Q;
  _window : nat;
  _rng : G;
  _states : gmap Z _AgentState
}.
Arguments VADM G : clear implicits.

(** [VADM(dt, theta_0, sigma, jump_scale, alpha, window, seed)]. *)
Definition VADM_new `{NpGenerator G}
    (dt theta_0 sigma jump_scale alpha : Q) (window : nat) (seed : Z) : VADM G :=
  {| _dt := dt; _theta_0 := theta_0; _sigma := sigma;
     _jump_scale := jump_scale; _alpha := alpha; _window := window;
     _rng := default_rng seed; _states := ∅ |}.

Definition VADM_default `{NpGenerator G} : VADM G :=
  VADM_new 1.0 0.30 0.03 0.35 0.05 20 0.

(** [irv[0]] of a five-component evidence vector. *)
Definition irv0 (irv : list Q) : Q := default 0 (irv !! 0%nat).

(** The state [_init] creates for a new actor. *)
Definition _init {G} (self : VADM G) (mu : Q) : _AgentState :=
  {| x := np_clip mu _X_LO _X_HI; theta := _theta_0 self; history := [];
     t := 0 |}.

(** [self._states.get(agent_id) or self._init(agent_id, mu)] *)
Definition state_of {G} (self : VADM G) (agent_id : Z) (mu : Q) : _AgentState :=
  match _states self !! agent_id with
  | Some s => s
  | None => _init self mu
  end.

Definition step `{PyMath} `{NpGenerator G} (self : VADM G) (agent_id : Z)
    (irv : list Q) (r_static : Q) : (Q * Q) * VADM G :=
  let mu := np_clip (irv0 irv) _X_LO _X_HI in
  let s := state_of self agent_id mu in
  let epsilon := Qabs (r_static - x s) in
  let gamma := _gamma_ratio epsilon (_sigma self) (theta s) in
  let theta' := _update_theta (theta s) epsilon (_alpha self) (_dt self) in
  let '(x', rng) :=
    _euler_maruyama (x s) mu theta' (_sigma self) (_dt self) (_rng self)
      (_jump_scale self) gamma in
  let history' := deque_append (_window self) (history s) x' in
  let s' := {| x := x'; theta := theta'; history := history';
               t := (t s + 1)%Z |} in
  let sigma_w := if (1 <? length history')%nat then np_std history' else 0.0 in
  ((x', sigma_w),
   {| _dt := _dt self; _theta_0 := _theta_0 self; _sigma := _sigma self;
      _jump_scale := _jump_scale self; _alpha := _alpha self;
      _window := _window self; _rng := rng;
      _states := <[ agent_id := s' ]> (_states self) |}).

(** [step_ou_only]: the trajectory and the model after its draws. *)
Definition step_ou_only `{PyMath} `{NpGenerator G} (self : VADM G)
    (x0 mu theta : Q) (n_steps : nat) : list Q * VADM G :=
  let '(traj, _, rng) :=
    fold_left
      (λ '(traj, x, rng) _,
         let drift := theta * (mu - x) * _dt self in
         let '(z, rng) := standard_normal rng in
         let diff := _sigma self * z * np_sqrt (_dt self) in
         let x := np_clip (x + drift + diff) _X_LO _X_HI in
         (traj ++ [x], x, rng))
      (seq 0 n_steps) ([x0], x0, _rng self) in
  (traj,
   {| _dt := _dt self; _theta_0 := _theta_0 self; _sigma := _sigma self;
      _jump_scale := _jump_scale self; _alpha := _alpha self;
      _window := _window self; _rng := rng; _states := _states self |}).

Definition decay `{PyMath} `{NpGenerator G} (self : VADM G)
    (reputation volatility : Q) (delta_t : Z) : Q * VADM G :=
  let drift := _theta_0 self * (0.5 - reputation) * inject_Z delta_t in
  let '(z, rng) := standard_normal (_rng self) in
  let diff := volatility * z * np_sqrt (inject_Z delta_t) in
  (np_clip (reputation + drift + diff) _X_LO _X_HI,
   {| _dt := _dt self; _theta_0 := _theta_0 self; _sigma := _sigma self;
      _jump_scale := _jump_scale self; _alpha := _alpha self;
      _window := _window self; _rng := rng; _states := _states self |}).

End Vadm.

(** ** modules/ite.py *)

(** The part of [random.Random] the sources use.  Draws that pick from a
    sequence return positions in it: [rnd_choice n] one index below [n],
    [rnd_choices n weights k] a list of [k] indices, [rnd_sample n k] a
    list of [k] indices without repetition. *)
Class PyRandom (R : Type) := {
  random_Random : Z → R;
  rnd_random : R → Q * R;
  rnd_uniform : Q → Q → R → Q * R;
  rnd_randint : Z → Z → R → Z * R;
  rnd_getrandbits : Z → R → Z * R;
  rnd_choice : nat → R → nat * R;
  rnd_choices : nat → option (list Q) → nat → R → list nat * R;
  rnd_sample : nat → nat → R → list nat * R
}.

(** A small linear congruential generator: an instance for evaluating the
    code on concrete inputs. *)
Definition lcg_next (s : Z) : Z := ((1103515245 * s + 12345) mod 2147483648)%Z.

Definition lcg_random : PyRandom Z :=
  {| random_Random := λ seed, (seed mod 2147483648)%Z;
     rnd_random := λ s, (inject_Z (lcg_next s) / 2147483648, lcg_next s);
     rnd_uniform := λ a b s,
       (a + (b - a) * (inject_Z (lcg_next s) / 2147483648), lcg_next s);
     rnd_randint := λ a b s, ((a + lcg_next s mod (b - a + 1))%Z, lcg_next s);
     rnd_getrandbits := λ k s, ((lcg_next s mod 2 ^ k)%Z, lcg_next s);
     rnd_choice := λ n s, (Z.to_nat (lcg_next s mod Z.of_nat n), lcg_next s);
     rnd_choices := λ n _ k s,
       ((λ i, Z.to_nat ((lcg_next s + Z.of_nat i) mod Z.of_nat n)) <$> seq 0 k,
        lcg_next s);
     rnd_sample := λ n k s,
       ((λ i, Z.to_nat ((lcg_next s + Z.of_nat i) mod Z.of_nat n)) <$> seq 0 k,
        lcg_next s) |}.

(** The element of [pool] at a drawn position. *)
Definition pick {A} (d : A) (pool : list A) (i : nat) : A := nth i pool d.

(** [community.best_partition] of python-louvain, on the nodes and the
    undirected edges of the projected graph. *)
Class Louvain := {
  best_partition : gset Z → list (Z * Z) → gmap Z Z
}.

(** The partition with a single community 0, which is what modularity
    maximisation returns on a clique: an instance for evaluating the code
    on concrete inputs. *)
Definition louvain_one_block : Louvain :=
  {| best_partition := λ ns _, set_to_map (λ n, (n, 0%Z)) ns |}.

Module Ite.

Definition _SUSPECT_DIN : Q := 0.60.
Definition _SUSPECT_EXTER : Q := 0.20.
Definition _BETA : Q := 0.5.
Definition _GAMMA : Q := 0.5.

Record _CommStats := {
  members : gset Z;
  din : Q;
  ext_ratio : Q
}.

Definition _fast_jaccard (nbrs_u nbrs_v : gset Z) : Q :=
  let inter := size (nbrs_u ∩ nbrs_v) in
  let union := size (nbrs_u ∪ nbrs_v) in
  if (0 <? union)%nat
  then inject_Z (Z.of_nat inter) / inject_Z (Z.of_nat union)
  else 0.0.

Definition _is_suspect (stats : _CommStats) : bool :=
  Qgeb (din stats) _SUSPECT_DIN && Qle_bool (ext_ratio stats) _SUSPECT_EXTER.

Definition _structural_penalty (sim din : Q) : Q :=
  let raw := _BETA * sim + _GAMMA * din in
  Qmax 0.0 (1.0 - raw).

(** [nx.DiGraph]: the nodes, and per directed edge its [weight] and [last]
    attributes. *)
Record DiGraph := {
  nodes : gset Z;
  edges : gmap (Z * Z) (Z * Z)
}.

Record ITE {R : Type} := {
  _beta : Q;
  _gamma : Q;
  _recompute_interval : Z;
  _k : nat;
  _rng : R;
  _graph : DiGraph;
  _nbrs : gmap Z (gset Z);
  _partition : gmap Z Z;
  _comm_stats : gmap Z _CommStats;
  _step : Z
}.
Arguments ITE R : clear implicits.

(** [ITE(beta, gamma, recompute_interval, k_interactions, seed)]. *)
Definition ITE_new `{PyRandom R} (beta gamma : Q) (recompute_interval : Z)
    (k_interactions : nat) (seed : Z) : ITE R :=
  {| _beta := beta; _gamma := gamma; _recompute_interval := recompute_interval;
     _k := k_interactions; _rng := random_Random seed;
     _graph := {| nodes := ∅; edges := ∅ |}; _nbrs := ∅; _partition := ∅;
     _comm_stats := ∅; _step := 0 |}.

Definition ITE_default `{PyRandom R} : ITE R := ITE_new _BETA _GAMMA 10 3 42.

Section Methods.
Context {R : Type}.

Definition with_graph (self : ITE R) (g : DiGraph) (nb : gmap Z (gset Z)) : ITE R :=
  {| _beta := _beta self; _gamma := _gamma self;
     _recompute_interval := _recompute_interval self; _k := _k self;
     _rng := _rng self; _graph := g; _nbrs := nb;
     _partition := _partition self; _comm_stats := _comm_stats self;
     _step := _step self |}.

Definition with_rng (self : ITE R) (rng : R) : ITE R :=
  {| _beta := _beta self; _gamma := _gamma self;
     _recompute_interval := _recompute_interval self; _k := _k self;
     _rng := rng; _graph := _graph self; _nbrs := _nbrs self;
     _partition := _partition self; _comm_stats := _comm_stats self;
     _step := _step self |}.

(** [d.setdefault(k, set())] and the read [d[k]] of a [defaultdict(set)]:
    both leave an entry behind. *)
Definition nbrs_touch (nb : gmap Z (gset Z)) (k : Z) : gmap Z (gset Z) :=
  match nb !! k with
  | Some _ => nb
  | None => <[ k := ∅ ]> nb
  end.

Definition nbrs_get (nb : gmap Z (gset Z)) (k : Z) : gset Z :=
  default ∅ (nb !! k).

Definition _ensure (self : ITE R) (ids : list Z) : ITE R :=
  fold_left
    (λ self aid,
       if decide (aid ∈ nodes (_graph self)) then self
       else
         with_graph self
           {| nodes := {[ aid ]} ∪ nodes (_graph self);
              edges := edges (_graph self) |}
           (nbrs_touch (_nbrs self) aid))
    ids self.

Definition _add_edge (self : ITE R) (u v outcome : Z) : ITE R :=
  let g := _graph self in
  let e :=
    match edges g !! (u, v) with
    | Some (weight, _) => <[ (u, v) := ((weight + 1)%Z, outcome) ]> (edges g)
    | None => <[ (u, v) := (1%Z, outcome) ]> (edges g)
    end in
  let nb := <[ u := {[ v ]} ∪ nbrs_get (_nbrs self) u ]> (_nbrs self) in
  let nb := <[ v := {[ u ]} ∪ nbrs_get nb v ]> nb in
  with_graph self {| nodes := {[ u; v ]} ∪ nodes g; edges := e |} nb.

(** The statistics of one community in [_recompute]. *)
Definition comm_stats_of (g : DiGraph) (members : list Z) : _CommStats :=
  let n := Z.of_nat (length members) in
  let mset : gset Z := list_to_set members in
  let es := (map_to_list (edges g)).*1 in
  let internal :=
    Z.of_nat (length (filter (λ e, e.1 ∈ mset ∧ e.2 ∈ mset) es)) in
  let external :=
    Z.of_nat (length (filter (λ e, e.1 ∈ mset ∧ e.2 ∉ mset) es)) in
  let max_int := (n * (n - 1))%Z in
  let din :=
    if (0 <? max_int)%Z then inject_Z internal / inject_Z max_int else 0.0 in
  let total_out := (internal + external)%Z in
  let ext_ratio :=
    if (0 <? total_out)%Z then inject_Z external / inject_Z total_out else 1.0 in
  {| members := mset; din := din; ext_ratio := ext_ratio |}.

Definition _recompute `{Louvain} (self : ITE R) : ITE R :=
  let g := _graph self in
  let partition : gmap Z Z :=
    if decide (edges g = ∅)
    then set_to_map (λ n, (n, n)) (nodes g)
    else best_partition (nodes g) (map_to_list (edges g)).*1 in
  let by_comm : gmap Z (list Z) :=
    fold_left
      (λ (acc : gmap Z (list Z)) '(node, comm),
         <[ comm := default [] (acc !! comm) ++ [node] ]> acc)
      (map_to_list partition) ∅ in
  {| _beta := _beta self; _gamma := _gamma self;
     _recompute_interval := _recompute_interval self; _k := _k self;
     _rng := _rng self; _graph := g; _nbrs := _nbrs self;
     _partition := partition;
     _comm_stats := comm_stats_of g <$> by_comm;
     _step := _step self |}.

(** [tick]; the remainder by a zero interval raises. *)
Definition tick `{Louvain} (self : ITE R) : PyResult (ITE R) :=
  let self :=
    {| _beta := _beta self; _gamma := _gamma self;
       _recompute_interval := _recompute_interval self; _k := _k self;
       _rng := _rng self; _graph := _graph self; _nbrs := _nbrs self;
       _partition := _partition self; _comm_stats := _comm_stats self;
       _step := (_step self + 1)%Z |} in
  if (_recompute_interval self =? 0)%Z then Raise ZeroDivisionError
  else if (_step self mod _recompute_interval self =? 0)%Z
       then Ok (_recompute self)
       else Ok self.

Definition generate_interactions `{PyRandom R} (self : ITE R) (agent_id : Z)
    (all_ids : list Z) : list (Z * Z) * ITE R :=
  let self := _ensure self (agent_id :: all_ids) in
  let candidates := filter (λ x, x ≠ agent_id) all_ids in
  let '(idx, rng) :=
    rnd_sample (length candidates) (Nat.min (_k self) (length candidates))
      (_rng self) in
  let targets := pick 0%Z candidates <$> idx in
  fold_left
    (λ '(pairs, self) t,
       let '(outcome, rng) := rnd_randint 0 1 (_rng self) in
       let self := _add_edge (with_rng self rng) agent_id t outcome in
       (pairs ++ [(t, outcome)], self))
    targets ([], with_rng self rng).

Definition force_interaction (self : ITE R) (u v outcome : Z) : ITE R :=
  _add_edge (_ensure self [u; v]) u v outcome.

(** [penalized_evidence]: the evidence value, and the engine after the two
    reads of the neighbour table. *)
Definition penalized_evidence (self : ITE R) (endorser_id target_id raw_outcome : Z)
    : Q * ITE R :=
  let e := inject_Z raw_outcome in
  if decide (_partition self = ∅) then (e, self)
  else
    match _partition self !! endorser_id, _partition self !! target_id with
    | Some c_e, Some c_t =>
        if decide (c_e ≠ c_t) then (e, self)
        else
          match _comm_stats self !! c_e with
          | None => (e, self)
          | Some stats =>
              if negb (_is_suspect stats) then (e, self)
              else
                let nb := nbrs_touch (_nbrs self) endorser_id in
                let nbrs_e := nbrs_get nb endorser_id ∪ {[ endorser_id ]} in
                let nb := nbrs_touch nb target_id in
                let nbrs_t := nbrs_get nb target_id ∪ {[ target_id ]} in
                let sim := _fast_jaccard nbrs_e nbrs_t in
                let w := _structural_penalty sim (din stats) in
                (w * e, with_graph self (_graph self) nb)
          end
    | _, _ => (e, self)
    end.

Definition get_neighbors (self : ITE R) (agent_id : Z) : list Z :=
  elements (nbrs_get (_nbrs self) agent_id).

End Methods.

End Ite.

(** ** modules/vcgen.py *)

(** [hashlib.sha3_256(n.to_bytes(16, "big")).hexdigest()[:32]]. *)
Class Hashlib := {
  sha3_256_hex32 : Z → string
}.

(** A stand-in digest (the decimal digits of the input): an instance for
    evaluating the code on concrete inputs. *)
Definition digest_decimal : Hashlib := {| sha3_256_hex32 := λ n, pretty n |}.

(** The wall clock: [readings i] is what [int(time.time())] returns at the
    [i]-th reading of a run, [reads] counts the readings made so far. *)
Record Clock := {
  readings : nat → Z;
  reads : nat
}.

Definition time_time (c : Clock) : Z * Clock :=
  (readings c (reads c), {| readings := readings c; reads := S (reads c) |}).

(** A clock that shows the same second at every reading. *)
Definition clock_at (now : Z) : Clock := {| readings := λ _, now; reads := 0 |}.

(** [round(x, 4)], half to even. *)
Definition py_round4 (x : Q) : Q :=
  let y := x * 10000 in
  let f := Qfloor y in
  let r := y - inject_Z f in
  let n :=
    if Qltb r 0.5 then f
    else if Qltb 0.5 r then (f + 1)%Z
    else if Z.even f then f else (f + 1)%Z in
  inject_Z n / 10000.

(** [sub in s] on strings. *)
Definition str_in (sub s : string) : bool :=
  match String.index 0 sub s with Some _ => true | None => false end.

(** [f"{n:04d}"]. *)
Definition fmt_04d (n : Z) : string :=
  let pad (w : nat) (s : string) : string :=
    String.concat "" (replicate (w - String.length s) "0"%string) +:+ s in
  if (n <? 0)%Z then "-" +:+ pad 3%nat (pretty (- n)%Z) else pad 4%nat (pretty n).

Module VcGen.
Import IrvPe.

Definition _VC_TYPES : list string :=
  ["KYC"; "DID_DOC"; "BEHAVIORAL"; "DELEGATED"; "GOVERNANCE"]%string.
Definition _ISSUER_TIERS : list string :=
  ["ROOT_CA"; "INTERMEDIATE_CA"; "LEAF_ISSUER"]%string.

Definition _ATTR_KEY_MAP : gmap string (list string) :=
  list_to_map
    [("KYC", ["identity_hash"; "nationality_code"; "risk_band"; "kyc_level"]);
     ("DID_DOC", ["did_method"; "pub_key_alg"; "rotation_count"; "linked_domain"]);
     ("BEHAVIORAL", ["tx_count_30d"; "avg_tx_value"; "flagged_ratio"; "peer_score"]);
     ("DELEGATED", ["delegator_id"; "delegation_depth"; "scope_bitmask"; "expiry_epoch"]);
     ("GOVERNANCE", ["dao_id"; "vote_weight"; "proposal_count"; "slash_count"])]%string.

Definition _TIER_TRUST_RANGE : gmap string (Q * Q) :=
  list_to_map
    [("ROOT_CA", (0.88, 1.00)); ("INTERMEDIATE_CA", (0.70, 0.90));
     ("LEAF_ISSUER", (0.45, 0.75))]%string.

Definition _REVOCATION_PROB_HONEST : Q := 0.02.
Definition _REVOCATION_PROB_ATTACKER : Q := 0.35.

Section Generator.
Context `{PyRandom R} `{Hashlib}.

(** [{k: v / total for k, v in raw.items()}] with [total = sum(raw.values())]
    (at least 0.57 for draws inside their ranges). *)
Definition normalise (raw : list (hyp * Q)) : BBA :=
  let total := sumQ raw.*2 in
  list_to_map ((λ '(k, v), (k, v / total)) <$> raw).

Definition _build_honest_bba (rng : R) : BBA * R :=
  let '(m_tr, rng) := rnd_uniform 0.50 0.78 rng in
  let '(m_uk, rng) := rnd_uniform 0.04 0.18 rng in
  let '(m_fr, rng) := rnd_uniform 0.03 0.10 rng in
  let residual := Qmax 0.0 (1.0 - m_tr - m_uk - m_fr) in
  let '(u, rng) := rnd_uniform 0.00 0.12 rng in
  let m_un := residual * u in
  let '(u, rng) := rnd_uniform 0.00 0.08 rng in
  let m_tr_uk := residual * u in
  (normalise [(_S_TR, m_tr); (_S_UN, m_un); (_S_UK, m_uk);
              (_S_TR_UK, m_tr_uk); (_FRAME, m_fr)], rng).

Definition _build_attacker_bba (rng : R) : BBA * R :=
  let '(m_un, rng) := rnd_uniform 0.48 0.72 rng in
  let '(m_uk, rng) := rnd_uniform 0.10 0.24 rng in
  let '(m_fr, rng) := rnd_uniform 0.05 0.14 rng in
  let residual := Qmax 0.0 (1.0 - m_un - m_uk - m_fr) in
  let '(u, rng) := rnd_uniform 0.00 0.08 rng in
  let m_tr := residual * u in
  let '(u, rng) := rnd_uniform 0.00 0.10 rng in
  let m_un_uk := residual * u in
  (normalise [(_S_TR, m_tr); (_S_UN, m_un); (_S_UK, m_uk);
              (_S_UN_UK, m_un_uk); (_FRAME, m_fr)], rng).

(** The branch of the [if]/[elif] chain of [_build_attributes] a key takes. *)
Inductive attr_kind :=
| KHash | KCount | KRatio | KEpoch | KBitmask | KChoice | KOther.

Definition attr_kind_of (k : string) : attr_kind :=
  if str_in "hash" k || str_in "key" k || str_in "did" k then KHash
  else if str_in "count" k || str_in "depth" k || str_in "rotation" k then KCount
  else if str_in "ratio" k || str_in "score" k || str_in "weight" k then KRatio
  else if str_in "epoch" k then KEpoch
  else if str_in "bitmask" k then KBitmask
  else if str_in "band" k || str_in "level" k || str_in "method" k || str_in "alg" k
       then KChoice
  else KOther.

Definition choices_map (is_attacker : bool) : gmap string (list attr_value) :=
  list_to_map
    [("risk_band",
      if is_attacker then [AStr "LOW"; AStr "MEDIUM"; AStr "HIGH"]
      else [AStr "LOW"; AStr "MEDIUM"]);
     ("kyc_level", [AInt 1; AInt 2; AInt 3]);
     ("did_method", [AStr "did:web"; AStr "did:key"; AStr "did:ion"; AStr "did:ethr"]);
     ("pub_key_alg", [AStr "Ed25519"; AStr "secp256k1"; AStr "P-256"]);
     ("nationality_code", [AStr "VN"; AStr "US"; AStr "SG"; AStr "EU"; AStr "UK"]);
     ("linked_domain", [AStr "example.com"; AStr "defi.xyz"; AStr "anon.io"]);
     ("dao_id", [AStr "dao_alpha"; AStr "dao_beta"; AStr "dao_gamma"])]%string.

(** One pass of the loop of [_build_attributes]. *)
Definition build_attribute (is_attacker : bool)
    (st : list (string * attr_value) * R * Clock) (k : string)
    : list (string * attr_value) * R * Clock :=
  let '(attrs, rng, clk) := st in
  match attr_kind_of k with
  | KHash =>
      let '(seed_val, rng) := rnd_getrandbits 128 rng in
      (attrs ++ [(k, AStr (sha3_256_hex32 seed_val))], rng, clk)
  | KCount =>
      let '(n, rng) := rnd_randint 0 (if is_attacker then 200 else 50) rng in
      (attrs ++ [(k, AInt n)], rng, clk)
  | KRatio =>
      let '(u, rng) := rnd_uniform 0.0 (if is_attacker then 0.25 else 0.08) rng in
      (attrs ++ [(k, AFloat (py_round4 u))], rng, clk)
  | KEpoch =>
      let '(now, clk) := time_time clk in
      let '(n, rng) := rnd_randint 86400 31536000 rng in
      (attrs ++ [(k, AInt (now + n))], rng, clk)
  | KBitmask =>
      let '(n, rng) := rnd_getrandbits 16 rng in
      (attrs ++ [(k, AInt n)], rng, clk)
  | KChoice =>
      let pool :=
        default [AStr "A"; AStr "B"; AStr "C"] (choices_map is_attacker !! k) in
      let '(i, rng) := rnd_choice (length pool) rng in
      (attrs ++ [(k, pick (AStr "") pool i)], rng, clk)
  | KOther =>
      let '(u, rng) := rnd_uniform 0.0 1.0 rng in
      (attrs ++ [(k, AFloat (py_round4 u))], rng, clk)
  end.

Definition _build_attributes (vc_type : string) (rng : R) (clk : Clock)
    (is_attacker : bool) : list (string * attr_value) * R * Clock :=
  let keys := default [] (_ATTR_KEY_MAP !! vc_type) in
  fold_left (build_attribute is_attacker) keys ([], rng, clk).

Definition tier_weights : gmap string (list Q) :=
  list_to_map
    [("KYC", [0.40; 0.40; 0.20]); ("DID_DOC", [0.20; 0.45; 0.35]);
     ("BEHAVIORAL", [0.05; 0.30; 0.65]); ("DELEGATED", [0.10; 0.35; 0.55]);
     ("GOVERNANCE", [0.30; 0.50; 0.20])]%string.

Definition _issuer_tier_for_vc_type (vc_type : string) (rng : R) : string * R :=
  let '(idx, rng) :=
    rnd_choices (length _ISSUER_TIERS) (tier_weights !! vc_type) 1 rng in
  (pick ""%string _ISSUER_TIERS (hd 0%nat idx), rng).

Definition _issuer_trust (tier : string) (rng : R) : Q * R :=
  let '(lo, hi) := default (0, 0) (_TIER_TRUST_RANGE !! tier) in
  let '(u, rng) := rnd_uniform lo hi rng in
  (py_round4 u, rng).

Definition _chain_depth (tier : string) (rng : R) : Z * R :=
  let base :=
    if String.eqb tier "ROOT_CA" then 0%Z
    else if String.eqb tier "INTERMEDIATE_CA" then 1%Z
    else 2%Z in
  let '(j, rng) := rnd_randint 0 1 rng in
  ((base + j)%Z, rng).

Record VCGen := { _seed_offset : Z }.

(** One pass of the loop of [generate]: credential [i] of type [vt]. *)
Definition generate_record (agent_id : Z) (is_attacker : bool)
    (st : list VCRecord * R * Clock) (ivt : nat * string)
    : list VCRecord * R * Clock :=
  let '(records, rng, clk) := st in
  let '(i, vt) := ivt in
  let '(tier, rng) := _issuer_tier_for_vc_type vt rng in
  let '(trust, rng) := _issuer_trust tier rng in
  let '(trust, rng) :=
    if is_attacker
    then (let '(u, rng) := rnd_uniform 0.5 0.85 rng in (trust * u, rng))
    else (trust, rng) in
  let rev_prob :=
    if is_attacker then _REVOCATION_PROB_ATTACKER else _REVOCATION_PROB_HONEST in
  let '(u, rng) := rnd_random rng in
  let '(attrs, rng, clk) := _build_attributes vt rng clk is_attacker in
  let '(m, rng) :=
    if is_attacker then _build_attacker_bba rng else _build_honest_bba rng in
  let '(now, clk) := time_time clk in
  let '(age, rng) := rnd_randint 0 31536000 rng in
  let '(depth, rng) := _chain_depth tier rng in
  (records ++
     [{| vc_id := "vc-" +:+ fmt_04d agent_id +:+ "-" +:+ pretty i +:+ "-"
                  +:+ String.substring 0 3 vt;
         vc_type := vt;
         issuer_tier := tier;
         issuer_trust := py_round4 trust;
         subject_id := agent_id;
         revoked := Qltb u rev_prob;
         attributes := attrs;
         bba := m;
         issuance_ts := (now - age)%Z;
         chain_depth := depth |}],
   rng, clk).

(** [generate]: the records, and the clock after its readings.  The
    generator is created inside the call from the seed
    [agent_id + seed_offset * 100003] and dropped at the end. *)
Definition generate (self : VCGen) (agent_id : Z) (n_credentials : nat)
    (is_attacker : bool) (clk : Clock) : list VCRecord * Clock :=
  let rng := random_Random (agent_id + _seed_offset self * 100003)%Z in
  let '(idx, rng) := rnd_choices (length _VC_TYPES) None n_credentials rng in
  let vc_types := pick ""%string _VC_TYPES <$> idx in
  let '(records, _, clk) :=
    fold_left (generate_record agent_id is_attacker)
      (imap (λ i vt, (i, vt)) vc_types) ([], rng, clk) in
  (records, clk).

End Generator.

End VcGen.

(** ** model.py *)

(** [random.shuffle] as [RandomActivation] uses it on the agent keys: the
    activation order of one tick. *)
Class MesaRandom (R : Type) := {
  rnd_shuffle : list Z → R → list Z * R
}.

(** An activation order that leaves the keys as they are: an instance for
    evaluating the code on concrete inputs. *)
Definition shuffle_identity {R} : MesaRandom R :=
  {| rnd_shuffle := λ l rng, (l, rng) |}.

Module Model.
Import IrvPe.

Record ChronosAgent := {
  unique_id : Z;
  irv : list Q;
  reputation : Q;
  volatility : Q;
  evidence : list Q;
  isolated : bool;
  is_attacker : bool
}.

(** [ChronosAgent(unique_id, model)]. *)
Definition ChronosAgent_new (uid : Z) : ChronosAgent :=
  {| unique_id := uid; irv := np_zeros5; reputation := 0.5; volatility := 0.0;
     evidence := []; isolated := false; is_attacker := false |}.

(** What the scenarios of [scenarios.py] do in [inject]: they read the
    step, the agents and the attacker ids, call [ite.force_interaction] on
    triples [(u, v, outcome)], and assign [is_attacker]. *)
Record Scenario := {
  inject : Z → gmap Z ChronosAgent → gset Z
           → list (Z * Z * Z) * (ChronosAgent → bool)
}.

Record ChronosRepModel {R G : Type} := {
  N : Z;
  TAU : Q;
  agents : gmap Z ChronosAgent;
  random : R;
  scenario : option Scenario;
  current_step : Z;
  _newly_isolated : gset Z;
  _isolation_step : gmap Z Z;
  _attacker_ids : gset Z;
  vcgen : VcGen.VCGen;
  irv_pe : IRV_PE;
  bsm : Bsm.BSM;
  vadm : Vadm.VADM G;
  ite : Ite.ITE R;
  clock : Clock;
  model_vars : list (Q * Q * Q)
}.
Arguments ChronosRepModel R G : clear implicits.

Section Methods.
Context `{PyMath} `{PyRandom R} `{NpGenerator G} `{Hashlib} `{Louvain}
        `{MesaRandom R}.

Abbreviation model := (ChronosRepModel R G).

(** [[a.unique_id for a in self.model.schedule.agents if not a.isolated]] *)
Definition active_ids (agents : gmap Z ChronosAgent) : list Z :=
  unique_id <$> filter (λ a, isolated a = false) (map_to_list agents).*2.

(** The list comprehension over [interactions] that fills [self.evidence]. *)
Definition penalized_all (ite : Ite.ITE R) (uid : Z) (interactions : list (Z * Z))
    : list Q * Ite.ITE R :=
  fold_left
    (λ '(ev, ite) '(target, outcome),
       let '(e, ite) := Ite.penalized_evidence ite uid target outcome in
       (ev ++ [e], ite))
    interactions ([], ite).

(** [ChronosAgent.step] of the agent stored under [key]. *)
Definition agent_step (m : model) (key : Z) : PyResult model :=
  match agents m !! key with
  | None => Ok m
  | Some a =>
      if isolated a then Ok m
      else
        let all_ids := active_ids (agents m) in
        let '(credentials, clk) :=
          VcGen.generate (vcgen m) (unique_id a) 5 (is_attacker a) (clock m) in
        py_bind (process (irv_pe m) (unique_id a) credentials)
          (λ irv',
             let '(interactions, ite1) :=
               Ite.generate_interactions (ite m) (unique_id a) all_ids in
             let outcomes := interactions.*2 in
             let '(evidence', ite2) :=
               penalized_all ite1 (unique_id a) interactions in
             let '(bsm_result, bsm') :=
               Bsm.monitor (bsm m) (unique_id a) outcomes in
             let anomaly := Bsm.d_anomaly_score bsm_result in
             let r_static :=
               match evidence' with
               | [] => Vadm.irv0 irv'
               | _ => np_mean evidence'
               end in
             let r_static := r_static * (1.0 - 0.5 * anomaly) in
             let '((rep, vol), vadm') :=
               Vadm.step (vadm m) (unique_id a) irv' r_static in
             let iso := Qltb rep (TAU m) in
             let a' :=
               {| unique_id := unique_id a; irv := irv'; reputation := rep;
                  volatility := vol; evidence := evidence';
                  isolated := if iso then true else isolated a;
                  is_attacker := is_attacker a |} in
             Ok {| N := N m; TAU := TAU m;
                   agents := <[ key := a' ]> (agents m);
                   random := random m; scenario := scenario m;
                   current_step := current_step m;
                   _newly_isolated :=
                     if iso then {[ unique_id a ]} ∪ _newly_isolated m
                     else _newly_isolated m;
                   _isolation_step := _isolation_step m;
                   _attacker_ids := _attacker_ids m;
                   vcgen := vcgen m; irv_pe := irv_pe m; bsm := bsm';
                   vadm := vadm'; ite := ite2; clock := clk;
                   model_vars := model_vars m |})
  end.

(** [self.schedule.step()] of [RandomActivation]: every key once, in a
    shuffled order. *)
Definition schedule_step (m : model) : PyResult model :=
  let '(order, rng) := rnd_shuffle (map_to_list (agents m)).*1 (random m) in
  let m :=
    {| N := N m; TAU := TAU m; agents := agents m; random := rng;
       scenario := scenario m; current_step := current_step m;
       _newly_isolated := _newly_isolated m;
       _isolation_step := _isolation_step m;
       _attacker_ids := _attacker_ids m; vcgen := vcgen m;
       irv_pe := irv_pe m; bsm := bsm m; vadm := vadm m; ite := ite m;
       clock := clock m; model_vars := model_vars m |} in
  fold_left (λ r key, py_bind r (λ m, agent_step m key)) order (Ok m).

(** [self.scenario.inject(self)]. *)
Definition apply_scenario (m : model) : model :=
  match scenario m with
  | None => m
  | Some sc =>
      let '(forced, flag) :=
        inject sc (current_step m) (agents m) (_attacker_ids m) in
      {| N := N m; TAU := TAU m;
         agents :=
           (λ a, {| unique_id := unique_id a; irv := irv a;
                    reputation := reputation a; volatility := volatility a;
                    evidence := evidence a; isolated := isolated a;
                    is_attacker := flag a |}) <$> agents m;
         random := random m; scenario := scenario m;
         current_step := current_step m;
         _newly_isolated := _newly_isolated m;
         _isolation_step := _isolation_step m;
         _attacker_ids := _attacker_ids m; vcgen := vcgen m;
         irv_pe := irv_pe m; bsm := bsm m; vadm := vadm m;
         ite := fold_left (λ ite '(u, v, o), Ite.force_interaction ite u v o)
                  forced (ite m);
         clock := clock m; model_vars := model_vars m |}
  end.

(** The three model reporters of the data collector, for [N] other than 0
    (with [N = 0] the division of the isolation rate raises
    [ZeroDivisionError]). *)
Definition collect (m : model) : Q * Q * Q :=
  let all := (map_to_list (agents m)).*2 in
  let active := filter (λ a, isolated a = false) all in
  let avg :=
    match active with [] => 0.0 | _ => np_mean (reputation <$> active) end in
  let rate :=
    inject_Z (Z.of_nat (length (filter (λ a, isolated a = true) all)))
    / inject_Z (N m) in
  let att := filter (λ a, unique_id a ∈ _attacker_ids m) active in
  let att_avg :=
    match att with [] => 0.0 | _ => np_mean (reputation <$> att) end in
  (avg, rate, att_avg).

(** [ChronosRepModel.step]. *)
Definition step (m : model) : PyResult model :=
  let m :=
    {| N := N m; TAU := TAU m; agents := agents m; random := random m;
       scenario := scenario m; current_step := (current_step m + 1)%Z;
       _newly_isolated := ∅; _isolation_step := _isolation_step m;
       _attacker_ids := _attacker_ids m; vcgen := vcgen m;
       irv_pe := irv_pe m; bsm := bsm m; vadm := vadm m; ite := ite m;
       clock := clock m; model_vars := model_vars m |} in
  let m := apply_scenario m in
  py_bind (schedule_step m)
    (λ m,
       py_bind (Ite.tick (ite m))
         (λ ite',
            let iso_step :=
              fold_left
                (λ (acc : gmap Z Z) uid,
                   match acc !! uid with
                   | Some _ => acc
                   | None => <[ uid := current_step m ]> acc
                   end)
                (elements (_newly_isolated m)) (_isolation_step m) in
            let m :=
              {| N := N m; TAU := TAU m; agents := agents m;
                 random := random m; scenario := scenario m;
                 current_step := current_step m;
                 _newly_isolated := _newly_isolated m;
                 _isolation_step := iso_step;
                 _attacker_ids := _attacker_ids m; vcgen := vcgen m;
                 irv_pe := irv_pe m; bsm := bsm m; vadm := vadm m;
                 ite := ite'; clock := clock m;
                 model_vars := model_vars m |} in
            Ok {| N := N m; TAU := TAU m; agents := agents m;
                  random := random m; scenario := scenario m;
                  current_step := current_step m;
                  _newly_isolated := _newly_isolated m;
                  _isolation_step := _isolation_step m;
                  _attacker_ids := _attacker_ids m; vcgen := vcgen m;
                  irv_pe := irv_pe m; bsm := bsm m; vadm := vadm m;
                  ite := ite m; clock := clock m;
                  model_vars := model_vars m ++ [collect m] |})).

(** [n] calls of [step]. *)
Fixpoint steps (n : nat) (m : model) : PyResult model :=
  match n with
  | O => Ok m
  | S n => py_bind (step m) (steps n)
  end.

End Methods.

End Model.
(** * Properties *)

(** ** Sums of floats *)

Lemma fold_left_Qplus (l : list Q) (a : Q) : fold_left Qplus l a == a + sumQ l.
Proof.
  unfold sumQ. revert a.
  induction l as [|x l IH]; intros a; simpl.
  - lra.
  - rewrite (IH (a + x)), (IH (0 + x)). lra.
Qed.

Lemma sumQ_cons (x : Q) (l : list Q) : sumQ (x :: l) == x + sumQ l.
Proof. unfold sumQ at 1. simpl. rewrite fold_left_Qplus. lra. Qed.

Lemma sumQ_app (l1 l2 : list Q) : sumQ (l1 ++ l2) == sumQ l1 + sumQ l2.
Proof.
  induction l1 as [|x l1 IH]; simpl.
  - unfold sumQ at 2. simpl. lra.
  - rewrite !sumQ_cons, IH. lra.
Qed.

Lemma sumQ_perm (l1 l2 : list Q) : l1 ≡ₚ l2 → sumQ l1 == sumQ l2.
Proof.
  induction 1 as [|x l1 l2 _ IH|x y l|l1 l2 l3 _ IH1 _ IH2].
  - reflexivity.
  - rewrite !sumQ_cons, IH. reflexivity.
  - rewrite !sumQ_cons. lra.
  - rewrite IH1. exact IH2.
Qed.

Lemma sumQ_nonneg (l : list Q) : Forall (λ x, 0 <= x) l → 0 <= sumQ l.
Proof.
  induction 1 as [|x l Hx _ IH].
  - unfold sumQ. simpl. lra.
  - rewrite sumQ_cons. lra.
Qed.

Lemma sumQ_map_ext {A} (f g : A → Q) (l : list A) :
  (∀ x, x ∈ l → f x == g x) → sumQ (map f l) == sumQ (map g l).
Proof.
  induction l as [|x l IH]; intros Hfg; simpl.
  - reflexivity.
  - rewrite !sumQ_cons, IH, (Hfg x).
    + reflexivity.
    + left.
    + intros y Hy. apply Hfg. by right.
Qed.

Lemma Qgtb_true (x y : Q) : Qgtb x y = true ↔ y < x.
Proof.
  unfold Qgtb, Qltb. rewrite negb_true_iff.
  destruct (Qle_bool x y) eqn:E.
  - apply Qle_bool_iff in E. split; [done | lra].
  - split; [|done]. intros _. apply Qnot_le_lt. intros Hle.
    apply Qle_bool_iff in Hle. congruence.
Qed.

Lemma Qgtb_false (x y : Q) : Qgtb x y = false ↔ x <= y.
Proof.
  destruct (Qgtb x y) eqn:E.
  - apply Qgtb_true in E. split; [done | lra].
  - split; [|done]. intros _. apply Qnot_lt_le. intros Hlt.
    apply Qgtb_true in Hlt. congruence.
Qed.

Lemma Qgeb_true (x y : Q) : Qgeb x y = true ↔ y <= x.
Proof. unfold Qgeb. apply Qle_bool_iff. Qed.

Lemma np_clip_bounds (x lo hi : Q) :
  lo <= hi → lo <= np_clip x lo hi ∧ np_clip x lo hi <= hi.
Proof.
  intros Hle. unfold np_clip.
  destruct (Q.max_spec x lo) as [[? Hmax]|[? Hmax]];
    destruct (Q.min_spec (Qmax x lo) hi) as [[? Hmin]|[? Hmin]];
    rewrite Hmin; rewrite ?Hmax in *; split; lra.
Qed.

(** ** Evidence fusion *)

Module IrvPeFacts.
Import IrvPe.

Definition all_hyps : list hyp := _EMPTY :: _SUBSETS.

Lemma all_hyps_complete (A : hyp) : A ∈ all_hyps.
Proof. destruct A as [[] [] []]; apply (bool_decide_unpack _); by vm_compute. Qed.

Lemma NoDup_all_hyps : NoDup all_hyps.
Proof. apply (bool_decide_unpack _). by vm_compute. Qed.

Lemma NoDup_SUBSETS : NoDup _SUBSETS.
Proof. apply (bool_decide_unpack _). by vm_compute. Qed.

Lemma EMPTY_notin_SUBSETS : _EMPTY ∉ _SUBSETS.
Proof. apply (bool_decide_unpack _). by vm_compute. Qed.

Lemma bba_sum_empty : bba_sum ∅ == 0.
Proof. unfold bba_sum. rewrite map_to_list_empty. reflexivity. Qed.

Lemma bba_sum_insert (m : BBA) (A : hyp) (x : Q) :
  m !! A = None → bba_sum (<[A := x]> m) == x + bba_sum m.
Proof.
  intros Hnone. unfold bba_sum.
  rewrite (sumQ_perm _ (x :: (map_to_list m).*2)).
  - apply sumQ_cons.
  - rewrite (map_to_list_insert m A x Hnone). reflexivity.
Qed.

Lemma sum_get_insert (ks : list hyp) (m : BBA) (A : hyp) (x : Q) :
  NoDup ks → m !! A = None →
  sumQ (map (bba_get (<[A := x]> m)) ks)
  == (if decide (A ∈ ks) then x else 0) + sumQ (map (bba_get m) ks).
Proof.
  intros Hnd Hnone.
  induction Hnd as [|k ks Hk Hnd IH].
  - case_decide; [set_solver|]. unfold sumQ. simpl. lra.
  - cbn [map]. rewrite !sumQ_cons, IH. unfold bba_get at 1.
    destruct (decide (A = k)) as [->|Hne].
    + rewrite lookup_insert_eq. simpl.
      unfold bba_get at 2. rewrite Hnone. simpl.
      destruct (decide (k ∈ ks)) as [Hin|_]; [done|].
      destruct (decide (k ∈ k :: ks)) as [_|Hnin]; [lra|].
      destruct Hnin. left.
    + rewrite lookup_insert_ne by done.
      fold (bba_get m k).
      destruct (decide (A ∈ ks)) as [Hin|Hnin],
               (decide (A ∈ k :: ks)) as [Hin'|Hnin']; try lra.
      * destruct Hnin'. by right.
      * apply elem_of_cons in Hin' as [?|?]; done.
Qed.

Lemma bba_sum_all_hyps (m : BBA) :
  bba_sum m == sumQ (map (bba_get m) all_hyps).
Proof.
  induction m as [|A x m Hnone IH] using map_ind.
  - rewrite bba_sum_empty. vm_compute. reflexivity.
  - rewrite bba_sum_insert by done.
    rewrite (sum_get_insert _ _ _ _ NoDup_all_hyps Hnone).
    case_decide as Hin; [|by destruct Hin; apply all_hyps_complete].
    rewrite IH. reflexivity.
Qed.


(** The double loops of [_conflict_coeff] and [_chronosrep_combine] split
    the 49 products [m1(A) * m2(B)] by the intersection [A & B]. *)
Lemma conflict_plus_combined (m1 m2 : BBA) :
  conflict_mass m1 m2 + sumQ (map (combined_mass m1 m2) _SUBSETS)
  == sumQ (map (bba_get m1) _SUBSETS) * sumQ (map (bba_get m2) _SUBSETS).
Proof.
  cbv -[Qplus Qmult Qeq bba_get].
  repeat match goal with
         | |- context [bba_get ?m ?A] => generalize (bba_get m A); intro
         end.
  ring.
Qed.


(** What the loop that fills [fused] leaves under each key. *)
Lemma fused_lookup (mass : hyp → Q) (norm : Q) (ks : list hyp) (acc : BBA) (C : hyp) :
  fold_left
    (λ (fused : BBA) A,
       if Qgtb (mass A) 0 then <[ A := mass A / norm ]> fused else fused)
    ks acc !! C
  = if decide (C ∈ ks)
    then (if Qgtb (mass C) 0 then Some (mass C / norm) else acc !! C)
    else acc !! C.
Proof.
  revert acc. induction ks as [|k ks IH]; intros acc; cbn [fold_left].
  - case_decide as Hin; [by apply elem_of_nil in Hin | done].
  - rewrite IH.
    destruct (decide (C = k)) as [->|Hne].
    + destruct (decide (k ∈ k :: ks)) as [_|Hnin]; [|destruct Hnin; left].
      destruct (Qgtb (mass k) 0) eqn:E.
      * rewrite lookup_insert_eq. by destruct (decide (k ∈ ks)).
      * by destruct (decide (k ∈ ks)).
    + assert (Hacc :
        (if Qgtb (mass k) 0 then <[k := mass k / norm]> acc else acc) !! C
        = acc !! C).
      { destruct (Qgtb (mass k) 0); [by rewrite lookup_insert_ne | done]. }
      rewrite Hacc.
      destruct (decide (C ∈ ks)) as [Hin|Hnin],
               (decide (C ∈ k :: ks)) as [Hin'|Hnin']; try done.
      * destruct Hnin'. by right.
      * apply elem_of_cons in Hin' as [?|?]; done.
Qed.

Lemma bba_get_nonneg (m : BBA) (A : hyp) :
  (∀ B x, m !! B = Some x → 0 <= x) → 0 <= bba_get m A.
Proof.
  intros Hm. unfold bba_get.
  destruct (m !! A) as [x|] eqn:E; simpl; [by eapply Hm | lra].
Qed.

Lemma combined_mass_nonneg (m1 m2 : BBA) (C : hyp) :
  (∀ B x, m1 !! B = Some x → 0 <= x) →
  (∀ B x, m2 !! B = Some x → 0 <= x) →
  0 <= combined_mass m1 m2 C.
Proof.
  intros H1 H2. apply sumQ_nonneg. apply Forall_forall. intros x Hx.
  apply list_elem_of_In, in_flat_map in Hx as (A & _ & Hx).
  apply in_flat_map in Hx as (B & _ & Hx).
  destruct (decide (hyp_inter A B = C)); [|by destruct Hx].
  destruct Hx as [<-|[]].
  apply Qmult_le_0_compat; by apply bba_get_nonneg.
Qed.

Lemma conflict_mass_nonneg (m1 m2 : BBA) :
  (∀ B x, m1 !! B = Some x → 0 <= x) →
  (∀ B x, m2 !! B = Some x → 0 <= x) →
  0 <= conflict_mass m1 m2.
Proof.
  intros H1 H2. unfold conflict_mass.
  cbv -[Qplus Qmult Qle bba_get].
  repeat match goal with
         | |- context [bba_get ?m ?A] =>
             let H := fresh in
             pose proof (bba_get_nonneg m A ltac:(assumption)) as H;
             revert H; generalize (bba_get m A); intros ? ?
         end.
  nra.
Qed.

(** A mass assignment as the data model has it: nothing on the empty set,
    non-negative masses, total mass one. *)
Definition bba_valid (m : BBA) : Prop :=
  m !! _EMPTY = None ∧ (∀ A x, m !! A = Some x → 0 <= x) ∧ bba_sum m == 1.

Lemma bba_valid_sum_SUBSETS (m : BBA) :
  bba_valid m → sumQ (map (bba_get m) _SUBSETS) == 1.
Proof.
  intros (Hempty & _ & Hsum).
  rewrite bba_sum_all_hyps in Hsum.
  change all_hyps with (_EMPTY :: _SUBSETS) in Hsum.
  rewrite map_cons, sumQ_cons in Hsum.
  assert (Hz : bba_get m _EMPTY = 0) by (unfold bba_get; by rewrite Hempty).
  rewrite Hz in Hsum. lra.
Qed.


Lemma sumQ_map_div {A} (f : A → Q) (c : Q) (l : list A) :
  sumQ (map (λ x, f x / c) l) == sumQ (map f l) / c.
Proof.
  induction l as [|x l IH]; cbn [map].
  - unfold sumQ, Qdiv. simpl. ring.
  - rewrite !sumQ_cons, IH. unfold Qdiv. ring.
Qed.

Lemma bba_sum_singleton (A : hyp) (x : Q) : bba_sum {[ A := x ]} == x.
Proof.
  unfold bba_sum. rewrite map_to_list_singleton. unfold sumQ. simpl. lra.
Qed.

Lemma combine_total_conflict (m1 m2 : BBA) :
  1 <= _conflict_coeff m1 m2 → _chronosrep_combine m1 m2 = {[ _FRAME := 1 ]}.
Proof.
  intros HK. unfold _chronosrep_combine.
  apply Qgeb_true in HK. by rewrite HK.
Qed.

Lemma combine_lookup (m1 m2 : BBA) (C : hyp) :
  _conflict_coeff m1 m2 < 1 →
  _chronosrep_combine m1 m2 !! C
  = if decide (C ∈ _SUBSETS)
    then (if Qgtb (combined_mass m1 m2 C) 0
          then Some (combined_mass m1 m2 C / (1 - _conflict_coeff m1 m2))
          else None)
    else None.
Proof.
  intros HK. unfold _chronosrep_combine.
  destruct (Qgeb (_conflict_coeff m1 m2) 1) eqn:E.
  { apply Qgeb_true in E. lra. }
  cbv zeta.
  rewrite (fused_lookup (combined_mass m1 m2)).
  by rewrite lookup_empty.
Qed.

Lemma combine_get (m1 m2 : BBA) (A : hyp) :
  (∀ B x, m1 !! B = Some x → 0 <= x) →
  (∀ B x, m2 !! B = Some x → 0 <= x) →
  _conflict_coeff m1 m2 < 1 →
  A ∈ _SUBSETS →
  bba_get (_chronosrep_combine m1 m2) A
  == combined_mass m1 m2 A / (1 - _conflict_coeff m1 m2).
Proof.
  intros Hpos1 Hpos2 HK HA.
  unfold bba_get. rewrite combine_lookup by done.
  rewrite decide_True by done.
  pose proof (combined_mass_nonneg m1 m2 A Hpos1 Hpos2) as Hge.
  revert Hge. generalize (combined_mass m1 m2 A) (1 - _conflict_coeff m1 m2).
  intros mass norm Hge.
  destruct (Qgtb mass 0) eqn:E; cbn [default]; [reflexivity|].
  apply Qgtb_false in E.
  assert (Hm0 : mass == 0) by lra.
  rewrite Hm0. unfold Qdiv. symmetry. apply Qmult_0_l.
Qed.

Lemma Qmin_below_1 (x : Q) : Qmin x 1 < 1 → Qmin x 1 == x.
Proof.
  intros Hlt.
  destruct (Q.min_spec x 1) as [[_ Hm]|[_ Hm]]; [exact Hm|].
  rewrite Hm in Hlt. lra.
Qed.

Lemma conflict_coeff_below_1 (m1 m2 : BBA) :
  _conflict_coeff m1 m2 < 1 → _conflict_coeff m1 m2 == conflict_mass m1 m2.
Proof. unfold _conflict_coeff. apply Qmin_below_1. Qed.

Lemma normalised_total (s norm : Q) : s == norm → 0 < norm → 0 + s / norm == 1.
Proof. intros -> Hpos. field. lra. Qed.

Lemma combine_sum (m1 m2 : BBA) :
  bba_valid m1 → bba_valid m2 → bba_sum (_chronosrep_combine m1 m2) == 1.
Proof.
  intros Hv1 Hv2.
  destruct (Qlt_le_dec (_conflict_coeff m1 m2) 1) as [HK|HK].
  2:{ rewrite combine_total_conflict by done. apply bba_sum_singleton. }
  pose proof (conflict_plus_combined m1 m2) as Htot.
  rewrite (bba_valid_sum_SUBSETS m1 Hv1), (bba_valid_sum_SUBSETS m2 Hv2) in Htot.
  destruct Hv1 as (_ & Hpos1 & _), Hv2 as (_ & Hpos2 & _).
  pose proof (conflict_coeff_below_1 m1 m2 HK) as HKeq.
  rewrite bba_sum_all_hyps.
  change all_hyps with (_EMPTY :: _SUBSETS).
  rewrite map_cons, sumQ_cons.
  assert (Hz : bba_get (_chronosrep_combine m1 m2) _EMPTY = 0).
  { unfold bba_get. rewrite combine_lookup by done.
    case_decide as Hin; [|done]. by apply EMPTY_notin_SUBSETS in Hin. }
  rewrite Hz.
  rewrite (sumQ_map_ext _
             (λ A, combined_mass m1 m2 A / (1 - _conflict_coeff m1 m2)))
    by (intros A HA; by apply combine_get).
  rewrite sumQ_map_div.
  revert HK HKeq Htot.
  generalize (_conflict_coeff m1 m2) (conflict_mass m1 m2)
    (sumQ (map (combined_mass m1 m2) _SUBSETS)).
  intros K cm tot HK HKeq Htot.
  apply normalised_total; lra.
Qed.

Lemma combine_positive (m1 m2 : BBA) (A : hyp) (x : Q) :
  _chronosrep_combine m1 m2 !! A = Some x → 0 < x.
Proof.
  destruct (Qlt_le_dec (_conflict_coeff m1 m2) 1) as [HK|HK].
  - rewrite combine_lookup by done.
    case_decide; [|done].
    destruct (Qgtb (combined_mass m1 m2 A) 0) eqn:E; [|done].
    intros [= <-]. apply Qgtb_true in E.
    apply Qlt_shift_div_l; lra.
  - rewrite combine_total_conflict by done.
    intros [_ <-]%lookup_singleton_Some. lra.
Qed.

Lemma combine_no_empty (m1 m2 : BBA) :
  _chronosrep_combine m1 m2 !! _EMPTY = None.
Proof.
  destruct (Qlt_le_dec (_conflict_coeff m1 m2) 1) as [HK|HK].
  - rewrite combine_lookup by done.
    case_decide as Hin; [|done]. by apply EMPTY_notin_SUBSETS in Hin.
  - rewrite combine_total_conflict by done. by apply lookup_singleton_ne.
Qed.


(** The BBA of the fusion worked example:
    [{ {trusted}: 0.6, {unknown}: 0.1, frame: 0.3 }]. *)
Definition m_example : BBA :=
  <[ _S_TR := 0.6 ]> (<[ _S_UK := 0.1 ]> {[ _FRAME := 0.3 ]}).

Lemma m_example_valid : bba_valid m_example.
Proof.
  split; [by vm_compute|]. split; [|by vm_compute].
  intros [[] [] []] x; vm_compute; intros [= <-]; discriminate.
Defined.

(** *** The fusion rule in the words of the specification

    "K = sum over all hypothesis pairs (A, B) with empty intersection of
    m1(A) * m2(B), capped at 1.0; for every hypothesis C, fused(C) = [sum
    over pairs (A, B) with A intersect B = C of m1(A) * m2(B)] / (1 - K)".
    The hypotheses are all subsets of the frame, and the intersection is
    read off the members; none of the code's loops, of [_SUBSETS] or of
    [hyp_inter] enters these definitions. *)
Definition spec_hypotheses : list hyp :=
  a ← [false; true]; b ← [false; true]; c ← [false; true]; [Hyp a b c].

Definition spec_meets_in (A B C : hyp) : bool :=
  forallb (λ e, Bool.eqb (hyp_mem e C) (hyp_mem e A && hyp_mem e B))
    [trusted; untrusted; unknown].

Definition spec_pair_sum (m1 m2 : BBA) (C : hyp) : Q :=
  sumQ ('(A, B) ← list_prod spec_hypotheses spec_hypotheses;
        if spec_meets_in A B C then [bba_get m1 A * bba_get m2 B] else []).

Definition spec_conflict (m1 m2 : BBA) : Q :=
  Qmin (spec_pair_sum m1 m2 _EMPTY) 1.

Lemma spec_pair_sum_conflict (m1 m2 : BBA) :
  m1 !! _EMPTY = None → m2 !! _EMPTY = None →
  spec_pair_sum m1 m2 _EMPTY == conflict_mass m1 m2.
Proof.
  intros H1 H2.
  assert (E1 : bba_get m1 (Hyp false false false) = 0)
    by (unfold bba_get; change (Hyp false false false) with _EMPTY;
        by rewrite H1).
  assert (E2 : bba_get m2 (Hyp false false false) = 0)
    by (unfold bba_get; change (Hyp false false false) with _EMPTY;
        by rewrite H2).
  cbv -[Qplus Qmult Qeq bba_get].
  rewrite !E1, !E2.
  repeat match goal with
         | |- context [bba_get ?m ?A] => generalize (bba_get m A); intro
         end.
  ring.
Qed.

Lemma spec_pair_sum_combined (m1 m2 : BBA) (C : hyp) :
  m1 !! _EMPTY = None → m2 !! _EMPTY = None → C ≠ _EMPTY →
  spec_pair_sum m1 m2 C == combined_mass m1 m2 C.
Proof.
  intros H1 H2 HC.
  assert (E1 : bba_get m1 (Hyp false false false) = 0)
    by (unfold bba_get; change (Hyp false false false) with _EMPTY;
        by rewrite H1).
  assert (E2 : bba_get m2 (Hyp false false false) = 0)
    by (unfold bba_get; change (Hyp false false false) with _EMPTY;
        by rewrite H2).
  destruct C as [[] [] []]; try done; clear HC;
    cbv -[Qplus Qmult Qeq bba_get];
    rewrite ?E1, ?E2;
    repeat match goal with
           | |- context [bba_get ?m ?A] => generalize (bba_get m A); intro
           end;
    ring.
Qed.

Lemma spec_conflict_code (m1 m2 : BBA) :
  m1 !! _EMPTY = None → m2 !! _EMPTY = None →
  _conflict_coeff m1 m2 == spec_conflict m1 m2.
Proof.
  intros H1 H2. unfold _conflict_coeff, spec_conflict.
  pose proof (spec_pair_sum_conflict m1 m2 H1 H2) as Hc. revert Hc.
  generalize (spec_pair_sum m1 m2 _EMPTY) (conflict_mass m1 m2).
  intros s c Hc.
  destruct (Q.min_spec c 1) as [[? ->]|[? ->]],
           (Q.min_spec s 1) as [[? ->]|[? ->]]; lra.
Qed.

Lemma in_SUBSETS (C : hyp) : C ∈ _SUBSETS ↔ C ≠ _EMPTY.
Proof.
  split.
  - intros Hin ->. by apply EMPTY_notin_SUBSETS.
  - intros Hne. pose proof (all_hyps_complete C) as Hin.
    apply elem_of_cons in Hin as [->|Hin]; done.
Qed.

Lemma quotient_agrees (a b c d : Q) : a == b → c == d → a / (1 - c) == b / (1 - d).
Proof. intros -> ->. reflexivity. Qed.



(** C5: the worked example.  Fusing [m_example] with itself gives conflict
    [K = 0.12] and the masses 9/11 = 0.81818..., 7/88 = 0.07954... and
    9/88 = 0.10227... on {trusted}, {unknown} and the frame, nothing
    elsewhere, with total 1. *)
Theorem fusion_worked_example :
  let fused := _chronosrep_combine m_example m_example in
  conflict_mass m_example m_example == 0.12
  ∧ _conflict_coeff m_example m_example == 0.12
  ∧ dom fused = {[ _S_TR; _S_UK; _FRAME ]}
  ∧ bba_get fused _S_TR == 9 # 11
  ∧ bba_get fused _S_UK == 7 # 88
  ∧ bba_get fused _FRAME == 9 # 88
  ∧ (0.81818 < bba_get fused _S_TR ∧ bba_get fused _S_TR < 0.81819)
  ∧ (0.07954 < bba_get fused _S_UK ∧ bba_get fused _S_UK < 0.07956)
  ∧ (0.10227 < bba_get fused _FRAME ∧ bba_get fused _FRAME < 0.10228)
  ∧ bba_sum fused == 1.
Proof.
  cbv zeta. repeat split; by vm_compute.
Qed.

(** *** Discounting *)

Lemma downweight_insert (m : BBA) (A : hyp) (x w : Q) :
  _downweight_bba (<[A := x]> m) w
  = <[A := x * w + (if decide (A = _FRAME) then 1 - w else 0)]>
      (_downweight_bba m w).
Proof. unfold _downweight_bba. cbv zeta. by rewrite map_imap_insert. Qed.

Lemma downweight_lookup (m : BBA) (A : hyp) (w : Q) :
  _downweight_bba m w !! A
  = (λ x, x * w + (if decide (A = _FRAME) then 1 - w else 0)) <$> m !! A.
Proof.
  unfold _downweight_bba. cbv zeta. rewrite map_lookup_imap.
  by destruct (m !! A).
Qed.

(** The total mass after discounting: the remainder [1 - w] arrives only
    when the frame is one of the keys of the input. *)
Lemma downweight_sum (m : BBA) (w : Q) :
  bba_sum (_downweight_bba m w)
  == w * bba_sum m + (if decide (is_Some (m !! _FRAME)) then 1 - w else 0).
Proof.
  induction m as [|A x m Hnone IH] using map_ind.
  - unfold _downweight_bba. cbv zeta. rewrite map_imap_empty.
    rewrite bba_sum_empty, lookup_empty.
    case_decide as Hs; [by destruct Hs|]. lra.
  - rewrite downweight_insert.
    rewrite !bba_sum_insert; [|done|by rewrite downweight_lookup, Hnone].
    rewrite IH.
    destruct (decide (A = _FRAME)) as [->|Hne].
    + rewrite lookup_insert_eq, Hnone.
      destruct (decide (is_Some (@None Q))) as [[? [=]]|_].
      destruct (decide (is_Some (Some x))) as [_|Hn]; [lra|].
      by destruct Hn.
    + rewrite lookup_insert_ne by done.
      destruct (decide (is_Some (m !! _FRAME))); lra.
Qed.

(** C3 (the code at the failing input): a valid BBA with all its mass on
    {trusted} and no key for the frame, discounted with [w = 0.5], keeps
    mass 0.5 on {trusted}, gains no entry for the frame, and sums to 0.5. *)
Theorem downweight_loses_remainder :
  let m : BBA := {[ _S_TR := 1 ]} in
  let r := _downweight_bba m 0.5 in
  bba_valid m
  ∧ m !! _FRAME = None
  ∧ r !! _S_TR = Some (1 * 0.5 + 0)
  ∧ r !! _FRAME = None
  ∧ bba_sum r == 0.5
  ∧ ¬ bba_sum r == 1.
Proof.
  cbv zeta. repeat split; try by vm_compute.
  intros [[] [] []] x; vm_compute; intros [= <-]; discriminate.
Qed.

(** *** The working set of [process] *)

Lemma working_set_nonempty (credentials : list VCRecord) :
  working_set credentials = [] ↔ credentials = [].
Proof.
  unfold working_set. split.
  - by destruct (filter _ credentials).
  - by intros ->.
Qed.

Lemma filter_all_revoked (credentials : list VCRecord) :
  forallb revoked credentials = true →
  filter (λ vc, revoked vc = false) credentials = [].
Proof.
  induction credentials as [|vc l IH]; [done|]. cbn [forallb].
  intros [Hvc Hl]%andb_true_iff.
  rewrite filter_cons_False by congruence. by apply IH.
Qed.

Lemma filter_some_active (credentials : list VCRecord) :
  forallb revoked credentials = false →
  filter (λ vc, revoked vc = false) credentials ≠ [].
Proof.
  induction credentials as [|vc l IH]; [done|]. cbn [forallb].
  destruct (revoked vc) eqn:E; simpl.
  - intros Hl. rewrite filter_cons_False by congruence. by apply IH.
  - intros _. by rewrite filter_cons_True.
Qed.

(** C9: [process] works on the non-revoked credentials and on nothing
    else: when at least one credential is not revoked the result is that
    of the rest of the body on the non-revoked ones alone, so that two
    inputs with the same non-revoked credentials give the same result,
    whatever revoked credentials they carry; when every supplied
    credential is revoked the result is that of the rest of the body on
    all of them; the working set is empty only for an empty input, and
    then the result is the zero vector of length five, returned and not
    raised. *)
Theorem process_working_set `{PyMath} (self : IRV_PE) (agent_id : Z)
    (credentials : list VCRecord) :
  let non_revoked := filter (λ vc, revoked vc = false) credentials in
  (non_revoked ≠ [] →
   process self agent_id credentials = process_active self non_revoked
   ∧ process self agent_id credentials = process self agent_id non_revoked
   ∧ ∀ others,
       filter (λ vc, revoked vc = false) others = non_revoked →
       process self agent_id others = process self agent_id credentials)
  ∧ (non_revoked = [] →
     process self agent_id credentials = process_active self credentials)
  ∧ working_set credentials
    = (if forallb revoked credentials then credentials else non_revoked)
  ∧ (forallb revoked credentials = false →
     Forall (λ vc, revoked vc = false) (working_set credentials))
  ∧ (working_set credentials = [] ↔ credentials = [])
  ∧ process self agent_id [] = Ok [0; 0; 0; 0; 0].
Proof.
  cbv zeta.
  assert (Hsel : ∀ cs : list VCRecord,
            filter (λ vc, revoked vc = false) cs ≠ [] →
            process self agent_id cs
            = process_active self (filter (λ vc, revoked vc = false) cs)).
  { intros cs Hne. unfold process, process_active, working_set. cbv zeta.
    by destruct (filter _ cs). }
  split; [|split; [|split; [|split;
    [|split; [apply working_set_nonempty | reflexivity]]]]].
  - intros Hne. split; [by apply Hsel|]. split.
    + assert (Hff : filter (λ vc, revoked vc = false)
                      (filter (λ vc, revoked vc = false) credentials)
                    = filter (λ vc, revoked vc = false) credentials)
        by by apply list_filter_filter_l.
      rewrite (Hsel credentials Hne), (Hsel (filter _ credentials)).
      * by rewrite Hff.
      * by rewrite Hff.
    + intros others Hsame.
      rewrite (Hsel credentials Hne), <- Hsame.
      apply Hsel. by rewrite Hsame.
  - intros Hnone. unfold process, process_active, working_set. cbv zeta.
    by rewrite Hnone.
  - unfold working_set.
    destruct (forallb revoked credentials) eqn:E.
    + by rewrite filter_all_revoked.
    + apply filter_some_active in E.
      by destruct (filter _ credentials).
  - intros E. unfold working_set.
    pose proof (filter_some_active _ E) as Hne.
    destruct (filter _ credentials) as [|vc l] eqn:Ef; [done|].
    rewrite <- Ef. apply Forall_forall.
    intros vc' Hin. by apply list_elem_of_filter in Hin as [? _].
Qed.


(** X1: the total mass after discounting, for every BBA and weight: the
    remainder [1 - w] is added exactly when the frame is one of the keys
    of the input, so mass is preserved for the BBAs the synthesiser builds
    (which all carry a frame entry) and drops to [w] times the input mass
    otherwise. *)
Theorem downweight_total_mass (m : BBA) (w : Q) :
  bba_sum (_downweight_bba m w)
  == w * bba_sum m + (if decide (is_Some (m !! _FRAME)) then 1 - w else 0).
Proof. apply downweight_sum. Qed.

(** X2: whenever [process] returns, its vector has five components, each
    in [0, 1]. *)
Theorem process_irv_bounds `{PyMath} (self : IRV_PE) (agent_id : Z)
    (credentials : list VCRecord) :
  match process self agent_id credentials with
  | Ok v => length v = 5%nat ∧ Forall (λ x, 0 <= x ∧ x <= 1) v
  | Raise _ => True
  end.
Proof.
  unfold process. cbv zeta.
  destruct (py_mapM _ _) as [bbas|]; [|done]. cbn [py_bind].
  destruct bbas as [|b0 rest].
  - split; [done|]. unfold np_zeros5. repeat constructor; lra.
  - split; [done|]. cbn [fmap list_fmap].
    repeat constructor; apply np_clip_bounds; lra.
Qed.


Lemma process_irv_bounds_aux `{PyMath} (self : IRV_PE) (agent_id : Z)
    (credentials : list VCRecord) :
  match process self agent_id credentials with
  | Ok v => length v = 5%nat
  | Raise _ => True
  end.
Proof.
  unfold process. cbv zeta.
  destruct (py_mapM _ _) as [bbas|]; [|done]. cbn [py_bind].
  by destruct bbas.
Qed.

End IrvPeFacts.

(** ** Evidence fusion in binary64 *)

Module Binary64Facts.
Import IrvPe PrimFloat.

(** Two valid mass assignments in near-total conflict:
    [{ {trusted}: 1 - 2**-27, {untrusted}: 2**-27 }] and its mirror image.
    Both sum to 1.0 exactly. *)
Definition m_near_conflict : IrvPeBinary64.BBA :=
  [(_S_TR, (1 - 0x1p-27)%float); (_S_UN, 0x1p-27%float)].

Definition m_near_conflict_mirror : IrvPeBinary64.BBA :=
  [(_S_TR, 0x1p-27%float); (_S_UN, (1 - 0x1p-27)%float)].


End Binary64Facts.

(** ** The behaviour monitor *)

Module BsmFacts.
Import Bsm.

(** [_cusum_update] as the source computes it, with the module constant
    [_CUSUM_H] as the control limit. *)
Lemma cusum_update_spec (z s_pos s_neg k : Q) :
  let pos := Qmax 0.0 (s_pos + z - k) in
  let neg := Qmax 0.0 (s_neg - z - k) in
  let alarm := Qgtb pos _CUSUM_H || Qgtb neg _CUSUM_H in
  _cusum_update z s_pos s_neg k
  = if alarm then (0.0, 0.0, true) else (pos, neg, false).
Proof.
  cbv zeta. unfold _cusum_update.
  by destruct (Qgtb _ _ || Qgtb _ _).
Qed.

(** One observed outcome, with the limit the code compares against
    (the module constant 4.0, whatever the monitor was constructed with):
    the accumulators become [max(0, pos + z - k)] and [max(0, neg - z - k)];
    when either exceeds 4.0 they are both reset to 0.0, the alarm counter
    grows by one and the step index [t] is appended to the alarm steps;
    otherwise counter and alarm steps stay.  [t] grows by one either way. *)
Theorem observe_rearms `{PyMath} (k : Q) (s : _StreamState) (alarms : list Z)
    (outcome : Z) :
  let w := deque_append _ZSCORE_WIN (window s) (inject_Z outcome) in
  let z := _zscore_normalize (inject_Z outcome) w in
  let pos := Qmax 0.0 (cusum_pos s + z - k) in
  let neg := Qmax 0.0 (cusum_neg s - z - k) in
  observe k (s, alarms) outcome
  = if Qgtb pos 4.0 || Qgtb neg 4.0
    then ({| window := w; cusum_pos := 0.0; cusum_neg := 0.0;
             alarm_count := (alarm_count s + 1)%Z;
             last_entropy := last_entropy s; t := (t s + 1)%Z |},
          alarms ++ [t s])
    else ({| window := w; cusum_pos := pos; cusum_neg := neg;
             alarm_count := alarm_count s;
             last_entropy := last_entropy s; t := (t s + 1)%Z |},
          alarms).
Proof.
  cbv zeta. unfold observe. rewrite cusum_update_spec.
  change _CUSUM_H with 4.0.
  by destruct (Qgtb _ 4.0 || Qgtb _ 4.0).
Qed.

(** The stream state of one actor never holds more alarms than steps. *)
Definition stream_inv (s : _StreamState) : Prop :=
  (0 <= alarm_count s <= t s)%Z.

Lemma observe_counts `{PyMath} (k : Q) (s : _StreamState) (alarms : list Z) (o : Z) :
  let r := observe k (s, alarms) o in
  t r.1 = (t s + 1)%Z
  ∧ ((alarm_count r.1 = alarm_count s ∧ r.2 = alarms)
     ∨ (alarm_count r.1 = (alarm_count s + 1)%Z ∧ r.2 = alarms ++ [t s]
        ∧ cusum_pos r.1 = 0.0 ∧ cusum_neg r.1 = 0.0)).
Proof.
  cbv zeta. unfold observe.
  rewrite cusum_update_spec.
  destruct (Qgtb _ _ || Qgtb _ _); cbn [fst snd t alarm_count cusum_pos cusum_neg];
    (split; [reflexivity|]).
  - right. repeat split.
  - left. repeat split.
Qed.

Lemma fold_observe_counts `{PyMath} (k : Q) (stream : list Z)
    (s : _StreamState) (alarms : list Z) :
  let r := fold_left (observe k) stream (s, alarms) in
  t r.1 = (t s + Z.of_nat (length stream))%Z
  ∧ (alarm_count s <= alarm_count r.1)%Z
  ∧ (alarm_count r.1 - alarm_count s
     = Z.of_nat (length r.2) - Z.of_nat (length alarms))%Z
  ∧ (alarm_count r.1 - alarm_count s <= Z.of_nat (length stream))%Z.
Proof.
  cbv zeta. revert s alarms.
  induction stream as [|o stream IH]; intros s alarms; cbn [fold_left length].
  - cbn. lia.
  - pose proof (observe_counts k s alarms o) as Hstep. cbv zeta in Hstep.
    destruct (observe k (s, alarms) o) as [s1 alarms1] eqn:E.
    cbn [fst snd] in Hstep.
    specialize (IH s1 alarms1).
    destruct IH as (IHt & IHle & IHlen & IHbound).
    destruct Hstep as (Ht & [(Hc & Ha)|(Hc & Ha & _)]); subst alarms1.
    + rewrite IHt, Ht. lia.
    + rewrite length_app in IHlen. cbn [length] in IHlen.
      rewrite IHt, Ht. lia.
Qed.

Lemma ratio_unit (a b : Z) :
  (0 <= a <= b)%Z → (0 < b)%Z →
  0 <= inject_Z a / inject_Z b ∧ inject_Z a / inject_Z b <= 1.
Proof.
  intros [Ha Hab] Hb.
  assert (Hb' : 0 < inject_Z b).
  { change 0 with (inject_Z 0). by rewrite <- Zlt_Qlt. }
  assert (Ha' : 0 <= inject_Z a).
  { change 0 with (inject_Z 0). by rewrite <- Zle_Qle. }
  assert (Hab' : inject_Z a <= inject_Z b) by by rewrite <- Zle_Qle.
  split.
  - apply Qle_shift_div_l; [done|]. lra.
  - apply Qle_shift_div_r; [done|]. lra.
Qed.

Definition bsm_inv (self : BSM) : Prop :=
  ∀ id s, _states self !! id = Some s → stream_inv s.

Lemma BSM_new_inv (h k : Q) : bsm_inv (BSM_new h k).
Proof. intros id s. cbn. by rewrite lookup_empty. Qed.

Lemma ensure_inv (self : BSM) (agent_id : Z) :
  bsm_inv self → stream_inv (_ensure self agent_id).
Proof.
  intros Hinv. unfold _ensure.
  destruct (_states self !! agent_id) as [s|] eqn:E; cbn.
  - by eapply Hinv.
  - unfold stream_inv. cbn. lia.
Qed.

(** What one call of [monitor] does to the counters of its actor. *)
Lemma monitor_counts `{PyMath} (self : BSM) (agent_id : Z) (stream : list Z) :
  let s0 := _ensure self agent_id in
  let r := monitor self agent_id stream in
  ∃ s1,
    _states r.2 = <[ agent_id := s1 ]> (_states self)
    ∧ _h r.2 = _h self ∧ _k r.2 = _k self
    ∧ t s1 = (t s0 + Z.of_nat (length stream))%Z
    ∧ (alarm_count s0 <= alarm_count s1)%Z
    ∧ (alarm_count s1 - alarm_count s0 = Z.of_nat (length (d_alarm_steps r.1)))%Z
    ∧ (alarm_count s1 - alarm_count s0 <= Z.of_nat (length stream))%Z
    ∧ d_t r.1 = t s1
    ∧ d_anomaly_score r.1
      = inject_Z (alarm_count s1) / inject_Z (Z.max (t s1) 1).
Proof.
  cbv zeta. unfold monitor.
  pose proof (fold_observe_counts (_k self) stream (_ensure self agent_id) [])
    as Hf.
  cbv zeta in Hf.
  destruct (fold_left _ stream _) as [s alarms].
  cbn [fst snd length] in *.
  destruct Hf as (Ht & Hle & Hlen & Hbound).
  eexists. split; [reflexivity|]. cbn.
  repeat split; try done. lia.
Qed.

Lemma monitor_inv `{PyMath} (self : BSM) (agent_id : Z) (stream : list Z) :
  bsm_inv self → bsm_inv (monitor self agent_id stream).2.
Proof.
  intros Hinv.
  pose proof (monitor_counts self agent_id stream) as Hm. cbv zeta in Hm.
  destruct Hm as (s1 & Hst & _ & _ & Ht & Hle & _ & Hbound & _).
  pose proof (ensure_inv self agent_id Hinv) as H0. unfold stream_inv in H0.
  intros id s. rewrite Hst.
  destruct (decide (id = agent_id)) as [->|Hne].
  - rewrite lookup_insert_eq. intros [= <-]. unfold stream_inv. lia.
  - rewrite lookup_insert_ne by done. apply Hinv.
Qed.

Lemma run_monitors_inv `{PyMath} (self : BSM) (calls : list (Z * list Z)) :
  bsm_inv self → bsm_inv (run_monitors self calls).
Proof.
  unfold run_monitors. revert self.
  induction calls as [|[id stream] calls IH]; intros self Hinv; cbn [fold_left].
  - done.
  - apply IH. by apply monitor_inv.
Qed.

Lemma anomaly_score_bounds (self : BSM) (agent_id : Z) :
  bsm_inv self →
  0 <= anomaly_score self agent_id ∧ anomaly_score self agent_id <= 1.
Proof.
  intros Hinv. unfold anomaly_score.
  destruct (_states self !! agent_id) as [s|] eqn:E; [|split; lra].
  apply Hinv in E. unfold stream_inv in E.
  destruct (t s =? 0)%Z eqn:Et; [split; lra|].
  apply Z.eqb_neq in Et. apply ratio_unit; lia.
Qed.

(** C10: after any sequence of [monitor] calls on a fresh monitor, one more
    call counts at most one alarm per observed outcome (the alarm counter
    grows by the number of recorded alarm steps, at most the length of the
    stream, while [t] grows by exactly that length), every actor has
    [0 <= alarm_count <= t], and both reported scores lie in [0, 1]. *)
Theorem anomaly_score_in_unit_interval `{PyMath} (h k : Q)
    (calls : list (Z * list Z)) (agent_id : Z) (stream : list Z) :
  let self := run_monitors (BSM_new h k) calls in
  let s0 := _ensure self agent_id in
  let r := monitor self agent_id stream in
  let s1 := _ensure r.2 agent_id in
  t s1 = (t s0 + Z.of_nat (length stream))%Z
  ∧ (alarm_count s1 - alarm_count s0 = Z.of_nat (length (d_alarm_steps r.1)))%Z
  ∧ (0 <= alarm_count s1 - alarm_count s0 <= Z.of_nat (length stream))%Z
  ∧ (∀ id s, _states r.2 !! id = Some s → (0 <= alarm_count s <= t s)%Z)
  ∧ d_anomaly_score r.1 = inject_Z (alarm_count s1) / inject_Z (Z.max (t s1) 1)
  ∧ (0 <= d_anomaly_score r.1 ∧ d_anomaly_score r.1 <= 1)
  ∧ (∀ id, 0 <= anomaly_score r.2 id ∧ anomaly_score r.2 id <= 1).
Proof.
  cbv zeta.
  set (self := run_monitors (BSM_new h k) calls).
  assert (Hinv : bsm_inv self) by apply run_monitors_inv, BSM_new_inv.
  pose proof (monitor_inv self agent_id stream Hinv) as Hinv'.
  pose proof (monitor_counts self agent_id stream) as Hm. cbv zeta in Hm.
  destruct Hm as (s1 & Hst & _ & _ & Ht & Hle & Hlen & Hbound & _ & Hscore).
  assert (Hs1 : _ensure (monitor self agent_id stream).2 agent_id = s1).
  { unfold _ensure. by rewrite Hst, lookup_insert_eq. }
  rewrite Hs1.
  pose proof (Hinv' agent_id s1) as H1.
  rewrite Hst, lookup_insert_eq in H1. specialize (H1 eq_refl).
  unfold stream_inv in H1.
  split; [done|]. split; [done|]. split; [lia|].
  split; [exact Hinv'|]. split; [done|].
  split; [|intros id; by apply anomaly_score_bounds].
  rewrite Hscore. apply ratio_unit; lia.
Qed.

(** [monitor] never reads [_h]. *)
Lemma monitor_h_irrelevant `{PyMath} (h h' k : Q) (agent_id : Z) (stream : list Z) :
  (monitor (BSM_new h k) agent_id stream).1
  = (monitor (BSM_new h' k) agent_id stream).1.
Proof.
  unfold monitor, _ensure. cbn [_states _k BSM_new].
  by destruct (fold_left _ stream _).
Qed.

(** C7 (the code at the failing input): the control limit given to the
    constructor never reaches the detector.  Whatever [cusum_h] is, the
    diagnostics are those of the limit 4.0; and a monitor built with
    [cusum_h = 1.0] that observes 0, 0, 0, 0, 1 ends with the positive
    accumulator at 1.5, above its own limit, with no alarm raised, no alarm
    step recorded and no reset. *)
Theorem monitor_ignores_cusum_h :
  (∀ (M : PyMath) (h k : Q) (agent_id : Z) (stream : list Z),
     (monitor (BSM_new h k) agent_id stream).1
     = (monitor (BSM_new _CUSUM_H k) agent_id stream).1)
  ∧ (let self := BSM_new 1.0 0.5 in
     let r := monitor (H := PyMath_exact) self 0 [0; 0; 0; 0; 1]%Z in
     _h self = 1.0
     ∧ d_cusum_pos r.1 == 1.5
     ∧ _h self < d_cusum_pos r.1
     ∧ d_alarm_steps r.1 = []
     ∧ d_anomaly_score r.1 == 0
     ∧ (alarm_count <$> _states r.2 !! 0%Z) = Some 0%Z).
Proof.
  split; [intros; apply monitor_h_irrelevant|].
  cbv zeta. repeat split; by vm_compute.
Qed.

(** With the limit the code does use, the re-arming behaviour: 25 zeros
    followed by a one push the positive accumulator to 4.5 > 4.0; the alarm
    is counted once, its step index 25 is recorded, and both accumulators
    are back at 0 after that same observation. *)
Lemma monitor_rearms_at_default_limit :
  let r := monitor (H := PyMath_exact) BSM_default 0 (replicate 25 0%Z ++ [1%Z]) in
  d_alarm_steps r.1 = [25%Z]
  ∧ d_cusum_pos r.1 = 0.0 ∧ d_cusum_neg r.1 = 0.0
  ∧ d_t r.1 = 26%Z
  ∧ (alarm_count <$> _states r.2 !! 0%Z) = Some 1%Z.
Proof. cbv zeta. repeat split; by vm_compute. Qed.

End BsmFacts.

(** ** The reputation dynamics *)

Module VadmFacts.
Import Vadm.

Section Jump.
Context `{PyMath} `{NpGenerator G}.

Lemma jump_term_no_jump (x mu jump_scale gamma : Q) (rng : G) :
  gamma <= _GAMMA_THRESHOLD →
  jump_term x mu jump_scale gamma rng = (0.0, rng).
Proof.
  intros Hle. unfold jump_term.
  apply Qgtb_false in Hle. by rewrite Hle.
Qed.

Lemma jump_term_jump (x mu jump_scale gamma : Q) (rng : G) :
  _GAMMA_THRESHOLD < gamma →
  jump_term x mu jump_scale gamma rng
  = ((if Qgtb x mu then - (1.0) else 1.0)
       * Qabs (normal 0.0 jump_scale rng).1,
     (normal 0.0 jump_scale rng).2).
Proof.
  intros Hgt. unfold jump_term.
  apply Qgtb_true in Hgt. rewrite Hgt.
  by destruct (normal 0.0 jump_scale rng).
Qed.

Lemma jump_sign (x mu n : Q) :
  let jump := (if Qgtb x mu then - (1.0) else 1.0) * Qabs n in
  (mu < x → jump == - Qabs n ∧ jump <= 0)
  ∧ (x <= mu → jump == Qabs n ∧ 0 <= jump).
Proof.
  cbv zeta. pose proof (Qabs_nonneg n) as Hn.
  split; intros Hx.
  - apply Qgtb_true in Hx. rewrite Hx. split; lra.
  - apply Qgtb_false in Hx. rewrite Hx. split; lra.
Qed.

Lemma step_new_x (self : VADM G) (agent_id : Z) (irv : list Q) (r_static : Q) :
  let mu := np_clip (irv0 irv) _X_LO _X_HI in
  let s := state_of self agent_id mu in
  let epsilon := Qabs (r_static - x s) in
  let gamma := _gamma_ratio epsilon (_sigma self) (theta s) in
  let theta' := _update_theta (theta s) epsilon (_alpha self) (_dt self) in
  let em := _euler_maruyama (x s) mu theta' (_sigma self) (_dt self)
              (_rng self) (_jump_scale self) gamma in
  (step self agent_id irv r_static).1.1 = em.1
  ∧ _rng (step self agent_id irv r_static).2 = em.2
  ∧ (x <$> _states (step self agent_id irv r_static).2 !! agent_id) = Some em.1.
Proof.
  cbv zeta. unfold step.
  destruct (_euler_maruyama _ _ _ _ _ _ _ _) as [x' rng'].
  cbn. by rewrite lookup_insert_eq.
Qed.

End Jump.

(** C1 (as the code has it): in a call of [VADM.step] whose surprise
    ratio [gamma] exceeds the threshold 3.0, the new reputation is
    [clip(x + drift + diffusion + jump)] where the jump is the magnitude
    [|N(0, jump_scale)|] of the generator's next normal draw, signed
    towards the target: [-|n|] (never positive) when [x] is above [mu],
    [+|n|] (never negative) when [x] is at or below [mu]. *)
Theorem step_jump_towards_mu `{PyMath} `{NpGenerator G}
    (self : VADM G) (agent_id : Z) (irv : list Q) (r_static : Q) :
  let mu := np_clip (irv0 irv) _X_LO _X_HI in
  let s := state_of self agent_id mu in
  let epsilon := Qabs (r_static - x s) in
  let gamma := _gamma_ratio epsilon (_sigma self) (theta s) in
  let theta' := _update_theta (theta s) epsilon (_alpha self) (_dt self) in
  let drift := theta' * (mu - x s) * _dt self in
  let z := (standard_normal (_rng self)).1 in
  let diffusion := _sigma self * z * np_sqrt (_dt self) in
  let n := (normal 0.0 (_jump_scale self) (standard_normal (_rng self)).2).1 in
  let jump := (if Qgtb (x s) mu then - (1.0) else 1.0) * Qabs n in
  _GAMMA_THRESHOLD < gamma →
  (step self agent_id irv r_static).1.1
  = np_clip (x s + drift + diffusion + jump) _X_LO _X_HI
  ∧ (mu < x s → jump == - Qabs n ∧ jump <= 0)
  ∧ (x s <= mu → jump == Qabs n ∧ 0 <= jump).
Proof.
  cbv zeta. intros Hgamma.
  split; [|apply jump_sign].
  pose proof (step_new_x self agent_id irv r_static) as Hx. cbv zeta in Hx.
  destruct Hx as (-> & _ & _).
  unfold _euler_maruyama.
  destruct (standard_normal (_rng self)) as [z rng1]. cbn [fst snd].
  rewrite jump_term_jump by done.
  reflexivity.
Qed.

(** X3: for a time step [dt >= 0] the reputation returned by [step] (and
    stored for the actor) lies in [0, 1], whatever the other inputs and
    the draws.  (For [dt < 0] numpy's square root is nan and [np.clip]
    hands it on; the rationals have no nan, so the statement stops at
    [dt >= 0].) *)
Theorem step_reputation_bounded `{PyMath} `{NpGenerator G}
    (self : VADM G) (agent_id : Z) (irv : list Q) (r_static : Q) :
  0 <= _dt self →
  0 <= (step self agent_id irv r_static).1.1
  ∧ (step self agent_id irv r_static).1.1 <= 1.
Proof.
  intros _.
  pose proof (step_new_x self agent_id irv r_static) as Hx. cbv zeta in Hx.
  destruct Hx as (-> & _ & _).
  unfold _euler_maruyama.
  destruct (standard_normal (_rng self)) as [z rng1].
  destruct (jump_term _ _ _ _ rng1) as [jump rng2]. cbn [fst].
  match goal with
  | |- context [np_clip ?x _X_LO _X_HI] =>
      destruct (np_clip_bounds x _X_LO _X_HI) as [Hlo Hhi]
  end.
  - unfold _X_LO, _X_HI. lra.
  - unfold _X_LO, _X_HI in *. split; lra.
Qed.

(** A monitor-free run used below: [theta_0 = 0.5], generator tape
    [0, 0, 1].  The first call seats actor 7 at [x = 0.9]; the second call
    moves the target to [mu = 0.5] with [r_static = 0], a surprise ratio
    of 30. *)
Definition vadm_run0 : VADM (list Q) :=
  {| _dt := 1.0; _theta_0 := 0.5; _sigma := 0.03; _jump_scale := 0.35;
     _alpha := 0.05; _window := 20; _rng := [0; 0; 1]; _states := ∅ |}.

Definition vadm_run1 : VADM (list Q) :=
  (step (H := PyMath_exact) (H0 := tape_generator) vadm_run0 7
     [0.9; 0; 0; 0; 0] 0.9).2.

Lemma step_reputation_bounded_witness :
  0 <= (step (H := PyMath_exact) (H0 := tape_generator) vadm_run0 7
          [0.9; 0; 0; 0; 0] 0.9).1.1
  ∧ (step (H := PyMath_exact) (H0 := tape_generator) vadm_run0 7
       [0.9; 0; 0; 0; 0] 0.9).1.1 <= 1.
Proof.
  apply (step_reputation_bounded (H := PyMath_exact) (H0 := tape_generator)
           vadm_run0 7 [0.9; 0; 0; 0; 0] 0.9).
  by vm_compute.
Defined.

Lemma step_jump_towards_mu_witness :
  let s := state_of vadm_run1 7 0.5 in
  x s == 0.9
  ∧ _GAMMA_THRESHOLD
    < _gamma_ratio (H := PyMath_exact) (Qabs (0.0 - x s)) 0.03 (theta s)
  ∧ (step (H := PyMath_exact) (H0 := tape_generator) vadm_run1 7
       [0.5; 0; 0; 0; 0] 0.0).1.1 == 0.3515.
Proof.
  cbv zeta.
  assert (Hg : _GAMMA_THRESHOLD
               < _gamma_ratio (H := PyMath_exact)
                   (Qabs (0.0 - x (state_of vadm_run1 7
                      (np_clip (irv0 [0.5; 0; 0; 0; 0]) _X_LO _X_HI))))
                   (_sigma vadm_run1)
                   (theta (state_of vadm_run1 7
                      (np_clip (irv0 [0.5; 0; 0; 0; 0]) _X_LO _X_HI))))
    by by vm_compute.
  split; [by vm_compute|]. split; [by vm_compute|].
  rewrite (proj1 (step_jump_towards_mu (H := PyMath_exact) (H0 := tape_generator)
                    vadm_run1 7 [0.5; 0; 0; 0; 0] 0.0 Hg)).
  by vm_compute.
Defined.

(** C1 as stated fails: with [x = 0.9] above [mu = 0.5] and [gamma = 4]
    the jump drawn from the tape is -0.35, not positive; and in the run
    above the second call takes actor 7 from 0.9 down to 0.3515, below
    the value 0.7015 that drift and diffusion alone would give. *)
Lemma jump_has_sign_of_mu_minus_x :
  let jump := (jump_term (H := tape_generator) 0.9 0.5 0.35 4 [1]).1 in
  _GAMMA_THRESHOLD < 4
  ∧ 0.5 < 0.9
  ∧ jump == - 0.35
  ∧ ¬ (0 < jump)
  ∧ (step (H := PyMath_exact) (H0 := tape_generator) vadm_run1 7
       [0.5; 0; 0; 0; 0] 0.0).1.1 == 0.3515.
Proof. cbv zeta. repeat split; by vm_compute. Qed.

End VadmFacts.

(** ** The interaction and community engine *)

Module IteFacts.
Import Ite.

(** The same engine constructed with other [beta] and [gamma]. *)
Definition with_beta_gamma {R} (self : ITE R) (beta gamma : Q) : ITE R :=
  {| _beta := beta; _gamma := gamma;
     _recompute_interval := _recompute_interval self; _k := _k self;
     _rng := _rng self; _graph := _graph self; _nbrs := _nbrs self;
     _partition := _partition self; _comm_stats := _comm_stats self;
     _step := _step self |}.

Lemma nbrs_get_touch (nb : gmap Z (gset Z)) (k k' : Z) :
  nbrs_get (nbrs_touch nb k) k' = nbrs_get nb k'.
Proof.
  unfold nbrs_get, nbrs_touch.
  destruct (nb !! k) eqn:E; [done|].
  destruct (decide (k = k')) as [<-|Hne].
  - by rewrite lookup_insert_eq, E.
  - by rewrite lookup_insert_ne.
Qed.

(** Inside a suspect community [penalized_evidence] returns
    [max(0, 1 - (0.5 * similarity + 0.5 * density)) * raw_outcome], with
    the Jaccard similarity of the two neighbour sets (each with its owner
    added) and the community's internal density; the factors 0.5 are the
    module constants [_BETA] and [_GAMMA]. *)
Theorem penalized_evidence_suspect {R} (self : ITE R)
    (endorser_id target_id raw_outcome c : Z) (stats : _CommStats) :
  _partition self !! endorser_id = Some c →
  _partition self !! target_id = Some c →
  _comm_stats self !! c = Some stats →
  _is_suspect stats = true →
  (penalized_evidence self endorser_id target_id raw_outcome).1
  = Qmax 0.0
      (1.0 - (_BETA
                * _fast_jaccard
                    (nbrs_get (_nbrs self) endorser_id ∪ {[ endorser_id ]})
                    (nbrs_get (_nbrs self) target_id ∪ {[ target_id ]})
              + _GAMMA * din stats))
    * inject_Z raw_outcome.
Proof.
  intros He Ht Hc Hs. unfold penalized_evidence.
  destruct (decide (_partition self = ∅)) as [Hemp|_].
  { rewrite Hemp, lookup_empty in He. done. }
  rewrite He, Ht.
  destruct (decide (c ≠ c)) as [Hne|_]; [done|].
  rewrite Hc, Hs. cbn [negb fst].
  by rewrite !nbrs_get_touch.
Qed.

(** The values given to the constructor do not reach the result. *)
Lemma penalized_evidence_beta_gamma_irrelevant {R} (self : ITE R)
    (beta gamma : Q) (endorser_id target_id raw_outcome : Z) :
  (penalized_evidence (with_beta_gamma self beta gamma)
     endorser_id target_id raw_outcome).1
  = (penalized_evidence self endorser_id target_id raw_outcome).1.
Proof.
  unfold penalized_evidence. cbn [with_beta_gamma _partition _comm_stats _nbrs].
  repeat (case_decide || case_match); done.
Qed.

(** Three actors endorsing each other in both directions, then the ticks
    up to the first recompute. *)
Definition clique3 {R} (self : ITE R) : ITE R :=
  fold_left (λ self '(u, v), force_interaction self u v 1)
    [(1, 2); (1, 3); (2, 1); (2, 3); (3, 1); (3, 2)]%Z self.

Fixpoint ticks {R} (n : nat) (self : ITE R) : PyResult (ITE R) :=
  match n with
  | O => Ok self
  | S n => py_bind (tick (H := louvain_one_block) self) (ticks n)
  end.

(** C4 (the code at the failing input): the weight ignores the [beta] and
    [gamma] given to the constructor.  An engine built with
    [beta = gamma = 0.1], after a three-actor clique and ten ticks, has the
    clique as one suspect community of density 1 in which actors 1 and 2
    have Jaccard similarity 1; the configured weight would be
    [1 - (0.1 + 0.1) = 0.8], the code returns [0 * 1] (the weight of
    [beta = gamma = 0.5]). *)
Theorem penalized_evidence_ignores_beta_gamma :
  (∀ R (self : ITE R) (beta gamma : Q) (endorser_id target_id raw_outcome : Z),
     (penalized_evidence (with_beta_gamma self beta gamma)
        endorser_id target_id raw_outcome).1
     = (penalized_evidence self endorser_id target_id raw_outcome).1)
  ∧ ∃ self : ITE Z,
      ticks 10 (clique3 (ITE_new (H := lcg_random) 0.1 0.1 10 3 42)) = Ok self
      ∧ _beta self = 0.1 ∧ _gamma self = 0.1
      ∧ _partition self !! 1%Z = Some 0%Z
      ∧ _partition self !! 2%Z = Some 0%Z
      ∧ (_is_suspect <$> _comm_stats self !! 0%Z) = Some true
      ∧ ((λ st, Qred (din st)) <$> _comm_stats self !! 0%Z) = Some 1
      ∧ _fast_jaccard (nbrs_get (_nbrs self) 1 ∪ {[ 1%Z ]})
          (nbrs_get (_nbrs self) 2 ∪ {[ 2%Z ]}) == 1
      ∧ Qmax 0 (1 - (_beta self * 1 + _gamma self * 1)) * 1 == 0.8
      ∧ (penalized_evidence self 1 2 1).1 == 0
      ∧ ¬ (penalized_evidence self 1 2 1).1 == 0.8.
Proof.
  split; [intros; apply penalized_evidence_beta_gamma_irrelevant|].
  eexists. split; [by vm_compute|].
  repeat split; by vm_compute.
Qed.


(** The engine of the clique run with the default [beta] and [gamma]. *)
Definition clique_engine : ITE Z :=
  match ticks 10 (clique3 (ITE_default (H := lcg_random))) with
  | Ok self => self
  | Raise _ => ITE_default (H := lcg_random)
  end.

Lemma penalized_evidence_suspect_witness :
  (penalized_evidence clique_engine 1 2 1).1 == 0.
Proof.
  assert (Hstats : ∃ stats, _comm_stats clique_engine !! 0%Z = Some stats
                            ∧ _is_suspect stats = true).
  { destruct (_comm_stats clique_engine !! 0%Z) as [stats|] eqn:E.
    - exists stats. split; [done|].
      assert (Hs : (_is_suspect <$> _comm_stats clique_engine !! 0%Z)
                   = Some true) by by vm_compute.
      rewrite E in Hs. by injection Hs.
    - by vm_compute in E. }
  destruct Hstats as (stats & Hst & Hsus).
  rewrite (penalized_evidence_suspect clique_engine 1 2 1 0 stats
             ltac:(by vm_compute) ltac:(by vm_compute) Hst Hsus).
  assert (Hd : (din <$> _comm_stats clique_engine !! 0%Z) = Some (6 # 6))
    by by vm_compute.
  rewrite Hst in Hd. injection Hd as ->.
  by vm_compute.
Defined.

End IteFacts.

(** ** The credential synthesiser *)

Lemma fold_left_related {A B} (P : A → A → Prop) (f : A → B → A)
    (l : list B) (a1 a2 : A) :
  (∀ x y b, P x y → P (f x b) (f y b)) →
  P a1 a2 → P (fold_left f l a1) (fold_left f l a2).
Proof.
  intros Hstep. revert a1 a2.
  induction l as [|b l IH]; intros a1 a2 HP; cbn [fold_left]; auto.
Qed.

Module VcGenFacts.
Import IrvPe VcGen.

(** A record with its two clock-derived values rewritten by [e]: the
    issuance timestamp, and the attribute filled by the [epoch] branch. *)
Definition map_clock_attr (e : Z → Z) (kv : string * attr_value)
    : string * attr_value :=
  match attr_kind_of kv.1, kv.2 with
  | KEpoch, AInt v => (kv.1, AInt (e v))
  | _, _ => kv
  end.

Definition map_clock (e : Z → Z) (r : VCRecord) : VCRecord :=
  {| vc_id := vc_id r; vc_type := vc_type r; issuer_tier := issuer_tier r;
     issuer_trust := issuer_trust r; subject_id := subject_id r;
     revoked := revoked r;
     attributes := map_clock_attr e <$> attributes r;
     bba := bba r;
     issuance_ts := e (issuance_ts r);
     chain_depth := chain_depth r |}.

(** Everything but the clock-derived values. *)
Definition clockless : VCRecord → VCRecord := map_clock (λ _, 0%Z).

(** The clock-derived values as offsets from the second [now]. *)
Definition since (now : Z) : VCRecord → VCRecord := map_clock (λ v, (v - now)%Z).

Section TwoClocks.
Context `{PyRandom R} `{Hashlib}.
Variables (e1 e2 : Z → Z) (r1 r2 : nat → Z).
Hypothesis e_agree : ∀ i j d, e1 (r1 i + d) = e2 (r2 j + d).

Definition attrs_agree (s1 s2 : list (string * attr_value) * R * Clock) : Prop :=
  map_clock_attr e1 <$> s1.1.1 = map_clock_attr e2 <$> s2.1.1
  ∧ s1.1.2 = s2.1.2
  ∧ readings s1.2 = r1 ∧ readings s2.2 = r2.

Lemma build_attribute_agree (is_attacker : bool) s1 s2 (k : string) :
  attrs_agree s1 s2 →
  attrs_agree (build_attribute is_attacker s1 k)
              (build_attribute is_attacker s2 k).
Proof.
  destruct s1 as [[a1 rng1] c1], s2 as [[a2 rng2] c2].
  intros (Ha & Hr & Hc1 & Hc2). cbn [fst snd] in *. subst rng2.
  unfold build_attribute, attrs_agree, time_time.
  destruct (attr_kind_of k) eqn:Ek; cbv beta iota;
    repeat match goal with
      | |- context [let '(_, _) := ?c in _] => destruct c
      end;
    cbn [fst snd readings];
    rewrite !fmap_app, Ha; cbn [fmap list_fmap];
    unfold map_clock_attr; cbn [fst snd]; rewrite Ek;
    try done.
  split; [|done]. subst r1 r2.
  by rewrite (e_agree (reads c1) (reads c2)).
Qed.

Lemma build_attributes_agree (vt : string) (rng : R) (c1 c2 : Clock)
    (is_attacker : bool) :
  readings c1 = r1 → readings c2 = r2 →
  attrs_agree (_build_attributes vt rng c1 is_attacker)
              (_build_attributes vt rng c2 is_attacker).
Proof.
  intros Hc1 Hc2. unfold _build_attributes.
  apply fold_left_related.
  - intros. by apply build_attribute_agree.
  - by repeat split.
Qed.

Definition records_agree (s1 s2 : list VCRecord * R * Clock) : Prop :=
  map_clock e1 <$> s1.1.1 = map_clock e2 <$> s2.1.1
  ∧ s1.1.2 = s2.1.2
  ∧ readings s1.2 = r1 ∧ readings s2.2 = r2.

Lemma generate_record_agree (agent_id : Z) (is_attacker : bool) s1 s2 ivt :
  records_agree s1 s2 →
  records_agree (generate_record agent_id is_attacker s1 ivt)
                (generate_record agent_id is_attacker s2 ivt).
Proof.
  destruct s1 as [[l1 rng1] c1], s2 as [[l2 rng2] c2], ivt as [i vt].
  intros (Hl & Hr & Hc1 & Hc2). cbn [fst snd] in *. subst rng2.
  unfold generate_record.
  destruct (_issuer_tier_for_vc_type vt rng1) as [tier rng].
  destruct (_issuer_trust tier rng) as [trust rng'].
  destruct (if is_attacker
            then let '(u, rng0) := rnd_uniform 0.5 0.85 rng' in (trust * u, rng0)
            else (trust, rng')) as [trust' rng''].
  destruct (rnd_random rng'') as [u rng3].
  pose proof (build_attributes_agree vt rng3 c1 c2 is_attacker Hc1 Hc2) as Hattr.
  destruct (_build_attributes vt rng3 c1 is_attacker) as [[at1 rngA] cA].
  destruct (_build_attributes vt rng3 c2 is_attacker) as [[at2 rngB] cB].
  destruct Hattr as (Hat & HrA & HcA & HcB). cbn [fst snd] in *. subst rngB.
  destruct (if is_attacker then _build_attacker_bba rngA
            else _build_honest_bba rngA) as [m rng4].
  unfold time_time. cbv beta iota.
  destruct (rnd_randint 0 31536000 rng4) as [age rng5].
  destruct (_chain_depth tier rng5) as [depth rng6].
  unfold records_agree. cbn [fst snd readings].
  rewrite !fmap_app, Hl. cbn [fmap list_fmap].
  repeat split; try done.
  do 2 f_equal. unfold map_clock.
  cbn [vc_id vc_type issuer_tier issuer_trust subject_id revoked attributes
       bba issuance_ts chain_depth].
  rewrite Hat. f_equal.
  rewrite <- !Z.add_opp_r, HcA, HcB. apply e_agree.
Qed.

Lemma generate_agree (self : VCGen) (agent_id : Z) (n : nat)
    (is_attacker : bool) (c1 c2 : Clock) :
  readings c1 = r1 → readings c2 = r2 →
  map_clock e1 <$> (generate self agent_id n is_attacker c1).1
  = map_clock e2 <$> (generate self agent_id n is_attacker c2).1.
Proof.
  intros Hc1 Hc2. unfold generate.
  destruct (rnd_choices _ None n _) as [idx rng].
  match goal with
  | |- context [fold_left ?f ?l (?a, ?r, c1)] =>
      pose proof (fold_left_related records_agree f l (a, r, c1) (a, r, c2))
        as Hfold
  end.
  destruct (fold_left _ _ (_, _, c1)) as [[recs1 rngA] cA].
  destruct (fold_left _ _ (_, _, c2)) as [[recs2 rngB] cB].
  cbn [fst]. apply Hfold.
  - intros. by apply generate_record_agree.
  - by repeat split.
Qed.

End TwoClocks.

(** C2 (as the code has it): [generate] builds its generator inside the
    call from [agent_id] and the offset and takes no other random state
    (none is among its inputs or outputs), but it also reads the wall
    clock.  Whatever the clock shows, two calls with the same inputs agree
    on every field except the issuance timestamps and the [expiry_epoch]
    attributes; and those two are seed-determined offsets from the second
    the clock shows, so they too agree when the clock shows the same
    second. *)
Theorem generate_deterministic_up_to_clock `{PyRandom R} `{Hashlib}
    (self : VCGen) (agent_id : Z) (n_credentials : nat) (is_attacker : bool) :
  (∀ c1 c2 : Clock,
     clockless <$> (generate self agent_id n_credentials is_attacker c1).1
     = clockless <$> (generate self agent_id n_credentials is_attacker c2).1)
  ∧ (∀ t1 t2 : Z,
       since t1 <$> (generate self agent_id n_credentials is_attacker
                       (clock_at t1)).1
       = since t2 <$> (generate self agent_id n_credentials is_attacker
                         (clock_at t2)).1)
  ∧ (∀ c : Clock,
       length (generate self agent_id n_credentials is_attacker c).1
       = length (rnd_choices 5 None n_credentials
                   (random_Random (agent_id + _seed_offset self * 100003)%Z)).1).
Proof.
  split; [|split].
  - intros c1 c2.
    by apply (generate_agree _ _ (readings c1) (readings c2)).
  - intros t1 t2.
    apply (generate_agree _ _ (λ _, t1) (λ _, t2)); [|done..].
    intros _ _ d. lia.
  - intros c. unfold generate. cbn [length _VC_TYPES].
    destruct (rnd_choices 5 None n_credentials _) as [idx rng]. cbn [fst].
    match goal with
    | |- context [fold_left ?f ?l ?a] =>
        assert (Hlen : ∀ l' a', length (fold_left f l' a').1.1
                               = (length a'.1.1 + length l')%nat)
    end.
    { induction l' as [|[i vt] l' IH]; intros [[recs rng'] clk];
        cbn [fold_left fst snd length]; [lia|].
      rewrite IH. unfold generate_record.
      repeat match goal with
        | |- context [let '(_, _) := ?c in _] => destruct c
        end.
      cbn [fst snd]. rewrite length_app. cbn [length]. lia. }
    specialize (Hlen (imap (λ i vt, (i, vt)) (pick ""%string _VC_TYPES <$> idx))
                  ([], rng, c)).
    destruct (fold_left _ _ _) as [[recs rng'] clk].
    cbn [fst snd length] in *. rewrite Hlen, length_imap, length_fmap. done.
Qed.

(** C2 as stated fails on the timestamps: the same call one second later
    returns a record whose issuance timestamp is one second later. *)
Lemma generate_reads_the_clock :
  let gen := generate (H := lcg_random) (H0 := digest_decimal)
               {| _seed_offset := 0 |} 7 1 false in
  issuance_ts <$> (gen (clock_at 1700000000)).1 = [1675703588%Z]
  ∧ issuance_ts <$> (gen (clock_at 1700000001)).1 = [1675703589%Z]
  ∧ (gen (clock_at 1700000000)).1 ≠ (gen (clock_at 1700000001)).1.
Proof.
  cbv zeta. split; [by vm_compute|]. split; [by vm_compute|].
  intros Heq. apply (f_equal (fmap issuance_ts)) in Heq.
  vm_compute in Heq. discriminate.
Qed.

End VcGenFacts.

(** ** The agent and model step *)

Module ModelFacts.
Import IrvPe Model.

(** *** What the engines leave alone *)

Lemma py_mapM_total {A B} (f : A → PyResult B) (l : list A) :
  (∀ x, ∃ y, f x = Ok y) → ∃ ys, py_mapM f l = Ok ys.
Proof.
  intros Hf. induction l as [|x l [ys IH]]; cbn [py_mapM].
  - by eexists.
  - destruct (Hf x) as [y ->]. cbn [py_bind]. rewrite IH. by eexists.
Qed.

Lemma weighted_bba_total `{PyMath} (self : IRV_PE) (vc : VCRecord) :
  0 <= eta self → ∃ b, weighted_bba self vc = Ok b.
Proof.
  intros Heta. unfold weighted_bba. cbv zeta.
  destruct (Qgtb (_belief_entropy (bba vc)) (eta self)) eqn:Eh.
  - apply Qgtb_true in Eh.
    destruct (Qeq_bool (_belief_entropy (bba vc)) 0) eqn:E0.
    + apply Qeq_bool_iff in E0. lra.
    + cbn [py_bind]. by eexists.
  - cbn [py_bind]. by eexists.
Qed.

(** With a non-negative entropy ceiling [process] returns. *)
Lemma process_total `{PyMath} (self : IRV_PE) (agent_id : Z)
    (credentials : list VCRecord) :
  0 <= eta self → ∃ v, process self agent_id credentials = Ok v.
Proof.
  intros Heta. unfold process. cbv zeta.
  destruct (py_mapM_total (weighted_bba self) (working_set credentials))
    as [bbas ->].
  { intros vc. by apply weighted_bba_total. }
  cbn [py_bind]. destruct bbas; by eexists.
Qed.

Lemma vadm_step_states `{PyMath} `{NpGenerator G} (self : Vadm.VADM G)
    (agent_id : Z) (irv : list Q) (r_static : Q) :
  ∃ s, Vadm._states (Vadm.step self agent_id irv r_static).2
       = <[ agent_id := s ]> (Vadm._states self).
Proof.
  unfold Vadm.step. cbv zeta.
  destruct (Vadm._euler_maruyama _ _ _ _ _ _ _ _) as [x' rng'].
  cbn. by eexists.
Qed.

Lemma bsm_monitor_states `{PyMath} (self : Bsm.BSM) (agent_id : Z)
    (stream : list Z) :
  ∃ s, Bsm._states (Bsm.monitor self agent_id stream).2
       = <[ agent_id := s ]> (Bsm._states self).
Proof.
  destruct (BsmFacts.monitor_counts self agent_id stream) as (s & Hs & _).
  by exists s.
Qed.

Section Interval.
Context {R : Type}.

Lemma ensure_interval (self : Ite.ITE R) (ids : list Z) :
  Ite._recompute_interval (Ite._ensure self ids) = Ite._recompute_interval self.
Proof.
  unfold Ite._ensure. revert self.
  induction ids as [|i ids IH]; intros self; cbn [fold_left]; [done|].
  rewrite IH. by case_decide.
Qed.

Lemma add_edge_interval (self : Ite.ITE R) (u v o : Z) :
  Ite._recompute_interval (Ite._add_edge self u v o)
  = Ite._recompute_interval self.
Proof. done. Qed.

Lemma force_interaction_interval (self : Ite.ITE R) (u v o : Z) :
  Ite._recompute_interval (Ite.force_interaction self u v o)
  = Ite._recompute_interval self.
Proof.
  unfold Ite.force_interaction. by rewrite add_edge_interval, ensure_interval.
Qed.

Lemma forced_interval (forced : list (Z * Z * Z)) (self : Ite.ITE R) :
  Ite._recompute_interval
    (fold_left (λ ite '(u, v, o), Ite.force_interaction ite u v o) forced self)
  = Ite._recompute_interval self.
Proof.
  revert self. induction forced as [|[[u v] o] l IH]; intros self;
    cbn [fold_left]; [done|].
  by rewrite IH, force_interaction_interval.
Qed.

Lemma generate_interactions_interval `{PyRandom R} (self : Ite.ITE R)
    (agent_id : Z) (all_ids : list Z) :
  Ite._recompute_interval (Ite.generate_interactions self agent_id all_ids).2
  = Ite._recompute_interval self.
Proof.
  unfold Ite.generate_interactions. cbv zeta.
  destruct (rnd_sample _ _ _) as [idx rng].
  match goal with
  | |- context [fold_left ?f ?l ?a] =>
      assert (Hfold : ∀ l' a',
                Ite._recompute_interval (fold_left f l' a').2
                = Ite._recompute_interval a'.2)
  end.
  { induction l' as [|t l' IH]; intros [pairs s]; cbn [fold_left]; [done|].
    destruct (rnd_randint 0 1 (Ite._rng s)) as [o rng'].
    by rewrite IH. }
  rewrite Hfold. cbn [snd]. unfold Ite.with_rng. cbn [Ite._recompute_interval].
  apply ensure_interval.
Qed.

Lemma penalized_evidence_interval (self : Ite.ITE R) (e t o : Z) :
  Ite._recompute_interval (Ite.penalized_evidence self e t o).2
  = Ite._recompute_interval self.
Proof.
  unfold Ite.penalized_evidence.
  repeat (case_decide || case_match); done.
Qed.

Lemma penalized_all_interval (self : Ite.ITE R) (uid : Z)
    (interactions : list (Z * Z)) :
  Ite._recompute_interval (penalized_all self uid interactions).2
  = Ite._recompute_interval self.
Proof.
  unfold penalized_all.
  assert (Hfold : ∀ l (a : list Q * Ite.ITE R),
            Ite._recompute_interval
              (fold_left
                 (λ '(ev, ite) '(target, outcome),
                    let '(e, ite) :=
                      Ite.penalized_evidence ite uid target outcome in
                    (ev ++ [e], ite)) l a).2
            = Ite._recompute_interval a.2).
  { induction l as [|[t o] l IH]; intros [ev s]; cbn [fold_left]; [done|].
    pose proof (penalized_evidence_interval s uid t o) as Hp.
    destruct (Ite.penalized_evidence s uid t o) as [e s'].
    rewrite IH. exact Hp. }
  by rewrite Hfold.
Qed.

Lemma tick_total `{Louvain} (self : Ite.ITE R) :
  Ite._recompute_interval self ≠ 0%Z →
  ∃ self', Ite.tick self = Ok self'
           ∧ Ite._recompute_interval self' = Ite._recompute_interval self.
Proof.
  intros Hne. unfold Ite.tick. cbv zeta. cbn [Ite._recompute_interval Ite._step].
  destruct (Z.eqb_spec (Ite._recompute_interval self) 0) as [E|_]; [done|].
  destruct (_ =? 0)%Z; eexists; split; reflexivity.
Qed.

End Interval.


(** *** Isolation *)

Section Isolation.
Context `{PyMath} `{PyRandom R} `{NpGenerator G} `{Hashlib} `{Louvain}
        `{MesaRandom R}.

Abbreviation model := (ChronosRepModel R G).

(** Every agent is stored under its own id, as [schedule.add] does. *)
Definition well_keyed (ags : gmap Z ChronosAgent) : Prop :=
  ∀ k a, ags !! k = Some a → unique_id a = k.

(** Agent [a'] is agent [a], isolated, with nothing but possibly the
    attacker flag changed. *)
Definition frozen (a a' : ChronosAgent) : Prop :=
  isolated a' = true
  ∧ unique_id a' = unique_id a
  ∧ reputation a' = reputation a
  ∧ volatility a' = volatility a
  ∧ irv a' = irv a
  ∧ evidence a' = evidence a.

(** What the steps of a model keep once the agent under [uid] is isolated. *)
Record kept (uid : Z) (a : ChronosAgent)
    (vs : option Vadm._AgentState) (bs : option Bsm._StreamState)
    (m : model) : Prop := {
  kept_agent : ∃ a', agents m !! uid = Some a' ∧ frozen a a';
  kept_keys : well_keyed (agents m);
  kept_vadm : Vadm._states (vadm m) !! uid = vs;
  kept_bsm : Bsm._states (bsm m) !! uid = bs;
  kept_eta : 0 <= eta (irv_pe m);
  kept_interval : Ite._recompute_interval (ite m) ≠ 0%Z
}.

Lemma agent_step_isolated (m : model) (key : Z) (a : ChronosAgent) :
  agents m !! key = Some a → isolated a = true → agent_step m key = Ok m.
Proof. intros Ha Hiso. unfold agent_step. by rewrite Ha, Hiso. Qed.

Lemma active_ids_isolated (ags : gmap Z ChronosAgent) (uid : Z)
    (a : ChronosAgent) :
  well_keyed ags → ags !! uid = Some a → isolated a = true →
  uid ∉ active_ids ags.
Proof.
  intros Hk Ha Hiso Hin. unfold active_ids in Hin.
  apply list_elem_of_fmap in Hin as (b & Hid & Hb).
  apply list_elem_of_filter in Hb as (Hact & Hb).
  apply list_elem_of_fmap in Hb as ([k b'] & -> & Hkb).
  apply elem_of_map_to_list in Hkb. cbn [snd] in *.
  pose proof (Hk _ _ Hkb) as Hkey. subst uid. rewrite Hkey in Ha.
  congruence.
Qed.

Lemma agent_step_kept uid a vs bs (m : model) (key : Z) :
  kept uid a vs bs m →
  ∃ m', agent_step m key = Ok m' ∧ kept uid a vs bs m'.
Proof.
  intros Hkept. unfold agent_step.
  destruct (agents m !! key) as [b|] eqn:Eb; [|by eexists].
  destruct (isolated b) eqn:Eiso; [by eexists|].
  destruct Hkept as [(a' & Ha' & Hfr) Hkeys Hv Hb Heta Hint].
  assert (Hne : key ≠ uid).
  { intros ->. destruct Hfr as (Hi & _). congruence. }
  pose proof (Hkeys _ _ Eb) as Hkey.
  cbv zeta.
  destruct (VcGen.generate _ _ _ _ _) as [credentials clk].
  destruct (process_total (irv_pe m) (unique_id b) credentials Heta)
    as [irv' ->].
  cbn [py_bind].
  pose proof (generate_interactions_interval (ite m) (unique_id b)
                (active_ids (agents m))) as Hgi.
  destruct (Ite.generate_interactions _ _ _) as [interactions ite1].
  pose proof (penalized_all_interval ite1 (unique_id b) interactions) as Hpa.
  destruct (penalized_all _ _ _) as [evidence' ite2].
  pose proof (bsm_monitor_states (bsm m) (unique_id b) interactions.*2)
    as [sb Hsb].
  destruct (Bsm.monitor _ _ _) as [bsm_result bsm'].
  match goal with
  | |- context [Vadm.step ?v ?i ?x ?r] =>
      pose proof (vadm_step_states v i x r) as [sv Hsv];
      destruct (Vadm.step v i x r) as [[rep vol] vadm']
  end.
  cbn [fst snd] in *.
  eexists. split; [reflexivity|].
  split; cbn [agents vadm bsm irv_pe ite].
  - exists a'. by rewrite lookup_insert_ne.
  - intros k c. destruct (decide (k = key)) as [->|Hk].
    + rewrite lookup_insert_eq. by intros [= <-].
    + rewrite lookup_insert_ne by done. apply Hkeys.
  - rewrite Hsv, lookup_insert_ne; [done | congruence].
  - rewrite Hsb, lookup_insert_ne; [done | congruence].
  - done.
  - congruence.
Qed.

Lemma schedule_step_kept uid a vs bs (m : model) :
  kept uid a vs bs m →
  ∃ m', schedule_step m = Ok m' ∧ kept uid a vs bs m'.
Proof.
  intros Hkept. unfold schedule_step.
  destruct (rnd_shuffle _ _) as [order rng].
  match goal with
  | |- context [fold_left _ order (Ok ?m0)] =>
      assert (Hk0 : kept uid a vs bs m0) by (by destruct Hkept);
      generalize dependent m0
  end.
  induction order as [|key order IH]; intros m0 Hk0; cbn [fold_left].
  - by eexists.
  - cbn [py_bind].
    destruct (agent_step_kept uid a vs bs m0 key Hk0) as (m1 & -> & Hk1).
    by apply IH.
Qed.

Lemma apply_scenario_kept uid a vs bs (m : model) :
  kept uid a vs bs m → kept uid a vs bs (apply_scenario m).
Proof.
  intros Hkept. unfold apply_scenario.
  destruct (scenario m) as [sc|]; [|done].
  destruct (inject sc _ _ _) as [forced flag].
  destruct Hkept as [(a' & Ha' & Hfr) Hkeys Hv Hb Heta Hint].
  split; cbn [agents vadm bsm irv_pe ite]; try done.
  - eexists. rewrite lookup_fmap, Ha'. split; [reflexivity|].
    by destruct Hfr as (? & ? & ? & ? & ? & ?).
  - intros k c. rewrite lookup_fmap.
    destruct (agents m !! k) as [c'|] eqn:Ec; [|done].
    intros [= <-]. cbn. by apply Hkeys.
  - by rewrite forced_interval.
Qed.

Lemma step_kept uid a vs bs (m : model) :
  kept uid a vs bs m →
  ∃ m', step m = Ok m' ∧ kept uid a vs bs m'.
Proof.
  intros Hkept. unfold step.
  match goal with
  | |- context [schedule_step (apply_scenario ?m0)] =>
      assert (Hk0 : kept uid a vs bs m0) by (by destruct Hkept);
      pose proof (apply_scenario_kept uid a vs bs m0 Hk0) as Hk1;
      destruct (schedule_step_kept uid a vs bs _ Hk1) as (m2 & -> & Hk2)
  end.
  cbn [py_bind].
  destruct (tick_total (ite m2) (kept_interval _ _ _ _ _ Hk2))
    as (ite' & -> & Hint).
  cbn [py_bind]. eexists. split; [reflexivity|].
  destruct Hk2 as [Hag Hkeys Hv Hb Heta Hint2].
  split; cbn [agents vadm bsm irv_pe ite]; try done. congruence.
Qed.

Lemma steps_kept uid a vs bs (n : nat) (m : model) :
  kept uid a vs bs m →
  ∃ m', steps n m = Ok m' ∧ kept uid a vs bs m'.
Proof.
  revert m. induction n as [|n IH]; intros m Hkept; cbn [steps].
  - by eexists.
  - destruct (step_kept uid a vs bs m Hkept) as (m1 & -> & Hk1).
    cbn [py_bind]. by apply IH.
Qed.

(** The one transition into isolation: an agent whose call of [step]
    leaves it with a reputation below [TAU] leaves it isolated. *)
Lemma agent_step_isolates (m m' : model) (key : Z) (a a' : ChronosAgent) :
  agents m !! key = Some a → isolated a = false →
  agent_step m key = Ok m' → agents m' !! key = Some a' →
  isolated a' = Qltb (reputation a') (TAU m).
Proof.
  intros Ha Hiso. unfold agent_step. rewrite Ha, Hiso. cbv zeta.
  destruct (VcGen.generate _ _ _ _ _) as [credentials clk].
  destruct (process _ _ _) as [irv'|]; [|done]. cbn [py_bind].
  destruct (Ite.generate_interactions _ _ _) as [interactions ite1].
  destruct (penalized_all _ _ _) as [evidence' ite2].
  destruct (Bsm.monitor _ _ _) as [bsm_result bsm'].
  destruct (Vadm.step _ _ _ _) as [[rep vol] vadm'].
  intros [= <-]. cbn [agents]. rewrite lookup_insert_eq. intros [= <-].
  cbn [isolated reputation]. by destruct (Qltb rep (TAU m)).
Qed.

End Isolation.

(** C8: isolation is one-way.  For a model whose agent under [uid] is
    isolated (agents stored under their ids, a non-negative entropy ceiling
    and a non-zero recompute interval, as the constructor sets them): the
    agent's own [step] returns the model untouched (no credential, fusion,
    interaction, monitor or dynamics call, no random draw and no clock
    reading); [uid] is not in the pool of interaction targets; and any
    number of model steps run to completion and leave the agent isolated
    with the same reputation, volatility, evidence vector and evidence
    list, the same dynamics and monitor state, and still inert and outside
    the pool. *)
Theorem isolation_is_permanent
    `{PyMath} `{PyRandom R} `{NpGenerator G} `{Hashlib} `{Louvain}
    `{MesaRandom R}
    (m : ChronosRepModel R G) (uid : Z) (a : ChronosAgent) (n : nat) :
  agents m !! uid = Some a →
  isolated a = true →
  well_keyed (agents m) →
  0 <= eta (irv_pe m) →
  Ite._recompute_interval (ite m) ≠ 0%Z →
  agent_step m uid = Ok m
  ∧ (uid ∉ active_ids (agents m))
  ∧ ∃ m' a',
      steps n m = Ok m'
      ∧ agents m' !! uid = Some a'
      ∧ isolated a' = true
      ∧ reputation a' = reputation a
      ∧ volatility a' = volatility a
      ∧ irv a' = irv a
      ∧ evidence a' = evidence a
      ∧ Vadm._states (vadm m') !! uid = Vadm._states (vadm m) !! uid
      ∧ Bsm._states (bsm m') !! uid = Bsm._states (bsm m) !! uid
      ∧ agent_step m' uid = Ok m'
      ∧ (uid ∉ active_ids (agents m')).
Proof.
  intros Ha Hiso Hkeys Heta Hint.
  split; [by eapply agent_step_isolated|].
  split; [by eapply active_ids_isolated|].
  assert (Hkept : kept uid a (Vadm._states (vadm m) !! uid)
                    (Bsm._states (bsm m) !! uid) m).
  { split; try done. exists a. by repeat split. }
  destruct (steps_kept uid a _ _ n m Hkept) as (m' & Hsteps & Hk').
  destruct Hk' as [(a' & Ha' & Hfr) Hkeys' Hv Hb _ _].
  destruct Hfr as (Hi & Hid & Hrep & Hvol & Hirv & Hev).
  exists m', a'. repeat split; try done.
  - by eapply agent_step_isolated.
  - by eapply active_ids_isolated.
Qed.


(** A model of three agents in which agent 1 is isolated at reputation 0.3,
    over the evaluation instances of the interfaces. *)
Definition isolated_example : ChronosAgent :=
  {| unique_id := 1; irv := np_zeros5; reputation := 0.3; volatility := 0.0;
     evidence := []; isolated := true; is_attacker := false |}.

Definition model_example : ChronosRepModel Z (list Q) :=
  {| N := 3; TAU := 0.4;
     agents := list_to_map [(0%Z, ChronosAgent_new 0); (1%Z, isolated_example);
                            (2%Z, ChronosAgent_new 2)];
     random := 0%Z; scenario := None; current_step := 0;
     _newly_isolated := ∅; _isolation_step := ∅; _attacker_ids := ∅;
     vcgen := {| VcGen._seed_offset := 0 |}; irv_pe := IRV_PE_default;
     bsm := Bsm.BSM_default; vadm := Vadm.VADM_default (H := tape_generator);
     ite := Ite.ITE_default (H := lcg_random); clock := clock_at 1700000000;
     model_vars := [] |}.

Lemma model_example_well_keyed : well_keyed (agents model_example).
Proof.
  change (map_Forall (λ k a, unique_id a = k) (agents model_example)).
  apply (bool_decide_unpack _). by vm_compute.
Defined.

Lemma isolation_is_permanent_witness :
  agents model_example !! 1%Z = Some isolated_example
  ∧ isolated isolated_example = true
  ∧ ∃ m' a',
      steps (H := PyMath_exact) (H0 := lcg_random) (H1 := tape_generator)
        (H2 := digest_decimal) (H3 := louvain_one_block)
        (H4 := shuffle_identity) 500 model_example = Ok m'
      ∧ agents m' !! 1%Z = Some a'
      ∧ isolated a' = true
      ∧ reputation a' = 0.3.
Proof.
  split; [reflexivity|]. split; [reflexivity|].
  destruct (isolation_is_permanent (H := PyMath_exact) (H0 := lcg_random)
              (H1 := tape_generator) (H2 := digest_decimal)
              (H3 := louvain_one_block) (H4 := shuffle_identity)
              model_example 1 isolated_example 500
              eq_refl eq_refl model_example_well_keyed
              ltac:(by vm_compute) ltac:(by vm_compute))
    as (_ & _ & m' & a' & Hsteps & Ha' & Hiso & Hrep & _).
  exists m', a'. exact (conj Hsteps (conj Ha' (conj Hiso Hrep))).
Defined.

End ModelFacts.

(** ** More on the evidence engine *)

Lemma sumQ_flat_map_le {A} (f g : A → list Q) (l : list A) :
  (∀ x, x ∈ l → sumQ (f x) <= sumQ (g x)) →
  sumQ (flat_map f l) <= sumQ (flat_map g l).
Proof.
  induction l as [|x l IH]; intros Hfg; cbn [flat_map].
  - lra.
  - rewrite !sumQ_app.
    assert (sumQ (f x) <= sumQ (g x)) by (apply Hfg; left).
    assert (sumQ (flat_map f l) <= sumQ (flat_map g l)).
    { apply IH. intros y Hy. apply Hfg. by right. }
    lra.
Qed.

Lemma sumQ_flat_map_nonneg {A} (f : A → list Q) (l : list A) :
  (∀ x, x ∈ l → 0 <= sumQ (f x)) → 0 <= sumQ (flat_map f l).
Proof.
  induction l as [|x l IH]; intros Hf; cbn [flat_map].
  - unfold sumQ. simpl. lra.
  - rewrite sumQ_app.
    assert (0 <= sumQ (f x)) by (apply Hf; left).
    assert (0 <= sumQ (flat_map f l)).
    { apply IH. intros y Hy. apply Hf. by right. }
    lra.
Qed.

Lemma sumQ_singleton (x : Q) : sumQ [x] == x.
Proof. unfold sumQ. simpl. lra. Qed.

Lemma sumQ_nil : sumQ [] == 0.
Proof. unfold sumQ. simpl. lra. Qed.

Module IrvPeMore.
Import IrvPe IrvPeFacts.

Lemma subset_meets (A h : hyp) :
  hyp_nonempty A && hyp_subseteq A h = true →
  hyp_nonempty (hyp_inter A h) = true.
Proof. by destruct A as [[] [] []], h as [[] [] []]. Qed.

Lemma bba_sum_as_flat_map (m : BBA) :
  bba_sum m = sumQ (flat_map (λ p : hyp * Q, [p.2]) (map_to_list m)).
Proof.
  unfold bba_sum.
  assert (Hl : ∀ l : list (hyp * Q), l.*2 = flat_map (λ p, [p.2]) l).
  { induction l as [|p l IH]; [done|].
    cbn [fmap list_fmap flat_map app]. by rewrite <- IH. }
  by rewrite Hl.
Qed.

(** X4: for a BBA with non-negative masses and every hypothesis [h],
    [0 <= belief(h) <= plausibility(h) <= total mass]. *)
Theorem belief_le_plausibility (m : BBA) (h : hyp) :
  (∀ A x, m !! A = Some x → 0 <= x) →
  0 <= _belief m h
  ∧ _belief m h <= _plausibility m h
  ∧ _plausibility m h <= bba_sum m.
Proof.
  intros Hpos.
  assert (Hel : ∀ p, p ∈ map_to_list m → 0 <= p.2).
  { intros [A x] Hin. apply elem_of_map_to_list in Hin. by eapply Hpos. }
  split; [|split].
  - unfold _belief.
    apply sumQ_flat_map_nonneg. intros [A x] Hin. specialize (Hel _ Hin).
    cbn in Hel. destruct (_ && _); rewrite ?sumQ_singleton, ?sumQ_nil; lra.
  - unfold _belief, _plausibility.
    apply sumQ_flat_map_le. intros [A x] Hin. specialize (Hel _ Hin).
    cbn in Hel.
    destruct (hyp_nonempty A && hyp_subseteq A h) eqn:Eb.
    + rewrite (subset_meets _ _ Eb). lra.
    + destruct (hyp_nonempty (hyp_inter A h));
        rewrite ?sumQ_singleton, ?sumQ_nil; lra.
  - unfold _plausibility. rewrite bba_sum_as_flat_map.
    apply sumQ_flat_map_le. intros [A x] Hin. specialize (Hel _ Hin).
    cbn in Hel.
    destruct (hyp_nonempty _); cbn [snd];
      rewrite ?sumQ_singleton, ?sumQ_nil; lra.
Qed.

Lemma m_example_nonneg : ∀ A x, m_example !! A = Some x → 0 <= x.
Proof. apply m_example_valid. Qed.

Lemma belief_le_plausibility_witness :
  _belief m_example _S_TR <= _plausibility m_example _S_TR.
Proof.
  exact (proj1 (proj2 (belief_le_plausibility m_example _S_TR m_example_nonneg))).
Defined.


(** *** The pignistic transform *)

(** The probability the transform hands out over the three labels. *)
Definition betp_total (betp : gmap label Q) : Q :=
  default 0 (betp !! trusted) + default 0 (betp !! untrusted)
  + default 0 (betp !! unknown).

Lemma betp_total_insert (betp : gmap label Q) (e : label) (share : Q) :
  betp_total (<[ e := default 0 (betp !! e) + share ]> betp)
  == betp_total betp + share.
Proof.
  unfold betp_total.
  destruct e; rewrite lookup_insert_eq, !lookup_insert_ne by done;
    cbn [default]; unfold id;
    generalize (default 0 (betp !! trusted)) (default 0 (betp !! untrusted))
      (default 0 (betp !! unknown)); intros; lra.
Qed.

Lemma pignistic_step_total (betp : gmap label Q) (A : hyp) (m : Q) :
  betp_total
    (let card := hyp_len A in
     if (card =? 0)%Z then betp
     else
       let share := m / inject_Z card in
       fold_left
         (λ (betp : gmap label Q) elem,
            <[ elem := default 0 (betp !! elem) + share ]> betp)
         (hyp_elements A) betp)
  == betp_total betp + (if (hyp_len A =? 0)%Z then 0 else m).
Proof.
  cbv zeta.
  destruct A as [[] [] []];
    match goal with
    | |- context [hyp_elements ?A] =>
        let l := eval vm_compute in (hyp_elements A) in
        change (hyp_elements A) with l
    end;
    match goal with
    | |- context [hyp_len ?A] =>
        let n := eval vm_compute in (hyp_len A) in
        change (hyp_len A) with n
    end;
    cbn [fold_left Z.eqb]; rewrite ?betp_total_insert; try lra;
    generalize (betp_total betp); intros; field.
Qed.

Lemma pignistic_fold_total (l : list (hyp * Q)) (betp : gmap label Q) :
  betp_total
    (fold_left
       (λ (betp : gmap label Q) '(A, m),
          let card := hyp_len A in
          if (card =? 0)%Z then betp
          else
            let share := m / inject_Z card in
            fold_left
              (λ (betp : gmap label Q) elem,
                 <[ elem := default 0 (betp !! elem) + share ]> betp)
              (hyp_elements A) betp)
       l betp)
  == betp_total betp
     + sumQ (map (λ p : hyp * Q, if (hyp_len p.1 =? 0)%Z then 0 else p.2) l).
Proof.
  revert betp. induction l as [|[A m] l IH]; intros betp; cbn [fold_left map].
  - rewrite sumQ_nil. lra.
  - rewrite IH, pignistic_step_total, sumQ_cons. cbn [fst snd]. lra.
Qed.

Lemma hyp_len_0 (A : hyp) : (hyp_len A =? 0)%Z = true → A = _EMPTY.
Proof. by destruct A as [[] [] []]. Qed.

(** X5: for a BBA with nothing on the empty set, the pignistic transform
    hands out exactly the total mass over the three labels (so a
    probability distribution when the BBA sums to 1). *)
Theorem pignistic_preserves_mass (m : BBA) :
  m !! _EMPTY = None →
  betp_total (_pignistic_transform m) == bba_sum m.
Proof.
  intros Hempty. unfold _pignistic_transform. cbv zeta.
  rewrite pignistic_fold_total.
  assert (H0 : betp_total
                 (list_to_map [(trusted, 0); (untrusted, 0); (unknown, 0)])
               == 0) by by vm_compute.
  rewrite H0. unfold bba_sum.
  rewrite (sumQ_map_ext _ snd).
  - change (map snd (map_to_list m)) with ((map_to_list m).*2). lra.
  - intros [A x] Hin. cbn [fst snd].
    destruct (hyp_len A =? 0)%Z eqn:E; [|reflexivity].
    apply hyp_len_0 in E. subst A.
    apply elem_of_map_to_list in Hin. congruence.
Qed.

Lemma pignistic_preserves_mass_witness :
  betp_total (_pignistic_transform m_example) == 1.
Proof.
  rewrite (pignistic_preserves_mass m_example (proj1 m_example_valid)).
  apply m_example_valid.
Defined.

(** *** Conditioning *)

Lemma inter_subseteq (A c : hyp) : hyp_subseteq (hyp_inter A c) c = true.
Proof. by destruct A as [[] [] []], c as [[] [] []]. Qed.

Lemma bba_sum_fmap_div (m : BBA) (c : Q) :
  bba_sum ((λ v, v / c) <$> m) == bba_sum m / c.
Proof.
  induction m as [|A x m Hnone IH] using map_ind.
  - rewrite fmap_empty, bba_sum_empty. unfold Qdiv. lra.
  - rewrite fmap_insert, !bba_sum_insert, ?IH;
      [|done|by rewrite lookup_fmap, Hnone].
    unfold Qdiv. ring.
Qed.

(** The keys the loop of [_condition_bba] fills. *)
Lemma conditioned_keys (bba : BBA) (c : hyp) (l : list hyp) (acc : BBA) :
  (∀ k, is_Some (acc !! k) → hyp_nonempty k = true ∧ hyp_subseteq k c = true) →
  ∀ k,
    is_Some
      (fold_left
         (λ (conditioned : BBA) A,
            let intersection := hyp_inter A c in
            if negb (hyp_nonempty intersection) then conditioned
            else <[ intersection :=
                      bba_get conditioned intersection + bba_get bba A ]>
                   conditioned)
         l acc !! k) →
    hyp_nonempty k = true ∧ hyp_subseteq k c = true.
Proof.
  revert acc. induction l as [|A l IH]; intros acc Hacc k; cbn [fold_left].
  - apply Hacc.
  - apply IH. clear k. intros k. cbv zeta.
    destruct (hyp_nonempty (hyp_inter A c)) eqn:E; cbn [negb]; [|apply Hacc].
    destruct (decide (k = hyp_inter A c)) as [->|Hne].
    + intros _. split; [done | apply inter_subseteq].
    + rewrite lookup_insert_ne by done. apply Hacc.
Qed.

(** X6: conditioning on a non-empty set returns a BBA of total mass 1
    that is either the full-frame fallback (when no mass meets the
    condition) or has all its mass on non-empty subsets of the condition
    set; conditioning on the empty set returns the input itself. *)
Theorem condition_bba_spec (bba : BBA) (condition_set : hyp) :
  hyp_nonempty condition_set = true →
  let r := _condition_bba bba condition_set in
  bba_sum r == 1
  ∧ r !! _EMPTY = None
  ∧ (r = {[ _FRAME := 1.0 ]}
     ∨ ∀ k, is_Some (r !! k) →
            hyp_nonempty k = true ∧ hyp_subseteq k condition_set = true)
  ∧ _condition_bba bba _EMPTY = bba.
Proof.
  intros Hc. cbv zeta. unfold _condition_bba at 1 2 3 4. rewrite Hc.
  cbn [negb]. cbv zeta.
  match goal with
  | |- context [fold_left ?f _SUBSETS ∅] =>
      pose proof (conditioned_keys bba condition_set _SUBSETS ∅) as Hkeys;
      set (conditioned := fold_left f _SUBSETS ∅) in *
  end.
  assert (Hk : ∀ k, is_Some (conditioned !! k) →
                    hyp_nonempty k = true ∧ hyp_subseteq k condition_set = true).
  { apply Hkeys. intros k. rewrite lookup_empty. by intros [? ?]. }
  clearbody conditioned. clear Hkeys.
  destruct (Qeq_bool (bba_sum conditioned) 0.0) eqn:E.
  - split; [|split; [|split]].
    + rewrite bba_sum_singleton. reflexivity.
    + by apply lookup_singleton_ne.
    + by left.
    + reflexivity.
  - assert (Hne : ¬ bba_sum conditioned == 0).
    { intros H0. apply Qeq_bool_neq in E. apply E. rewrite H0. reflexivity. }
    split; [|split; [|split]].
    + rewrite bba_sum_fmap_div. field. exact Hne.
    + rewrite lookup_fmap.
      destruct (conditioned !! _EMPTY) eqn:Ee; [|done].
      destruct (Hk _EMPTY) as [Hn _]; [by rewrite Ee | done].
    + right. intros k. rewrite lookup_fmap, fmap_is_Some. apply Hk.
    + reflexivity.
Qed.

Lemma condition_bba_spec_witness :
  bba_sum (_condition_bba m_example _S_TR_UK) == 1.
Proof.
  exact (proj1 (condition_bba_spec m_example _S_TR_UK eq_refl)).
Defined.

End IrvPeMore.

Module ProcessErrors.
Import IrvPe IrvPeFacts.

(** A credential with the worked-example BBA, issued by a root authority. *)
Definition vc_example : VCRecord :=
  {| vc_id := "vc-0001-0-KYC"; vc_type := "KYC"; issuer_tier := "ROOT_CA";
     issuer_trust := 0.9; subject_id := 1; revoked := false;
     attributes := []; bba := m_example; issuance_ts := 0; chain_depth := 0 |}.

(** A credential whose BBA has no entries. *)
Definition vc_vacant : VCRecord :=
  {| vc_id := "vc-0001-0-KYC"; vc_type := "KYC"; issuer_tier := "ROOT_CA";
     issuer_trust := 0.9; subject_id := 1; revoked := false;
     attributes := []; bba := ∅; issuance_ts := 0; chain_depth := 0 |}.

(** The smallest positive mass the statement below admits, [2**-1000]:
    far above the binary64 subnormals, where a quotient [m / denom] can
    round to 0.0. *)
Definition tiny_mass : Q := 1 # (2 ^ 1000).

(** No mass of the credential is positive and below [tiny_mass]. *)
Definition masses_above_underflow (vc : VCRecord) : Prop :=
  map_Forall (λ _ x, Qle_bool x 0 || Qle_bool tiny_mass x = true) (bba vc).

Lemma log2_argument_bound (t x : Q) (A : hyp) :
  0 < t → t <= x →
  (0 < Z.shiftl 1 (hyp_len A) - 1)%Z →
  t / 8 <= x / inject_Z (Z.shiftl 1 (hyp_len A) - 1).
Proof.
  intros Ht Hx Hd.
  destruct A as [[] [] []]; vm_compute in Hd; try discriminate;
    unfold Qdiv; change (/ 8) with (1 # 8);
    match goal with
    | |- context [/ inject_Z ?d] =>
        let r := eval vm_compute in (/ inject_Z d) in
        change (/ inject_Z d) with r
    end;
    lra.
Qed.

(** X7: with a non-negative entropy ceiling [eta], and no credential mass
    that is positive and below [2**-1000], [process] returns a vector of
    five components and raises nothing: the division [eta / h] is only
    reached with [h > eta >= 0], and every quotient [m / denom] handed to
    [math.log2] in [_belief_entropy] is at least [2**-1003], so it does
    not round to 0.0 in binary64, where [math.log2] would raise. *)
Theorem process_returns `{PyMath} (self : IRV_PE) (agent_id : Z)
    (credentials : list VCRecord) :
  0 <= eta self →
  Forall masses_above_underflow credentials →
  (∃ v, process self agent_id credentials = Ok v ∧ length v = 5%nat)
  ∧ ∀ vc A m,
      vc ∈ credentials → bba vc !! A = Some m → 0 < m →
      (0 < Z.shiftl 1 (hyp_len A) - 1)%Z →
      tiny_mass / 8 <= m / inject_Z (Z.shiftl 1 (hyp_len A) - 1).
Proof.
  intros Heta Hmass. split.
  - destruct (ModelFacts.process_total self agent_id credentials Heta)
      as [v Hv].
    exists v. split; [done|].
    pose proof (process_irv_bounds_aux self agent_id credentials) as Hb.
    rewrite Hv in Hb. exact Hb.
  - intros vc A m Hvc HA Hm Hd.
    rewrite Forall_forall in Hmass.
    specialize (Hmass vc Hvc A m HA). cbv beta in Hmass.
    apply orb_true_iff in Hmass as [Hle|Hge].
    + apply Qle_bool_iff in Hle. lra.
    + apply Qle_bool_iff in Hge.
      apply log2_argument_bound; [by vm_compute | exact Hge | exact Hd].
Qed.

Lemma vc_example_masses : masses_above_underflow vc_example.
Proof.
  unfold masses_above_underflow.
  apply (bool_decide_unpack _). by vm_compute.
Defined.

Lemma process_returns_witness :
  ∃ v, process (H := PyMath_exact) IRV_PE_default 1 [vc_example; vc_example]
       = Ok v ∧ length v = 5%nat.
Proof.
  apply (process_returns (H := PyMath_exact) IRV_PE_default 1
           [vc_example; vc_example]).
  - by vm_compute.
  - exact (Forall_cons_2 _ _ _ vc_example_masses
             (Forall_cons_2 _ _ _ vc_example_masses (Forall_nil_2 _))).
Defined.

(** X8: with a negative ceiling the division is unguarded: a first
    working credential of zero entropy (non-revoked, for instance with an
    empty BBA) makes [process] raise [ZeroDivisionError]. *)
Theorem process_raises `{PyMath} (self : IRV_PE) (agent_id : Z)
    (vc : VCRecord) (rest : list VCRecord) :
  eta self < 0 →
  revoked vc = false →
  _belief_entropy (bba vc) == 0 →
  process self agent_id (vc :: rest) = Raise ZeroDivisionError.
Proof.
  intros Heta Hrev Hh. unfold process. cbv zeta.
  unfold working_set. rewrite filter_cons_True by done.
  cbn [py_mapM].
  assert (Hw : weighted_bba self vc = Raise ZeroDivisionError).
  { unfold weighted_bba. cbv zeta.
    assert (Hgt : Qgtb (_belief_entropy (bba vc)) (eta self) = true).
    { apply Qgtb_true. rewrite Hh. exact Heta. }
    rewrite Hgt.
    assert (H0 : Qeq_bool (_belief_entropy (bba vc)) 0 = true)
      by by apply Qeq_bool_iff.
    by rewrite H0. }
  by rewrite Hw.
Qed.

Lemma process_raises_witness :
  process (H := PyMath_exact) {| eta := - (1); revocation_penalty := 0.10 |}
    1 [vc_vacant] = Raise ZeroDivisionError.
Proof.
  apply (process_raises (H := PyMath_exact)); by vm_compute.
Defined.

End ProcessErrors.

Module BsmMore.
Import Bsm BsmFacts.

Lemma deque_append_length {A} (maxlen : nat) (d : list A) (x : A) :
  (length d ≤ maxlen)%nat → (length (deque_append maxlen d x) ≤ maxlen)%nat.
Proof.
  intros Hd. unfold deque_append. cbv zeta.
  rewrite length_app. cbn [length].
  destruct (Nat.ltb_spec maxlen (length d + 1)) as [Hlt|Hge].
  - destruct d as [|y d]; cbn [app tail length] in *; [lia|].
    rewrite length_app. cbn [length]. lia.
  - rewrite length_app. cbn [length]. lia.
Qed.

(** What every stored stream state satisfies. *)
Definition stream_ok (s : _StreamState) : Prop :=
  (length (window s) ≤ _ZSCORE_WIN)%nat
  ∧ 0 <= cusum_pos s ∧ cusum_pos s <= _CUSUM_H
  ∧ 0 <= cusum_neg s ∧ cusum_neg s <= _CUSUM_H.

Lemma cusum_update_range (z s_pos s_neg k : Q) :
  let r := _cusum_update z s_pos s_neg k in
  0 <= r.1.1 ∧ r.1.1 <= _CUSUM_H ∧ 0 <= r.1.2 ∧ r.1.2 <= _CUSUM_H.
Proof.
  cbv zeta. rewrite cusum_update_spec. cbv zeta.
  destruct (Qgtb (Qmax 0.0 (s_pos + z - k)) _CUSUM_H) eqn:Ep;
    destruct (Qgtb (Qmax 0.0 (s_neg - z - k)) _CUSUM_H) eqn:En;
    cbn [orb fst snd]; unfold _CUSUM_H in *;
    try (repeat split; lra).
  apply Qgtb_false in Ep, En.
  pose proof (Q.le_max_l 0.0 (s_pos + z - k)).
  pose proof (Q.le_max_l 0.0 (s_neg - z - k)).
  repeat split; lra.
Qed.

Lemma observe_ok `{PyMath} (k : Q) (s : _StreamState) (alarms : list Z) (o : Z) :
  stream_ok s → stream_ok (observe k (s, alarms) o).1.
Proof.
  intros (Hw & _). unfold observe.
  pose proof (cusum_update_range
                (_zscore_normalize (inject_Z o)
                   (deque_append _ZSCORE_WIN (window s) (inject_Z o)))
                (cusum_pos s) (cusum_neg s) k) as Hr.
  cbv zeta in Hr.
  destruct (_cusum_update _ _ _ _) as [[pos neg] alarm].
  cbn [fst snd] in *. split; [|exact Hr].
  cbn [window]. by apply deque_append_length.
Qed.

Lemma fold_observe_ok `{PyMath} (k : Q) (stream : list Z)
    (s : _StreamState) (alarms : list Z) :
  stream_ok s → stream_ok (fold_left (observe k) stream (s, alarms)).1.
Proof.
  revert s alarms. induction stream as [|o stream IH]; intros s alarms Hs;
    cbn [fold_left]; [done|].
  pose proof (observe_ok k s alarms o Hs) as H1.
  destruct (observe k (s, alarms) o) as [s1 alarms1]. by apply IH.
Qed.

Lemma monitor_ok `{PyMath} (self : BSM) (agent_id : Z) (stream : list Z) :
  map_Forall (λ _, stream_ok) (_states self) →
  map_Forall (λ _, stream_ok) (_states (monitor self agent_id stream).2).
Proof.
  intros Hall. unfold monitor.
  assert (H0 : stream_ok (_ensure self agent_id)).
  { unfold _ensure. destruct (_states self !! agent_id) as [s|] eqn:E.
    - by eapply Hall.
    - cbn. unfold stream_ok, _CUSUM_H. cbn. repeat split; (lia || lra). }
  pose proof (fold_observe_ok (_k self) stream _ [] H0) as Hf.
  destruct (fold_left _ stream _) as [s alarms]. cbn [fst snd _states] in *.
  apply map_Forall_insert_2; [|done]. exact Hf.
Qed.

(** X9: after any sequence of [monitor] calls on a fresh monitor, every
    actor's window holds at most 30 outcomes and both of its accumulators
    lie in [0, 4.0]. *)
Theorem monitor_state_bounds `{PyMath} (h k : Q) (calls : list (Z * list Z)) :
  map_Forall
    (λ _ s, (length (window s) ≤ 30)%nat
            ∧ 0 <= cusum_pos s ∧ cusum_pos s <= 4.0
            ∧ 0 <= cusum_neg s ∧ cusum_neg s <= 4.0)
    (_states (run_monitors (BSM_new h k) calls)).
Proof.
  change (map_Forall (λ _, stream_ok)
            (_states (run_monitors (BSM_new h k) calls))).
  unfold run_monitors.
  assert (Hgen : ∀ self, map_Forall (λ _, stream_ok) (_states self) →
            map_Forall (λ _, stream_ok)
              (_states (fold_left
                 (λ b '(agent_id, stream), (monitor b agent_id stream).2)
                 calls self))).
  { induction calls as [|[id stream] calls IH]; intros self Hs;
      cbn [fold_left]; [done|].
    apply IH. by apply monitor_ok. }
  apply Hgen. cbn. apply map_Forall_empty.
Qed.

(** X10: a call of [monitor] for one actor leaves the stream state of
    every other actor, and the two control parameters, as they were. *)
Theorem monitor_frame `{PyMath} (self : BSM) (agent_id : Z) (stream : list Z) :
  delete agent_id (_states (monitor self agent_id stream).2)
  = delete agent_id (_states self)
  ∧ is_Some (_states (monitor self agent_id stream).2 !! agent_id)
  ∧ _h (monitor self agent_id stream).2 = _h self
  ∧ _k (monitor self agent_id stream).2 = _k self.
Proof.
  destruct (monitor_counts self agent_id stream)
    as (s1 & Hst & Hh & Hk & _).
  rewrite Hst. split; [apply delete_insert_eq|].
  split; [by rewrite lookup_insert_eq|done].
Qed.

End BsmMore.

Module VadmMore.
Import Vadm VadmFacts.

Section Dynamics.
Context `{PyMath} `{NpGenerator G}.

Lemma update_theta_range (theta epsilon alpha dt : Q) :
  (1 # 10000) <= _update_theta theta epsilon alpha dt
  ∧ _update_theta theta epsilon alpha dt <= 10.0.
Proof. unfold _update_theta. cbv zeta. apply np_clip_bounds. lra. Qed.

Lemma euler_maruyama_range (x mu theta sigma dt : Q) (rng : G)
    (jump_scale gamma : Q) :
  0 <= (_euler_maruyama x mu theta sigma dt rng jump_scale gamma).1
  ∧ (_euler_maruyama x mu theta sigma dt rng jump_scale gamma).1 <= 1.
Proof.
  unfold _euler_maruyama.
  destruct (standard_normal rng) as [z rng1].
  destruct (jump_term _ _ _ _ rng1) as [jump rng2]. cbn [fst].
  match goal with
  | |- context [np_clip ?y _X_LO _X_HI] =>
      destruct (np_clip_bounds y _X_LO _X_HI) as [Hlo Hhi]
  end.
  - unfold _X_LO, _X_HI. lra.
  - unfold _X_LO, _X_HI in *. split; lra.
Qed.

(** What every stored actor state satisfies. *)
Definition state_ok (window : nat) (s : _AgentState) : Prop :=
  (0 <= x s ∧ x s <= 1)
  ∧ ((1 # 10000) <= theta s ∧ theta s <= 10.0)
  ∧ (length (history s) ≤ window)%nat
  ∧ (length (history s) ≤ Z.to_nat (t s))%nat
  ∧ (0 < t s)%Z.

Lemma deque_append_le {A} (maxlen : nat) (d : list A) (y : A) :
  (length (deque_append maxlen d y) ≤ S (length d))%nat
  ∧ ((length d ≤ maxlen)%nat → (length (deque_append maxlen d y) ≤ maxlen)%nat).
Proof.
  split; [|apply BsmMore.deque_append_length].
  unfold deque_append. cbv zeta.
  destruct (_ <? _)%nat.
  - destruct d as [|z d]; cbn [app tail length]; [lia|].
    rewrite length_app. cbn [length]. lia.
  - rewrite length_app. cbn [length]. lia.
Qed.

Lemma step_ok (self : VADM G) (agent_id : Z) (irv : list Q) (r_static : Q) :
  map_Forall (λ _, state_ok (_window self)) (_states self) →
  map_Forall (λ _, state_ok (_window self))
    (_states (step self agent_id irv r_static).2)
  ∧ _window (step self agent_id irv r_static).2 = _window self.
Proof.
  intros Hall. unfold step. cbv zeta.
  set (mu := np_clip (irv0 irv) _X_LO _X_HI).
  assert (Hs : (length (history (state_of self agent_id mu)) ≤ _window self)%nat
               ∧ (length (history (state_of self agent_id mu))
                  ≤ Z.to_nat (t (state_of self agent_id mu)))%nat
               ∧ (0 <= t (state_of self agent_id mu))%Z).
  { unfold state_of. destruct (_states self !! agent_id) as [s|] eqn:E.
    - destruct (Hall _ _ E) as (_ & _ & Hh & Ht & Hp). repeat split; lia.
    - cbn. repeat split; lia. }
  destruct Hs as (Hh & Ht & Hp).
  match goal with
  | |- context [_euler_maruyama ?a ?b ?c ?d ?e ?f ?g ?i] =>
      pose proof (euler_maruyama_range a b c d e f g i) as Hx;
      destruct (_euler_maruyama a b c d e f g i) as [x' rng']
  end.
  cbn [fst snd _states _window] in *. split; [|done].
  apply map_Forall_insert_2; [|done].
  destruct (deque_append_le (_window self)
              (history (state_of self agent_id mu)) x') as [Hl1 Hl2].
  split; [exact Hx|]. split; [apply update_theta_range|].
  cbn [history t]. split; [by apply Hl2|]. split; lia.
Qed.

End Dynamics.

(** A sequence of [step] calls, each an actor, an evidence vector and a
    static score. *)
Definition run_steps `{PyMath} `{NpGenerator G} (self : VADM G)
    (calls : list (Z * list Q * Q)) : VADM G :=
  fold_left (λ v '(agent_id, irv, r), (step v agent_id irv r).2) calls self.

(** X11: after any sequence of [step] calls on a fresh module with a time
    step [dt >= 0], every stored actor state has its reputation in [0, 1],
    its reversion speed in [1e-4, 10], a history no longer than the window
    (and no longer than its step count), and a positive step count.  (For
    [dt < 0] numpy's square root is nan and the stored reputation with
    it.) *)
Theorem dynamics_state_bounds `{PyMath} `{NpGenerator G}
    (dt theta_0 sigma jump_scale alpha : Q) (window : nat) (seed : Z)
    (calls : list (Z * list Q * Q)) :
  0 <= dt →
  map_Forall
    (λ _ s, (0 <= x s ∧ x s <= 1)
            ∧ ((1 # 10000) <= theta s ∧ theta s <= 10.0)
            ∧ (length (history s) ≤ window)%nat
            ∧ (length (history s) ≤ Z.to_nat (t s))%nat
            ∧ (0 < t s)%Z)
    (_states (run_steps
                (VADM_new dt theta_0 sigma jump_scale alpha window seed)
                calls)).
Proof.
  intros _.
  change (map_Forall (λ _, state_ok window)
            (_states (run_steps
               (VADM_new dt theta_0 sigma jump_scale alpha window seed)
               calls))).
  unfold run_steps.
  assert (Hgen : ∀ self : VADM G,
            _window self = window →
            map_Forall (λ _, state_ok window) (_states self) →
            map_Forall (λ _, state_ok window)
              (_states (fold_left
                 (λ v '(agent_id, irv, r), (step v agent_id irv r).2)
                 calls self))).
  { induction calls as [|[[id irv] r] calls IH]; intros self Hw Hs;
      cbn [fold_left]; [done|].
    subst window.
    destruct (step_ok self id irv r Hs) as [Hs' Hw'].
    apply IH; [exact Hw' | exact Hs']. }
  apply Hgen; [done|]. cbn. apply map_Forall_empty.
Qed.

Lemma dynamics_state_bounds_witness :
  map_Forall
    (λ _ s, (0 <= x s ∧ x s <= 1)
            ∧ ((1 # 10000) <= theta s ∧ theta s <= 10.0)
            ∧ (length (history s) ≤ 20)%nat
            ∧ (length (history s) ≤ Z.to_nat (t s))%nat
            ∧ (0 < t s)%Z)
    (_states (run_steps (H := PyMath_exact) (H0 := tape_generator)
                (VADM_new (H := tape_generator) 1.0 0.30 0.03 0.35 0.05 20 0)
                [(7%Z, [0.9; 0; 0; 0; 0], 0.9); (7%Z, [0.5; 0; 0; 0; 0], 0.0)])).
Proof.
  apply (dynamics_state_bounds (H := PyMath_exact) (H0 := tape_generator)
           1.0 0.30 0.03 0.35 0.05 20 0).
  by vm_compute.
Defined.

(** X12: a call of [step] whose surprise ratio is at most 3.0 adds no
    jump and uses exactly one draw of the generator: the new reputation
    is [clip(x + drift + diffusion + 0.0)] and the generator is left as
    after one [standard_normal]. *)
Theorem step_without_jump `{PyMath} `{NpGenerator G}
    (self : VADM G) (agent_id : Z) (irv : list Q) (r_static : Q) :
  let mu := np_clip (irv0 irv) _X_LO _X_HI in
  let s := state_of self agent_id mu in
  let epsilon := Qabs (r_static - x s) in
  let gamma := _gamma_ratio epsilon (_sigma self) (theta s) in
  let theta' := _update_theta (theta s) epsilon (_alpha self) (_dt self) in
  let drift := theta' * (mu - x s) * _dt self in
  let z := (standard_normal (_rng self)).1 in
  let diffusion := _sigma self * z * np_sqrt (_dt self) in
  gamma <= _GAMMA_THRESHOLD →
  (step self agent_id irv r_static).1.1
  = np_clip (x s + drift + diffusion + 0.0) _X_LO _X_HI
  ∧ _rng (step self agent_id irv r_static).2
    = (standard_normal (_rng self)).2.
Proof.
  cbv zeta. intros Hgamma.
  pose proof (step_new_x self agent_id irv r_static) as Hx. cbv zeta in Hx.
  destruct Hx as (-> & -> & _).
  unfold _euler_maruyama.
  destruct (standard_normal (_rng self)) as [z rng1]. cbn [fst snd].
  by rewrite jump_term_no_jump.
Qed.

Lemma step_without_jump_witness :
  (step (H := PyMath_exact) (H0 := tape_generator) vadm_run0 7
     [0.9; 0; 0; 0; 0] 0.9).1.1 == 0.9
  ∧ _rng vadm_run1 = [0; 1].
Proof.
  assert (Hg : _gamma_ratio (H := PyMath_exact)
                 (Qabs (0.9 - x (state_of vadm_run0 7
                    (np_clip (irv0 [0.9; 0; 0; 0; 0]) _X_LO _X_HI))))
                 (_sigma vadm_run0)
                 (theta (state_of vadm_run0 7
                    (np_clip (irv0 [0.9; 0; 0; 0; 0]) _X_LO _X_HI)))
               <= _GAMMA_THRESHOLD) by by vm_compute.
  destruct (step_without_jump (H := PyMath_exact) (H0 := tape_generator)
              vadm_run0 7 [0.9; 0; 0; 0; 0] 0.9 Hg) as [Hx Hr].
  split.
  - rewrite Hx. by vm_compute.
  - unfold vadm_run1. rewrite Hr. reflexivity.
Defined.

Lemma ou_fold `{PyMath} `{NpGenerator G} (self : VADM G) (mu theta : Q)
    (l : list nat) (traj : list Q) (y : Q) (rng : G) :
  traj ≠ [] →
  Forall (λ y, 0 <= y ∧ y <= 1) (tail traj) →
  let r :=
    fold_left
      (λ '(traj, x, rng) (_ : nat),
         let drift := theta * (mu - x) * _dt self in
         let '(z, rng) := standard_normal rng in
         let diff := _sigma self * z * np_sqrt (_dt self) in
         let x := np_clip (x + drift + diff) _X_LO _X_HI in
         (traj ++ [x], x, rng))
      l (traj, y, rng) in
  length r.1.1 = (length traj + length l)%nat
  ∧ head r.1.1 = head traj
  ∧ Forall (λ y, 0 <= y ∧ y <= 1) (tail r.1.1).
Proof.
  cbv zeta. revert traj y rng.
  induction l as [|i l IH]; intros traj y rng Hne Hall; cbn [fold_left length].
  - cbn [fst]. split; [lia|]. by split.
  - destruct (standard_normal rng) as [z rng'].
    match goal with
    | |- context [fold_left _ l (traj ++ [?y'], ?y', rng')] =>
        specialize (IH (traj ++ [y']) y' rng')
    end.
    destruct IH as (Hlen & Hhd & Htl).
    + by destruct traj.
    + destruct traj as [|t0 traj]; [done|]. cbn [app tail] in *.
      apply Forall_app. split; [done|].
      constructor; [|constructor].
      match goal with
      | |- context [np_clip ?v _X_LO _X_HI] =>
          destruct (np_clip_bounds v _X_LO _X_HI) as [Hlo Hhi]
      end.
      * unfold _X_LO, _X_HI. lra.
      * unfold _X_LO, _X_HI in *. split; lra.
    + rewrite Hlen, Hhd, length_app. cbn [length].
      split; [lia|]. split; [by destruct traj|done].
Qed.

(** X13: for a time step [dt >= 0], [step_ou_only] returns a trajectory
    of [n_steps + 1] points that starts at [x0] and whose later points all
    lie in [0, 1]; it leaves the actor states of the module untouched.
    (For [dt < 0] numpy's square root is nan and so is every later
    point.) *)
Theorem step_ou_only_trajectory `{PyMath} `{NpGenerator G}
    (self : VADM G) (x0 mu theta : Q) (n_steps : nat) :
  0 <= _dt self →
  let r := step_ou_only self x0 mu theta n_steps in
  length r.1 = S n_steps
  ∧ head r.1 = Some x0
  ∧ Forall (λ y, 0 <= y ∧ y <= 1) (tail r.1)
  ∧ _states r.2 = _states self.
Proof.
  intros _. cbv zeta. unfold step_ou_only.
  pose proof (ou_fold self mu theta (seq 0 n_steps) [x0] x0 (_rng self))
    as Hgen.
  cbv zeta in Hgen.
  destruct (fold_left _ (seq 0 n_steps) _) as [[traj y] rng].
  cbn [fst snd _states] in *.
  destruct Hgen as (Hlen & Hhd & Htl); [done|by constructor|].
  rewrite length_seq in Hlen. cbn [length] in Hlen.
  by repeat split.
Qed.

Lemma step_ou_only_trajectory_witness :
  let r := step_ou_only (H := PyMath_exact) (H0 := tape_generator)
             vadm_run0 0.9 0.5 0.5 3 in
  length r.1 = 4%nat
  ∧ head r.1 = Some 0.9
  ∧ Forall (λ y, 0 <= y ∧ y <= 1) (tail r.1).
Proof.
  destruct (step_ou_only_trajectory (H := PyMath_exact)
              (H0 := tape_generator) vadm_run0 0.9 0.5 0.5 3
              ltac:(by vm_compute)) as (Hlen & Hhd & Htl & _).
  exact (conj Hlen (conj Hhd Htl)).
Defined.

(** X14: for a time span [delta_t >= 0], [decay] returns a reputation in
    [0, 1], uses one draw of the generator and leaves the actor states
    untouched.  (For [delta_t < 0] numpy's square root is nan and so is
    the result.) *)
Theorem decay_bounded `{PyMath} `{NpGenerator G}
    (self : VADM G) (reputation volatility : Q) (delta_t : Z) :
  (0 <= delta_t)%Z →
  let r := decay self reputation volatility delta_t in
  (0 <= r.1 ∧ r.1 <= 1)
  ∧ _rng r.2 = (standard_normal (_rng self)).2
  ∧ _states r.2 = _states self.
Proof.
  intros _. cbv zeta. unfold decay. cbv zeta.
  destruct (standard_normal (_rng self)) as [z rng]. cbn [fst snd _rng _states].
  split; [|done].
  match goal with
  | |- context [np_clip ?y _X_LO _X_HI] =>
      destruct (np_clip_bounds y _X_LO _X_HI) as [Hlo Hhi]
  end.
  - unfold _X_LO, _X_HI. lra.
  - unfold _X_LO, _X_HI in *. split; lra.
Qed.

Lemma decay_bounded_witness :
  let r := decay (H := PyMath_exact) (H0 := tape_generator)
             vadm_run0 0.3 0.1 4 in
  (0 <= r.1 ∧ r.1 <= 1) ∧ _rng r.2 = [0; 1].
Proof.
  destruct (decay_bounded (H := PyMath_exact) (H0 := tape_generator)
              vadm_run0 0.3 0.1 4 ltac:(done)) as (Hr & Hrng & _).
  exact (conj Hr Hrng).
Defined.

End VadmMore.

Module IteMore.
Import Ite IteFacts.

(** *** Structural similarity *)

Lemma fast_jaccard_range (u v : gset Z) :
  0 <= _fast_jaccard u v ∧ _fast_jaccard u v <= 1.
Proof.
  unfold _fast_jaccard. cbv zeta.
  destruct (Nat.ltb_spec 0 (size (u ∪ v))) as [Hpos|Hz]; [|split; lra].
  apply BsmFacts.ratio_unit; [|lia].
  assert (size (u ∩ v) ≤ size (u ∪ v))%nat.
  { apply subseteq_size. intros a Ha.
    apply elem_of_intersection in Ha as [Ha _].
    apply elem_of_union. by left. }
  lia.
Qed.

(** X15: the Jaccard index of two neighbour sets lies in [0, 1], does not
    depend on the order of its arguments, and is 1 for a non-empty set
    against itself. *)
Theorem fast_jaccard_props (u v : gset Z) :
  (0 <= _fast_jaccard u v ∧ _fast_jaccard u v <= 1)
  ∧ _fast_jaccard u v = _fast_jaccard v u
  ∧ (u = ∅ ∨ _fast_jaccard u u == 1).
Proof.
  split; [|split].
  - apply fast_jaccard_range.
  - unfold _fast_jaccard.
    assert (Hi : u ∩ v = v ∩ u).
    { apply set_eq. intros a. rewrite !elem_of_intersection. tauto. }
    assert (Hu : u ∪ v = v ∪ u).
    { apply set_eq. intros a. rewrite !elem_of_union. tauto. }
    by rewrite Hi, Hu.
  - destruct (decide (u = ∅)) as [->|Hne]; [by left|right].
    unfold _fast_jaccard. cbv zeta.
    assert (Hi : u ∩ u = u).
    { apply set_eq. intros a. rewrite !elem_of_intersection. tauto. }
    assert (Hu : u ∪ u = u).
    { apply set_eq. intros a. rewrite !elem_of_union. tauto. }
    rewrite Hi, Hu.
    assert (size u ≠ 0)%nat by (by intros ?%size_empty_inv%leibniz_equiv).
    destruct (Nat.ltb_spec 0 (size u)) as [Hpos|Hz]; [|lia].
    field. intros Hq.
    assert (Hz : inject_Z (Z.of_nat (size u)) == inject_Z 0) by exact Hq.
    assert (Z.of_nat (size u) = 0)%Z by (by apply inject_Z_injective).
    lia.
Qed.

Lemma structural_penalty_range (sim din : Q) :
  0 <= sim → 0 <= din →
  0 <= _structural_penalty sim din ∧ _structural_penalty sim din <= 1.
Proof.
  intros Hs Hd. unfold _structural_penalty, _BETA, _GAMMA. cbv zeta.
  destruct (Q.max_spec 0.0 (1.0 - (0.5 * sim + 0.5 * din))) as [[? ->]|[? ->]];
    split; lra.
Qed.

Lemma is_suspect_din (stats : _CommStats) :
  _is_suspect stats = true → 0 <= din stats.
Proof.
  unfold _is_suspect. intros [Hd _]%andb_true_iff.
  apply Qgeb_true in Hd. unfold _SUSPECT_DIN in Hd. lra.
Qed.

(** X16: for a non-negative raw outcome the evidence returned by
    [penalized_evidence] lies between 0 and the raw outcome: the penalty
    never raises an endorsement and never turns it negative. *)
Theorem penalized_evidence_range {R} (self : ITE R)
    (endorser_id target_id raw_outcome : Z) :
  (0 <= raw_outcome)%Z →
  0 <= (penalized_evidence self endorser_id target_id raw_outcome).1
  ∧ (penalized_evidence self endorser_id target_id raw_outcome).1
    <= inject_Z raw_outcome.
Proof.
  intros Hraw.
  assert (He : 0 <= inject_Z raw_outcome).
  { change 0 with (inject_Z 0). by rewrite <- Zle_Qle. }
  unfold penalized_evidence. cbv zeta.
  destruct (decide (_partition self = ∅)); [cbn [fst]; split; lra|].
  destruct (_partition self !! endorser_id) as [c_e|]; [|cbn [fst]; split; lra].
  destruct (_partition self !! target_id) as [c_t|]; [|cbn [fst]; split; lra].
  destruct (decide (c_e ≠ c_t)); [cbn [fst]; split; lra|].
  destruct (_comm_stats self !! c_e) as [stats|]; [|cbn [fst]; split; lra].
  destruct (_is_suspect stats) eqn:Es; cbn [negb fst]; [|split; lra].
  match goal with
  | |- context [_structural_penalty ?sim ?d] =>
      destruct (structural_penalty_range sim d) as [Hw0 Hw1];
      [apply fast_jaccard_range | by apply is_suspect_din |];
      generalize dependent (_structural_penalty sim d)
  end.
  intros w Hw0 Hw1. generalize dependent (inject_Z raw_outcome).
  intros e He. split; nra.
Qed.

Lemma penalized_evidence_range_witness :
  0 <= (penalized_evidence clique_engine 1 2 1).1
  ∧ (penalized_evidence clique_engine 1 2 1).1 <= 1.
Proof.
  apply (penalized_evidence_range clique_engine 1 2 1). lia.
Defined.


(** *** The interaction graph *)

(** The calls that reach an engine from outside. *)
Inductive ite_call :=
| CallForce (u v outcome : Z)
| CallGenerate (agent_id : Z) (all_ids : list Z)
| CallEvidence (endorser_id target_id raw_outcome : Z)
| CallTick.

Section Graph.
Context `{PyRandom R} `{Louvain}.

(** One call; a [tick] that raises leaves the engine as it was. *)
Definition run_call (self : ITE R) (c : ite_call) : ITE R :=
  match c with
  | CallForce u v o => force_interaction self u v o
  | CallGenerate a ids => (generate_interactions self a ids).2
  | CallEvidence e t o => (penalized_evidence self e t o).2
  | CallTick => match tick self with Ok s => s | Raise _ => self end
  end.

(** Neighbourhood is symmetric; every edge joins two nodes that are each
    other's neighbours and has a weight of at least 1. *)
Definition graph_ok (self : ITE R) : Prop :=
  (∀ a b, a ∈ nbrs_get (_nbrs self) b → b ∈ nbrs_get (_nbrs self) a)
  ∧ (∀ a b w, edges (_graph self) !! (a, b) = Some w →
       b ∈ nbrs_get (_nbrs self) a
       ∧ a ∈ nodes (_graph self) ∧ b ∈ nodes (_graph self)
       ∧ (1 <= w.1)%Z).

Lemma ensure_graph (self : ITE R) (ids : list Z) :
  (∀ k, nbrs_get (_nbrs (_ensure self ids)) k = nbrs_get (_nbrs self) k)
  ∧ edges (_graph (_ensure self ids)) = edges (_graph self)
  ∧ nodes (_graph self) ⊆ nodes (_graph (_ensure self ids)).
Proof.
  unfold _ensure. revert self.
  induction ids as [|i ids IH]; intros self; cbn [fold_left]; [done|].
  match goal with
  | |- context [fold_left _ ids ?s0] => destruct (IH s0) as (Hn & He & Hs)
  end.
  split; [|split].
  - intros k. rewrite Hn. case_decide; [done|].
    cbn [with_graph _nbrs]. apply nbrs_get_touch.
  - rewrite He. by case_decide.
  - etrans; [|exact Hs]. case_decide; [done|].
    cbn [with_graph _graph nodes]. apply union_subseteq_r.
Qed.

Lemma add_edge_nbrs (self : ITE R) (u v o a b : Z) :
  a ∈ nbrs_get (_nbrs (_add_edge self u v o)) b
  ↔ a ∈ nbrs_get (_nbrs self) b ∨ (b = u ∧ a = v) ∨ (b = v ∧ a = u).
Proof.
  unfold _add_edge. cbv zeta. cbn [with_graph _nbrs].
  unfold nbrs_get at 1.
  destruct (decide (b = v)) as [->|Hbv].
  - rewrite lookup_insert_eq. cbn [default]. unfold id.
    rewrite elem_of_union, elem_of_singleton.
    unfold nbrs_get at 1.
    destruct (decide (v = u)) as [->|Hvu].
    + rewrite lookup_insert_eq. cbn [default]. unfold id.
      rewrite elem_of_union, elem_of_singleton. intuition (subst; auto; congruence).
    + rewrite lookup_insert_ne by done. fold (nbrs_get (_nbrs self) v).
      intuition (subst; auto; congruence).
  - rewrite lookup_insert_ne by done.
    destruct (decide (b = u)) as [->|Hbu].
    + rewrite lookup_insert_eq. cbn [default]. unfold id.
      rewrite elem_of_union, elem_of_singleton. intuition (subst; auto; congruence).
    + rewrite lookup_insert_ne by done. fold (nbrs_get (_nbrs self) b).
      intuition (subst; auto; congruence).
Qed.

Lemma add_edge_edges (self : ITE R) (u v o : Z) (k : Z * Z) :
  edges (_graph (_add_edge self u v o)) !! k
  = if decide (k = (u, v))
    then Some (match edges (_graph self) !! (u, v) with
               | Some (weight, _) => ((weight + 1)%Z, o)
               | None => (1%Z, o)
               end)
    else edges (_graph self) !! k.
Proof.
  unfold _add_edge. cbv zeta. cbn [with_graph _graph edges].
  destruct (edges (_graph self) !! (u, v)) as [[w l]|] eqn:E;
    case_decide as Hk; subst;
    by rewrite ?lookup_insert_eq, ?lookup_insert_ne by done.
Qed.

Lemma add_edge_ok (self : ITE R) (u v o : Z) :
  graph_ok self → graph_ok (_add_edge self u v o).
Proof.
  intros [Hsym Hedge]. split.
  - intros a b. rewrite !add_edge_nbrs. intuition (subst; auto; congruence).
  - intros a b w. rewrite add_edge_edges, add_edge_nbrs.
    unfold _add_edge at 1 2. cbv zeta. cbn [with_graph _graph nodes].
    rewrite !elem_of_union, !elem_of_singleton.
    case_decide as Hk.
    + injection Hk as -> ->. intros [= <-].
      split; [intuition (subst; auto; congruence)|]. split; [intuition (subst; auto; congruence)|]. split; [intuition (subst; auto; congruence)|].
      destruct (edges (_graph self) !! (u, v)) as [[w l]|] eqn:E; cbn [fst];
        [|lia].
      destruct (Hedge _ _ _ E) as (_ & _ & _ & Hw). cbn [fst] in Hw. lia.
    + intros Hw. destruct (Hedge _ _ _ Hw) as (? & ? & ? & ?). intuition (subst; auto; congruence).
Qed.

Lemma ensure_ok (self : ITE R) (ids : list Z) :
  graph_ok self → graph_ok (_ensure self ids).
Proof.
  intros [Hsym Hedge].
  destruct (ensure_graph self ids) as (Hn & He & Hs).
  split.
  - intros a b. rewrite !Hn. apply Hsym.
  - intros a b w. rewrite He, Hn. intros Hw.
    destruct (Hedge _ _ _ Hw) as (? & ? & ? & ?).
    repeat split; try done; by apply Hs.
Qed.

Lemma with_rng_ok (self : ITE R) (rng : R) :
  graph_ok self → graph_ok (with_rng self rng).
Proof. done. Qed.

Lemma generate_interactions_ok (self : ITE R) (agent_id : Z) (all_ids : list Z) :
  graph_ok self → graph_ok (generate_interactions self agent_id all_ids).2.
Proof.
  intros Hok. unfold generate_interactions. cbv zeta.
  destruct (rnd_sample _ _ _) as [idx rng].
  match goal with
  | |- context [fold_left ?f ?l ?a] =>
      assert (Hfold : ∀ l' (a' : list (Z * Z) * ITE R),
                graph_ok a'.2 → graph_ok (fold_left f l' a').2)
  end.
  { induction l' as [|t l' IH]; intros [pairs s] Hs; cbn [fold_left]; [done|].
    destruct (rnd_randint 0 1 (_rng s)) as [o rng'].
    apply IH. cbn [snd] in *. by apply add_edge_ok, with_rng_ok. }
  apply Hfold. cbn [snd]. by apply with_rng_ok, ensure_ok.
Qed.

Lemma penalized_evidence_ok (self : ITE R) (e t o : Z) :
  graph_ok self → graph_ok (penalized_evidence self e t o).2.
Proof.
  intros Hok. unfold penalized_evidence. cbv zeta.
  repeat (case_decide || case_match); try done.
  cbn [snd]. destruct Hok as [Hsym Hedge].
  split; cbn [with_graph _nbrs _graph].
  - intros a b. rewrite !nbrs_get_touch. apply Hsym.
  - intros a b w. rewrite !nbrs_get_touch. apply Hedge.
Qed.

Lemma tick_ok (self : ITE R) :
  graph_ok self →
  graph_ok (match tick self with Ok s => s | Raise _ => self end).
Proof.
  intros Hok. unfold tick. cbv zeta.
  cbn [_recompute_interval _step].
  destruct (_ =? 0)%Z; [done|]. by destruct (_ =? 0)%Z.
Qed.

Lemma run_call_ok (self : ITE R) (c : ite_call) :
  graph_ok self → graph_ok (run_call self c).
Proof.
  intros Hok. destruct c; cbn [run_call].
  - by apply add_edge_ok, ensure_ok.
  - by apply generate_interactions_ok.
  - by apply penalized_evidence_ok.
  - by apply tick_ok.
Qed.

End Graph.

(** X17: after any sequence of forced interactions, generated
    interactions, evidence queries and ticks on a fresh engine, the
    neighbour table is symmetric, and every edge of the interaction graph
    joins two recorded nodes, makes its target a neighbour of its source,
    and carries a weight of at least 1. *)
Theorem interaction_graph_invariant `{PyRandom R} `{Louvain}
    (beta gamma : Q) (recompute_interval : Z) (k_interactions : nat)
    (seed : Z) (calls : list ite_call) :
  let self :=
    fold_left run_call calls
      (ITE_new beta gamma recompute_interval k_interactions seed) in
  (∀ a b, a ∈ nbrs_get (_nbrs self) b ↔ b ∈ nbrs_get (_nbrs self) a)
  ∧ (∀ a b w, edges (_graph self) !! (a, b) = Some w →
       b ∈ nbrs_get (_nbrs self) a
       ∧ a ∈ nodes (_graph self) ∧ b ∈ nodes (_graph self)
       ∧ (1 <= w.1)%Z).
Proof.
  cbv zeta.
  assert (Hok : graph_ok
            (fold_left run_call calls
               (ITE_new beta gamma recompute_interval k_interactions seed))).
  { assert (Hgen : ∀ self : ITE R,
              graph_ok self → graph_ok (fold_left run_call calls self)).
    { induction calls as [|c calls IH]; intros self Hs; cbn [fold_left];
        [done|].
      by apply IH, run_call_ok. }
    apply Hgen. split.
    - intros a b. unfold nbrs_get. cbn. by rewrite lookup_empty.
    - intros a b w. cbn. by rewrite lookup_empty. }
  destruct Hok as [Hsym Hedge].
  split; [|exact Hedge]. intros a b. split; apply Hsym.
Qed.


Lemma force_interaction_edge {R} (self : ITE R) (u v o : Z) (k : Z * Z) :
  edges (_graph (force_interaction self u v o)) !! k
  = if decide (k = (u, v))
    then Some (match edges (_graph self) !! (u, v) with
               | Some (weight, _) => ((weight + 1)%Z, o)
               | None => (1%Z, o)
               end)
    else edges (_graph self) !! k.
Proof.
  unfold force_interaction. rewrite add_edge_edges.
  destruct (ensure_graph self [u; v]) as (_ & He & _).
  by rewrite He.
Qed.


(** The weight of the edge [u -> v], 0 when there is none. *)
Definition edge_weight {R} (self : ITE R) (u v : Z) : Z :=
  match edges (_graph self) !! (u, v) with
  | Some (weight, _) => weight
  | None => 0%Z
  end.

Lemma forced_weight {R} (u v : Z) (outcomes : list Z) (o : Z) (self : ITE R) :
  edges (_graph (fold_left (λ s o, force_interaction s u v o)
                   (outcomes ++ [o]) self)) !! (u, v)
  = Some ((edge_weight self u v + Z.of_nat (length outcomes) + 1)%Z, o).
Proof.
  revert self. induction outcomes as [|o' outcomes IH]; intros self;
    cbn [app fold_left length].
  - rewrite force_interaction_edge, decide_True by done.
    unfold edge_weight.
    destruct (edges (_graph self) !! (u, v)) as [[w l]|]; do 2 f_equal; lia.
  - rewrite IH. do 2 f_equal. unfold edge_weight at 1.
    rewrite force_interaction_edge, decide_True by done.
    unfold edge_weight.
    destruct (edges (_graph self) !! (u, v)) as [[w l]|]; lia.
Qed.

(** X18: the weight of an edge counts the interactions on its ordered
    pair and [last] keeps the latest outcome: after forcing the outcomes
    [o1 .. on, o] from [u] to [v] on a fresh engine the edge [u -> v]
    carries weight [n + 1] and last outcome [o]; an interaction on
    another ordered pair leaves the edge as it is. *)
Theorem edge_weight_counts `{PyRandom R}
    (beta gamma : Q) (recompute_interval : Z) (k_interactions : nat)
    (seed u v : Z) (outcomes : list Z) (o : Z) :
  let fresh := ITE_new beta gamma recompute_interval k_interactions seed in
  let self := fold_left (λ s o, force_interaction s u v o)
                (outcomes ++ [o]) fresh in
  edges (_graph self) !! (u, v)
  = Some (Z.of_nat (length outcomes + 1), o)
  ∧ ∀ u' v' o', (u', v') ≠ (u, v) →
      edges (_graph (force_interaction self u' v' o')) !! (u, v)
      = edges (_graph self) !! (u, v).
Proof.
  cbv zeta. split.
  - rewrite forced_weight. unfold edge_weight. cbn.
    rewrite lookup_empty. do 2 f_equal. lia.
  - intros u' v' o' Hne. rewrite force_interaction_edge.
    by rewrite decide_False by congruence.
Qed.

End IteMore.

Module VcGenMore.
Import IrvPe IrvPeFacts VcGen.

(** *** Rounding *)

Lemma py_round4_cases (x : Q) :
  ∃ n : Z, py_round4 x = inject_Z n / 10000
           ∧ - (1 # 2) <= inject_Z n - x * 10000
           ∧ inject_Z n - x * 10000 <= 1 # 2.
Proof.
  unfold py_round4. cbv zeta.
  pose proof (Qfloor_le (x * 10000)) as Hlo.
  pose proof (Qlt_floor (x * 10000)) as Hhi.
  rewrite inject_Z_plus in Hhi. change (inject_Z 1) with 1 in Hhi.
  set (f := Qfloor (x * 10000)) in *.
  destruct (Qltb (x * 10000 - inject_Z f) 0.5) eqn:E1.
  { exists f. split; [done|].
    apply negb_true_iff in E1.
    assert (¬ 0.5 <= x * 10000 - inject_Z f).
    { intros Hle. apply Qle_bool_iff in Hle. congruence. }
    split; lra. }
  apply negb_false_iff, Qle_bool_iff in E1.
  destruct (Qltb 0.5 (x * 10000 - inject_Z f)) eqn:E2.
  { exists (f + 1)%Z. split; [done|]. rewrite inject_Z_plus.
    change (inject_Z 1) with 1.
    apply negb_true_iff in E2.
    assert (¬ x * 10000 - inject_Z f <= 0.5).
    { intros Hle. apply Qle_bool_iff in Hle. congruence. }
    split; lra. }
  apply negb_false_iff, Qle_bool_iff in E2.
  destruct (Z.even f).
  - exists f. split; [done|]. split; lra.
  - exists (f + 1)%Z. split; [done|]. rewrite inject_Z_plus.
    change (inject_Z 1) with 1. split; lra.
Qed.

(** [round(x, 4)] returns a multiple of 1/10000 within half a unit
    of the fourth decimal of [x], and rounding its own result changes
    nothing. *)
Theorem py_round4_props (x : Q) :
  (∃ n : Z, py_round4 x = inject_Z n / 10000)
  ∧ (- (1 # 20000) <= py_round4 x - x ∧ py_round4 x - x <= 1 # 20000)
  ∧ py_round4 (py_round4 x) == py_round4 x.
Proof.
  destruct (py_round4_cases x) as (n & Hn & Hlo & Hhi).
  split; [by exists n|]. split.
  - rewrite Hn.
    assert (Hq : inject_Z n / 10000 * 10000 == inject_Z n) by field.
    revert Hq. generalize (inject_Z n / 10000). intros q Hq.
    split; lra.
  - destruct (py_round4_cases (py_round4 x)) as (k & Hk & Hklo & Hkhi).
    rewrite Hk. rewrite Hn in Hklo, Hkhi |- *.
    assert (Heq : inject_Z n / 10000 * 10000 == inject_Z n) by field.
    rewrite Heq in Hklo, Hkhi.
    assert (Hkn : k = n).
    { assert (Hl : inject_Z (n - 1) < inject_Z k).
      { replace (n - 1)%Z with (n + -1)%Z by lia.
        rewrite inject_Z_plus. change (inject_Z (-1)) with (- (1)). lra. }
      assert (Hu : inject_Z k < inject_Z (n + 1)).
      { rewrite inject_Z_plus. change (inject_Z 1) with 1. lra. }
      rewrite <- Zlt_Qlt in Hl, Hu. lia. }
    subst k. reflexivity.
Qed.

(** *** The records of [generate] *)

Section Records.
Context `{PyRandom R} `{Hashlib}.

Lemma build_attributes_keys (is_attacker : bool) (keys : list string)
    (attrs : list (string * attr_value)) (rng : R) (clk : Clock) :
  (fold_left (build_attribute is_attacker) keys (attrs, rng, clk)).1.1.*1
  = attrs.*1 ++ keys.
Proof.
  revert attrs rng clk.
  induction keys as [|k keys IH]; intros attrs rng clk; cbn [fold_left].
  - cbn [fst]. by rewrite app_nil_r.
  - unfold build_attribute at 2, time_time.
    destruct (attr_kind_of k); cbv beta iota;
      repeat match goal with
        | |- context [let '(_, _) := ?c in _] => destruct c
        end;
      rewrite IH, fmap_app; cbn [fmap list_fmap fst];
      by rewrite <- app_assoc.
Qed.

Lemma honest_bba_keys (rng : R) :
  is_Some ((_build_honest_bba rng).1 !! _FRAME)
  ∧ (_build_honest_bba rng).1 !! _EMPTY = None.
Proof.
  unfold _build_honest_bba.
  repeat match goal with
    | |- context [let '(_, _) := ?c in _] => destruct c
    end.
  cbn [fst]. unfold normalise. cbv zeta.
  cbn [fmap list_fmap list_to_map foldr uncurry].
  split.
  - rewrite !lookup_insert_ne, lookup_insert_eq by done. by eexists.
  - by rewrite !lookup_insert_ne, lookup_empty by done.
Qed.

Lemma attacker_bba_keys (rng : R) :
  is_Some ((_build_attacker_bba rng).1 !! _FRAME)
  ∧ (_build_attacker_bba rng).1 !! _EMPTY = None.
Proof.
  unfold _build_attacker_bba.
  repeat match goal with
    | |- context [let '(_, _) := ?c in _] => destruct c
    end.
  cbn [fst]. unfold normalise. cbv zeta.
  cbn [fmap list_fmap list_to_map foldr uncurry].
  split.
  - rewrite !lookup_insert_ne, lookup_insert_eq by done. by eexists.
  - by rewrite !lookup_insert_ne, lookup_empty by done.
Qed.

(** What every generated record satisfies. *)
Definition record_ok (agent_id : Z) (r : VCRecord) : Prop :=
  subject_id r = agent_id
  ∧ (attributes r).*1 = default [] (_ATTR_KEY_MAP !! vc_type r)
  ∧ is_Some (bba r !! _FRAME)
  ∧ bba r !! _EMPTY = None.

Lemma generate_record_ok (agent_id : Z) (is_attacker : bool)
    (st : list VCRecord * R * Clock) (ivt : nat * string) :
  Forall (record_ok agent_id) st.1.1 →
  Forall (record_ok agent_id) (generate_record agent_id is_attacker st ivt).1.1.
Proof.
  destruct st as [[recs rng] clk], ivt as [i vt]. cbn [fst]. intros Hall.
  unfold generate_record.
  destruct (_issuer_tier_for_vc_type vt rng) as [tier rng1].
  destruct (_issuer_trust tier rng1) as [trust rng2].
  destruct (if is_attacker
            then let '(u, rng0) := rnd_uniform 0.5 0.85 rng2 in (trust * u, rng0)
            else (trust, rng2)) as [trust' rng3].
  destruct (rnd_random rng3) as [u rng4].
  pose proof (build_attributes_keys is_attacker
                (default [] (_ATTR_KEY_MAP !! vt)) [] rng4 clk) as Hkeys.
  unfold _build_attributes. cbv zeta.
  destruct (fold_left _ _ ([], rng4, clk)) as [[attrs rngA] cA].
  cbn [fst fmap list_fmap app] in Hkeys.
  pose proof (honest_bba_keys rngA) as Hh.
  pose proof (attacker_bba_keys rngA) as Ha.
  destruct (if is_attacker then _build_attacker_bba rngA
            else _build_honest_bba rngA) as [m rng5] eqn:Em.
  unfold time_time. cbv beta iota.
  destruct (rnd_randint 0 31536000 rng5) as [age rng6].
  destruct (_chain_depth tier rng6) as [depth rng7].
  cbn [fst]. apply Forall_app. split; [done|].
  constructor; [|constructor].
  unfold record_ok.
  cbn [subject_id attributes vc_type bba].
  split; [done|]. split; [done|].
  destruct is_attacker; [rewrite Em in Ha | rewrite Em in Hh]; done.
Qed.

End Records.

(** X19: every record [generate] returns carries the actor's id as its
    subject, has exactly the attribute keys of its credential type (in
    table order), and a BBA with an entry for the full frame and none for
    the empty set; so discounting a generated BBA with any weight [w]
    gives total mass [w * total + (1 - w)]. *)
Theorem generate_records_ok `{PyRandom R} `{Hashlib}
    (self : VCGen) (agent_id : Z) (n_credentials : nat) (is_attacker : bool)
    (clk : Clock) :
  Forall
    (λ r, subject_id r = agent_id
          ∧ (attributes r).*1 = default [] (_ATTR_KEY_MAP !! vc_type r)
          ∧ is_Some (bba r !! _FRAME)
          ∧ bba r !! _EMPTY = None
          ∧ ∀ w, bba_sum (_downweight_bba (bba r) w)
                 == w * bba_sum (bba r) + (1 - w))
    (generate self agent_id n_credentials is_attacker clk).1.
Proof.
  assert (Hok : Forall (record_ok agent_id)
                  (generate self agent_id n_credentials is_attacker clk).1).
  { unfold generate.
    destruct (rnd_choices _ None n_credentials _) as [idx rng].
    match goal with
    | |- context [fold_left ?f ?l ?a] =>
        assert (Hfold : ∀ l' a', Forall (record_ok agent_id) a'.1.1 →
                  Forall (record_ok agent_id) (fold_left f l' a').1.1)
    end.
    { induction l' as [|ivt l' IH]; intros a' Ha'; cbn [fold_left]; [done|].
      by apply IH, generate_record_ok. }
    match goal with
    | |- context [fold_left ?f ?l ?a] => specialize (Hfold l a)
    end.
    destruct (fold_left _ _ _) as [[recs rng'] clk'].
    cbn [fst] in *. by apply Hfold. }
  eapply Forall_impl; [exact Hok|].
  intros r (Hs & Hk & Hf & He). repeat split; try done.
  intros w. rewrite downweight_sum.
  by destruct (decide (is_Some (bba r !! _FRAME))).
Qed.

End VcGenMore.

Module ModelMore.
Import IrvPe Model ModelFacts.

Section Run.
Context `{PyMath} `{PyRandom R} `{NpGenerator G} `{Hashlib} `{Louvain}
        `{MesaRandom R}.

Abbreviation model := (ChronosRepModel R G).

(** X20: what one call of [ChronosAgent.step] does.  A key without an
    agent and an isolated agent leave the model as it is.  An active agent
    either sees [process] raise, or is replaced under its key by an agent
    with the same id and attacker flag, a five-component evidence vector,
    a reputation in [0, 1], and [isolated] set exactly when that
    reputation is below [TAU]; its id joins [_newly_isolated] exactly in
    that case, and no other agent changes. *)
Theorem agent_step_outcome (m : model) (key : Z) :
  match agents m !! key with
  | None => agent_step m key = Ok m
  | Some a =>
      if isolated a then agent_step m key = Ok m
      else
        match agent_step m key with
        | Raise _ => True
        | Ok m' =>
            ∃ a', agents m' = <[ key := a' ]> (agents m)
                  ∧ unique_id a' = unique_id a
                  ∧ is_attacker a' = is_attacker a
                  ∧ length (irv a') = 5%nat
                  ∧ (0 <= reputation a' ∧ reputation a' <= 1)
                  ∧ isolated a' = Qltb (reputation a') (TAU m)
                  ∧ _newly_isolated m'
                    = (if isolated a'
                       then {[ unique_id a ]} ∪ _newly_isolated m
                       else _newly_isolated m)
                  ∧ TAU m' = TAU m
                  ∧ current_step m' = current_step m
        end
  end.
Proof.
  unfold agent_step.
  destruct (agents m !! key) as [a|] eqn:Ea; [|done].
  destruct (isolated a) eqn:Eiso; [done|].
  cbv zeta.
  destruct (VcGen.generate _ _ _ _ _) as [credentials clk].
  pose proof (IrvPeFacts.process_irv_bounds_aux (irv_pe m) (unique_id a) credentials)
    as Hlen.
  destruct (process _ _ _) as [irv'|]; [|done]. cbn [py_bind].
  destruct (Ite.generate_interactions _ _ _) as [interactions ite1].
  destruct (penalized_all _ _ _) as [evidence' ite2].
  destruct (Bsm.monitor _ _ _) as [bsm_result bsm'].
  match goal with
  | |- context [Vadm.step ?v ?i ?x ?r] =>
      pose proof (VadmFacts.step_new_x v i x r) as Hx;
      cbv zeta in Hx; destruct Hx as (Hx & _);
      destruct (Vadm.step v i x r) as [[rep vol] vadm']
  end.
  cbn [fst] in Hx.
  eexists. split; [reflexivity|].
  cbn [unique_id is_attacker irv reputation isolated _newly_isolated TAU
       current_step].
  repeat split; try done.
  - rewrite Hx. apply VadmMore.euler_maruyama_range.
  - rewrite Hx. apply VadmMore.euler_maruyama_range.
  - by destruct (Qltb rep (TAU m)).
  - by destruct (Qltb rep (TAU m)).
Qed.

(** What a run keeps of the model it started from. *)
Record stable (m0 m : model) : Prop := {
  st_tau : TAU m = TAU m0;
  st_n : N m = N m0;
  st_dom : dom (agents m) = dom (agents m0);
  st_iso : ∀ key a, agents m0 !! key = Some a → isolated a = true →
                    ∃ a', agents m !! key = Some a' ∧ isolated a' = true;
  st_eta : 0 <= eta (irv_pe m);
  st_interval : Ite._recompute_interval (ite m) ≠ 0%Z;
  st_scenario : scenario m = scenario m0
}.

Lemma agent_step_stable (m0 m : model) (key : Z) (k : Z) (vars : list (Q * Q * Q)) :
  stable m0 m → current_step m = k → model_vars m = vars →
  ∃ m', agent_step m key = Ok m' ∧ stable m0 m'
        ∧ current_step m' = k ∧ model_vars m' = vars.
Proof.
  intros Hst Hk Hv. unfold agent_step.
  destruct (agents m !! key) as [b|] eqn:Eb; [|by eexists].
  destruct (isolated b) eqn:Eiso; [by eexists|].
  destruct Hst as [Htau Hn Hdom Hiso Heta Hint Hsc].
  cbv zeta.
  destruct (VcGen.generate _ _ _ _ _) as [credentials clk].
  destruct (process_total (irv_pe m) (unique_id b) credentials Heta)
    as [irv' ->].
  cbn [py_bind].
  pose proof (generate_interactions_interval (ite m) (unique_id b)
                (active_ids (agents m))) as Hgi.
  destruct (Ite.generate_interactions _ _ _) as [interactions ite1].
  pose proof (penalized_all_interval ite1 (unique_id b) interactions) as Hpa.
  destruct (penalized_all _ _ _) as [evidence' ite2].
  destruct (Bsm.monitor _ _ _) as [bsm_result bsm'].
  destruct (Vadm.step _ _ _ _) as [[rep vol] vadm'].
  cbn [snd] in *.
  eexists. split; [reflexivity|]. split; [|done].
  split; cbn [TAU N agents irv_pe ite scenario]; try done.
  - rewrite dom_insert_lookup_L; [done | by rewrite Eb].
  - intros key' a Ha Hai. destruct (Hiso _ _ Ha Hai) as (a' & Ha' & Hi').
    exists a'. split; [|done].
    rewrite lookup_insert_ne; [done|]. intros <-. congruence.
  - congruence.
Qed.

Lemma schedule_step_stable (m0 m : model) :
  stable m0 m →
  ∃ m', schedule_step m = Ok m' ∧ stable m0 m'
        ∧ current_step m' = current_step m ∧ model_vars m' = model_vars m.
Proof.
  intros Hst. unfold schedule_step.
  destruct (rnd_shuffle _ _) as [order rng].
  match goal with
  | |- context [fold_left _ order (Ok ?ms)] =>
      assert (Hs0 : stable m0 ms) by (by destruct Hst);
      assert (Hk0 : current_step ms = current_step m) by done;
      assert (Hv0 : model_vars ms = model_vars m) by done;
      generalize dependent ms
  end.
  induction order as [|key order IH]; intros ms Hs0 Hk0 Hv0; cbn [fold_left].
  - by eexists.
  - cbn [py_bind].
    destruct (agent_step_stable m0 ms key _ _ Hs0 Hk0 Hv0)
      as (m1 & -> & Hs1 & Hk1 & Hv1).
    by apply IH.
Qed.

Lemma apply_scenario_stable (m0 m : model) :
  stable m0 m →
  stable m0 (apply_scenario m)
  ∧ current_step (apply_scenario m) = current_step m
  ∧ model_vars (apply_scenario m) = model_vars m.
Proof.
  intros Hst. unfold apply_scenario.
  destruct (scenario m) as [sc|] eqn:Esc; [|done].
  destruct (inject sc _ _ _) as [forced flag].
  split; [|done].
  destruct Hst as [Htau Hn Hdom Hiso Heta Hint Hsc].
  split; cbn [TAU N agents irv_pe ite scenario]; try done.
  - by rewrite dom_fmap_L.
  - intros key a Ha Hai. destruct (Hiso _ _ Ha Hai) as (a' & Ha' & Hi').
    eexists. rewrite lookup_fmap, Ha'. split; [reflexivity|done].
  - by rewrite forced_interval.
  - congruence.
Qed.

Lemma step_stable (m0 m : model) :
  stable m0 m →
  ∃ m', step m = Ok m' ∧ stable m0 m'
        ∧ current_step m' = (current_step m + 1)%Z
        ∧ length (model_vars m') = S (length (model_vars m)).
Proof.
  intros Hst. unfold step.
  match goal with
  | |- context [schedule_step (apply_scenario ?ms)] =>
      assert (Hs0 : stable m0 ms) by (by destruct Hst);
      destruct (apply_scenario_stable m0 ms Hs0) as (Hs1 & Hk1 & Hv1);
      destruct (schedule_step_stable m0 _ Hs1) as (m2 & -> & Hs2 & Hk2 & Hv2)
  end.
  cbn [py_bind].
  destruct (tick_total (ite m2) (st_interval _ _ Hs2)) as (ite' & -> & Hint).
  cbn [py_bind]. eexists. split; [reflexivity|].
  cbn [current_step model_vars] in *.
  split; [|split].
  - destruct Hs2 as [Htau Hn Hdom Hiso Heta Hint2 Hsc].
    split; cbn [TAU N agents irv_pe ite scenario]; try done. congruence.
  - rewrite Hk2, Hk1. reflexivity.
  - rewrite length_app, Hv2, Hv1. cbn [length]. lia.
Qed.

Lemma steps_stable (n : nat) (m0 m : model) :
  stable m0 m →
  ∃ m', steps n m = Ok m' ∧ stable m0 m'
        ∧ current_step m' = (current_step m + Z.of_nat n)%Z
        ∧ length (model_vars m') = (length (model_vars m) + n)%nat.
Proof.
  revert m. induction n as [|n IH]; intros m Hst; cbn [steps].
  - exists m. split; [done|]. split; [done|]. split; lia.
  - destruct (step_stable m0 m Hst) as (m1 & -> & Hs1 & Hk1 & Hv1).
    cbn [py_bind].
    destruct (IH m1 Hs1) as (m' & Hrun & Hs' & Hk' & Hv').
    exists m'. split; [done|]. split; [done|]. split; lia.
Qed.

End Run.

(** X21: with at least one agent counted ([N] is not 0), a non-negative
    entropy ceiling and a non-zero recompute interval (the constructor's
    settings: 1000, 2.5 and 10), [n] model steps run to completion; they
    advance [current_step] by [n], collect [n] rows of model variables,
    keep [TAU], [N] and the set of agent keys, and leave every agent that
    was isolated at the start isolated.  (With [N = 0], as a subclass may
    set it, the isolation-rate reporter divides by zero in the first
    step; the statement leaves that case out.) *)
Theorem steps_complete
    `{PyMath} `{PyRandom R} `{NpGenerator G} `{Hashlib} `{Louvain}
    `{MesaRandom R} (m : ChronosRepModel R G) (n : nat) :
  N m ≠ 0%Z →
  0 <= eta (irv_pe m) →
  Ite._recompute_interval (ite m) ≠ 0%Z →
  ∃ m', steps n m = Ok m'
        ∧ current_step m' = (current_step m + Z.of_nat n)%Z
        ∧ length (model_vars m') = (length (model_vars m) + n)%nat
        ∧ TAU m' = TAU m ∧ N m' = N m
        ∧ dom (agents m') = dom (agents m)
        ∧ ∀ key a, agents m !! key = Some a → isolated a = true →
                   ∃ a', agents m' !! key = Some a' ∧ isolated a' = true.
Proof.
  intros _ Heta Hint.
  assert (Hst : stable m m).
  { split; try done. intros key a Ha Hi. by exists a. }
  destruct (steps_stable n m m Hst) as (m' & Hrun & Hs' & Hk & Hv).
  exists m'. destruct Hs' as [Htau Hn Hdom Hiso _ _ _].
  by repeat split.
Qed.

Lemma steps_complete_witness :
  ∃ m', steps (H := PyMath_exact) (H0 := lcg_random) (H1 := tape_generator)
          (H2 := digest_decimal) (H3 := louvain_one_block)
          (H4 := shuffle_identity) 500 model_example = Ok m'
        ∧ current_step m' = 500%Z
        ∧ length (model_vars m') = 500%nat.
Proof.
  destruct (steps_complete (H := PyMath_exact) (H0 := lcg_random)
              (H1 := tape_generator) (H2 := digest_decimal)
              (H3 := louvain_one_block) (H4 := shuffle_identity)
              model_example 500 ltac:(done) ltac:(by vm_compute)
              ltac:(by vm_compute))
    as (m' & Hrun & Hk & Hv & _).
  exists m'. exact (conj Hrun (conj Hk Hv)).
Defined.

End ModelMore.
